(** * pgopher: backup lifecycle coordinator

  A shallow embedding of the Go packages [remote], [utils], [catalog],
  [lock], [config], [retention], [backup] and [scheduler] of pgopher,
  with the properties of the specification stated against them.

  Conventions of the embedding.
  - Go [string]s are byte strings ([string] of the Standard Library);
    the functions of Go's [strings] package are written over their bytes.
  - Go [int]/[int64] are [Z]; where the source can overflow the 64-bit
    wrap-around is written out.
  - [time.Time] is the instant in nanoseconds since the Unix epoch.
  - The operating system is explicit state: a store of paths for the file
    system, the state of the advisory lock for [flock].  A system call
    fails exactly when the state says so (a path is absent, a path may
    not be unlinked, a directory is not empty, the lock is taken, the
    lock file cannot be opened); writes to an open file always succeed. *)

From Stdlib Require Import ZArith Lia Bool Ascii String List.
From Stdlib Require Import DecimalString DecimalZ.
From stdpp Require Import base decidable option list gmap strings sorting.

Open Scope string_scope.
Open Scope Z_scope.

(** ** Go strings *)

Module GoStrings.

Definition bytes (s : string) : list ascii := list_ascii_of_string s.
Definition of_bytes (l : list ascii) : string := string_of_list_ascii l.

(** [strings.HasSuffix] and [strings.HasPrefix]. *)
Definition HasSuffix (s suffix : string) : bool :=
  bool_decide (bytes suffix `suffix_of` bytes s).
Definition HasPrefix (s pre : string) : bool :=
  bool_decide (bytes pre `prefix_of` bytes s).

(** [strings.Contains]: [substr] occurs at some offset of [s]. *)
Fixpoint contains_at (l sub : list ascii) : bool :=
  bool_decide (sub `prefix_of` l) ||
  match l with
  | [] => false
  | _ :: l' => contains_at l' sub
  end.
Definition Contains (s substr : string) : bool :=
  contains_at (bytes s) (bytes substr).

(** The white space [strings.TrimSpace] removes, on ASCII input:
    tab, line feed, vertical tab, form feed, carriage return, space
    (the Unicode spaces above U+007F are multi-byte and not covered). *)
Definition isSpace (c : ascii) : bool :=
  let n := nat_of_ascii c in
  ((9 <=? n)%nat && (n <=? 13)%nat) || (n =? 32)%nat.

Fixpoint trimLeft (l : list ascii) : list ascii :=
  match l with
  | c :: l' => if isSpace c then trimLeft l' else l
  | [] => []
  end.

Definition TrimSpace (s : string) : string :=
  of_bytes (rev (trimLeft (rev (trimLeft (bytes s))))).

(** [fmt.Sprintf("%d", n)]: decimal digits, a leading minus sign for
    negative numbers. *)
Definition itoa (n : Z) : string := NilZero.string_of_int (Z.to_int n).

End GoStrings.

Import GoStrings.

(** ** Package [config]: the configuration records and their validation *)

Module config.

Record DatabaseConfig := {
  Host : string;
  Port : Z;
  Username : string;
  Password : string;
  Name : string
}.

(** [RetentionDays] and [MaxBackups] are [*int] in the source:
    [None] is the nil pointer. *)
Record RetentionConfig := {
  RetentionDays : option Z;
  MaxBackups : option Z
}.

Record LocalBackupConfig := {
  Dir : string;
  Schedule : list string;
  Retention : RetentionConfig;
  Enabled : bool
}.

Definition HasRetentionDays (r : RetentionConfig) : bool :=
  bool_decide (RetentionDays r <> None).

Definition HasMaxBackups (r : RetentionConfig) : bool :=
  bool_decide (MaxBackups r <> None).

Definition between (lo hi c : ascii) : bool :=
  (nat_of_ascii lo <=? nat_of_ascii c)%nat && (nat_of_ascii c <=? nat_of_ascii hi)%nat.

(** [isValidTimeFormat]: the regular expression
    [^([0-1][0-9]|2[0-3]):([0-5][0-9])$] on the whole text. *)
Definition isValidTimeFormat (timeStr : string) : bool :=
  match bytes timeStr with
  | [h1; h2; c; m1; m2] =>
      ((between "0" "1" h1 && between "0" "9" h2)
       || (Ascii.eqb h1 "2" && between "0" "3" h2))
      && Ascii.eqb c ":"
      && between "0" "5" m1 && between "0" "9" m2
  | _ => false
  end.

(** The errors [validateLocalBackup] builds with [fmt.Errorf]. *)
Inductive ValidationError :=
| ErrBackupDirRequired
| ErrBackupDirDotDot
| ErrInvalidSchedule (schedule : string)
| ErrBothRetention
| ErrRetentionDaysTooSmall (got : Z)
| ErrBackupLimitTooSmall (got : Z).

(** Sequencing of checks: the first error returns. *)
Definition check (e : option ValidationError) (k : option ValidationError)
  : option ValidationError :=
  match e with
  | Some err => Some err
  | None => k
  end.

(** [validateLocalBackup]; [None] is the nil error.  The two warnings
    logged for very high values do not change the result. *)
Definition validateLocalBackup (lb : LocalBackupConfig) : option ValidationError :=
  check (if String.eqb (TrimSpace (Dir lb)) "" then Some ErrBackupDirRequired else None) (
  check (if Contains (Dir lb) ".." then Some ErrBackupDirDotDot else None) (
  check (ErrInvalidSchedule <$> List.find (fun s => negb (isValidTimeFormat s)) (Schedule lb)) (
  let hasRetentionDays := HasRetentionDays (Retention lb) in
  let hasMaxBackups := HasMaxBackups (Retention lb) in
  check (if hasRetentionDays && hasMaxBackups then Some ErrBothRetention else None) (
  check (match RetentionDays (Retention lb) with
         | Some d => if d <? 1 then Some (ErrRetentionDaysTooSmall d) else None
         | None => None
         end) (
  check (match MaxBackups (Retention lb) with
         | Some n => if n <? 1 then Some (ErrBackupLimitTooSmall n) else None
         | None => None
         end)
  None))))).

(** [isValidPostgresName]: at most 63 bytes matching
    [^[a-zA-Z_][a-zA-Z0-9_\-]*$]. *)
Definition isNameStart (c : ascii) : bool :=
  between "a" "z" c || between "A" "Z" c || Ascii.eqb c "_".

Definition isNameChar (c : ascii) : bool :=
  isNameStart c || between "0" "9" c || Ascii.eqb c "-".

Definition isValidPostgresName (name : string) : bool :=
  if (63 <? length (bytes name))%nat then false
  else
    match bytes name with
    | c :: rest => isNameStart c && forallb isNameChar rest
    | [] => false
    end.

Record Config := {
  Timezone : string;
  Database : DatabaseConfig;
  LocalBackup : LocalBackupConfig;
  EncryptionKey : string;
  RunOnStartup : bool
}.

Inductive ConfigError :=
| ErrDatabaseConfig
| ErrTimezoneConfig
| ErrLocalBackupConfig (cause : ValidationError)
| ErrRemoteProvidersConfig
| ErrNotifyConfig.

Section validation.

(** The other validators of the configuration; [true] is the nil error. *)
Variables validateDatabase validateTimezone validateRemoteProviders
  validateNotification : Config -> bool.

Definition Validate (c : Config) : option ConfigError :=
  if negb (validateDatabase c) then Some ErrDatabaseConfig
  else if negb (validateTimezone c) then Some ErrTimezoneConfig
  else
    match validateLocalBackup (LocalBackup c) with
    | Some err => Some (ErrLocalBackupConfig err)
    | None =>
        if negb (validateRemoteProviders c) then Some ErrRemoteProvidersConfig
        else if negb (validateNotification c) then Some ErrNotifyConfig
        else None
    end.

End validation.

End config.

(** ** Package [remote]: naming of the remote artifact *)

Module remote.

Record Options := {
  Name : string;
  Type_ : string;
  Path : string;
  MaxVersions : Z;
  Database : config.DatabaseConfig;
  EncryptionKey : string
}.

Definition HasVersioning (o : Options) : bool := 0 <? MaxVersions o.

(** The extension computed at the head of [GetRemoteFileName]. *)
Definition ext (o : Options) : string :=
  let ext := ".sql.gz" in
  if negb (String.eqb (EncryptionKey o) "") then ext ++ ".age" else ext.

Definition GetRemoteFileName (o : Options) (currentVersion : Z) : string :=
  if HasVersioning o
  then config.Name (Database o) ++ "-v" ++ itoa currentVersion ++ ext o
  else config.Name (Database o) ++ ext o.

Definition GetRcloneRemotePath (o : Options) : string :=
  Name o ++ ":" ++ Path o.

Definition RemotePathFor (o : Options) (fileName : string) : string :=
  if String.eqb (Path o) "" then fileName
  else Path o ++ "/" ++ fileName.

End remote.

(** ** Package [path/filepath]: cleaned paths and shell patterns *)

(** A path string is modelled by its [filepath.Clean] normal form: whether
    it is rooted, and its elements.  [(false, [])] is ["."], [(true, [])]
    is the root. *)
Abbreviation PathName := (bool * list string)%type.

Module filepath.

Definition Separator : ascii := "/"%char.

(** [strings.Split(s, "/")] on the bytes of [s]. *)
Fixpoint split_sep (l : list ascii) : list (list ascii) :=
  match l with
  | [] => [[]]
  | c :: l' =>
      if Ascii.eqb c Separator then [] :: split_sep l'
      else match split_sep l' with
           | x :: xs => (c :: x) :: xs
           | [] => [[c]]
           end
  end.

(** One element of [Clean]'s scan; [stack] holds the elements kept so far,
    last first.  Empty elements and ["."] are dropped, [".."] removes the
    element before it, is dropped at the root and kept at the head of a
    relative path. *)
Definition step (rooted : bool) (stack : list string) (e : string) : list string :=
  if String.eqb e "" || String.eqb e "." then stack
  else if String.eqb e ".." then
    match stack with
    | top :: below => if String.eqb top ".." then e :: stack else below
    | [] => if rooted then [] else [e]
    end
  else e :: stack.

Definition Clean (path : string) : PathName :=
  let rooted := HasPrefix path "/" in
  (rooted, rev (fold_left (step rooted) (of_bytes <$> split_sep (bytes path)) [])).

(** [filepath.Join(dir, file)]: empty elements are ignored, the result is
    cleaned. *)
Definition Join (dir file : string) : PathName :=
  if String.eqb dir "" then Clean file
  else if String.eqb file "" then Clean dir
  else Clean (dir ++ "/" ++ file).

(** The entry [name] of directory [dir]. *)
Definition child (dir : PathName) (name : string) : PathName := (dir.1, (dir.2 ++ [name])%list).

Definition parent (p : PathName) : PathName := (p.1, removelast p.2).

Definition Base (p : PathName) : string :=
  match last p.2 with
  | Some name => name
  | None => if p.1 then "/" else "."
  end.

(** The path as a string again. *)
Definition render (p : PathName) : string :=
  match p.2 with
  | [] => if p.1 then "/" else "."
  | _ => (if p.1 then "/" else "") ++ String.concat "/" p.2
  end.

(** [hasMeta]: the pattern contains one of the magic characters. *)
Definition isMeta (c : ascii) : bool :=
  Ascii.eqb c "*" || Ascii.eqb c "?" || Ascii.eqb c "[" || Ascii.eqb c "\".

Definition hasMeta (path : string) : bool := existsb isMeta (bytes path).

(** *** [filepath.Match] *)

Fixpoint stripStars (pattern : list ascii) : bool * list ascii :=
  match pattern with
  | c :: p' => if Ascii.eqb c "*" then (true, (stripStars p').2) else (false, pattern)
  | [] => (false, [])
  end.

(** The scan of [scanChunk] after the leading stars: the chunk up to the
    next star outside a bracket expression, and the rest. *)
Fixpoint scanUntilStar (inrange : bool) (pattern : list ascii) : list ascii * list ascii :=
  match pattern with
  | [] => ([], [])
  | c :: p' =>
      if Ascii.eqb c "\" then
        match p' with
        | c2 :: p'' =>
            let '(chunk, rest) := scanUntilStar inrange p'' in (c :: c2 :: chunk, rest)
        | [] => ([c], [])
        end
      else if Ascii.eqb c "[" then
        let '(chunk, rest) := scanUntilStar true p' in (c :: chunk, rest)
      else if Ascii.eqb c "]" then
        let '(chunk, rest) := scanUntilStar false p' in (c :: chunk, rest)
      else if Ascii.eqb c "*" && negb inrange then ([], pattern)
      else
        let '(chunk, rest) := scanUntilStar inrange p' in (c :: chunk, rest)
  end.

Definition scanChunk (pattern : list ascii) : bool * list ascii * list ascii :=
  let '(star, p) := stripStars pattern in
  let '(chunk, rest) := scanUntilStar false p in
  (star, chunk, rest).

(** [getEsc]: a possibly escaped character of a bracket expression;
    [None] is [ErrBadPattern]. *)
Definition getEsc (chunk : list ascii) : option (ascii * list ascii) :=
  match chunk with
  | [] => None
  | c :: rest =>
      if Ascii.eqb c "-" || Ascii.eqb c "]" then None
      else
        let unescaped := if Ascii.eqb c "\" then rest else chunk in
        match unescaped with
        | [] => None
        | r :: nchunk => if bool_decide (nchunk = []) then None else Some (r, nchunk)
        end
  end.

Definition ascii_le (a b : ascii) : bool := (nat_of_ascii a <=? nat_of_ascii b)%nat.

(** The ranges of a bracket expression, up to the closing bracket.
    [r] is the character read from the name ([None] once the match has
    failed), the result is whether [r] is in a range, and the chunk left. *)
Fixpoint parseRanges (fuel : nat) (chunk : list ascii) (r : option ascii)
    (nrange : nat) (matched : bool) : option (bool * list ascii) :=
  match fuel with
  | O => None
  | S fuel =>
      match chunk with
      | c :: chunk' =>
          if Ascii.eqb c "]" && negb (nrange =? 0)%nat then Some (matched, chunk')
          else parseRange fuel chunk r nrange matched
      | [] => parseRange fuel chunk r nrange matched
      end
  end
with parseRange (fuel : nat) (chunk : list ascii) (r : option ascii)
    (nrange : nat) (matched : bool) : option (bool * list ascii) :=
  match fuel with
  | O => None
  | S fuel =>
      '(lo, chunk1) ← getEsc chunk;
      '(hi, chunk2) ←
        match chunk1 with
        | c :: after => if Ascii.eqb c "-" then getEsc after else Some (lo, chunk1)
        | [] => None
        end;
      let inside :=
        match r with
        | Some x => ascii_le lo x && ascii_le x hi
        | None => false
        end in
      parseRanges fuel chunk2 r (S nrange) (matched || inside)
  end.

(** [matchChunk]: the outer [option] is [ErrBadPattern], the inner one the
    remainder of the name after a match.  After the match has failed the
    chunk is still read to the end, to report a malformed pattern.  A
    question mark and a bracket expression take one byte of the name, as
    they do on ASCII names (a character of several bytes is not covered);
    a literal byte and the star are read byte by byte in the source too. *)
Fixpoint matchChunkLoop (fuel : nat) (chunk s : list ascii) (failed : bool)
    : option (option (list ascii)) :=
  match fuel with
  | O => None
  | S fuel =>
      match chunk with
      | [] => Some (if failed then None else Some s)
      | c :: chunk' =>
          let failed := failed || bool_decide (s = []) in
          if Ascii.eqb c "[" then
            let r := if failed then None else head s in
            let s := if failed then s else tail s in
            let '(negated, chunk1) :=
              match chunk' with
              | n :: after => if Ascii.eqb n "^" then (true, after) else (false, chunk')
              | [] => (false, chunk')
              end in
            '(matched, chunk2) ← parseRanges (2 * length chunk1 + 2) chunk1 r 0 false;
            matchChunkLoop fuel chunk2 s (failed || Bool.eqb matched negated)
          else if Ascii.eqb c "?" then
            let failed' := failed || bool_decide (head s = Some Separator) in
            matchChunkLoop fuel chunk' (if failed then s else tail s) failed'
          else
            let lit := if Ascii.eqb c "\" then chunk' else chunk in
            match lit with
            | [] => None
            | x :: chunk'' =>
                let failed' := failed || negb (bool_decide (head s = Some x)) in
                matchChunkLoop fuel chunk'' (if failed then s else tail s) failed'
            end
      end
  end.

Definition matchChunk (chunk s : list ascii) : option (option (list ascii)) :=
  matchChunkLoop (S (length chunk)) chunk s false.

(** The syntax check of the remaining pattern before [Match] answers
    [false]. *)
Fixpoint checkRest (fuel : nat) (pattern : list ascii) : option bool :=
  match fuel with
  | O => Some false
  | S fuel =>
      match pattern with
      | [] => Some false
      | _ =>
          let '(_, chunk, rest) := scanChunk pattern in
          match matchChunk chunk [] with
          | None => None
          | Some _ => checkRest fuel rest
          end
      end
  end.

Fixpoint MatchLoop (fuel : nat) (pattern name : list ascii) : option bool :=
  match fuel with
  | O => Some false
  | S fuel =>
      match pattern with
      | [] => Some (bool_decide (name = []))
      | _ =>
          let '(star, chunk, rest) := scanChunk pattern in
          if star && bool_decide (chunk = []) then
            Some (negb (bool_decide (Separator ∈ name)))
          else
            let skip :=
              (fix skip (name : list ascii) : option bool :=
                 match name with
                 | [] => checkRest fuel rest
                 | c :: name' =>
                     if Ascii.eqb c Separator then checkRest fuel rest
                     else
                       match matchChunk chunk name' with
                       | None => None
                       | Some (Some t) =>
                           if bool_decide (rest = []) && negb (bool_decide (t = []))
                           then skip name'
                           else MatchLoop fuel rest t
                       | Some None => skip name'
                       end
                 end) in
            match matchChunk chunk name with
            | None => None
            | Some (Some t) =>
                if bool_decide (t = []) || negb (bool_decide (rest = []))
                then MatchLoop fuel rest t
                else if star then skip name else checkRest fuel rest
            | Some None => if star then skip name else checkRest fuel rest
            end
      end
  end.

(** [filepath.Match(pattern, name)]; [None] is [ErrBadPattern]. *)
Definition Match (pattern name : string) : option bool :=
  MatchLoop (S (length (bytes pattern))) (bytes pattern) (bytes name).

End filepath.

(** ** Package [os]: the file system *)

Module os.

(** What the file system holds for a path.  [IsDir], [Size] and [ModTime]
    are what [os.Stat] reports, [ModTime] being an instant in nanoseconds
    since the Unix epoch.  [Immutable] is the attribute under which the
    operating system refuses, with [EPERM], to open the path for writing
    and to unlink it, for a process of any user; it stands for every
    reason for which [os.Remove] fails on a path that is there.  On a
    directory it guards the directory, not its entries. *)
Record FileInfo := {
  IsDir : bool;
  Size : Z;
  ModTime : Z;
  Immutable : bool
}.

(** The store: the files and directories present, by cleaned path.  The
    root and the working directory are always present. *)
Abbreviation FS := (gmap PathName FileInfo).

Definition Stat (fs : FS) (p : PathName) : option FileInfo :=
  match p.2 with
  | [] => Some {| IsDir := true; Size := 0; ModTime := 0; Immutable := false |}
  | _ => fs !! p
  end.

Definition isDirectory (fs : FS) (p : PathName) : bool :=
  match Stat fs p with
  | Some info => IsDir info
  | None => false
  end.

(** The name under which [k] is an entry of directory [dir], if it is. *)
Definition childName (dir k : PathName) : option string :=
  match last k.2 with
  | Some name => if bool_decide (k = filepath.child dir name) then Some name else None
  | None => None
  end.

Definition name_le (a b : string * FileInfo) : Prop := String.le a.1 b.1.

#[global] Instance name_le_dec : RelDecision name_le.
Proof. intros a b. unfold name_le. apply _. Defined.

(** The entries of a directory, sorted by file name as [os.ReadDir] and
    [Readdirnames] followed by a sort return them. *)
Definition entries (fs : FS) (dir : PathName) : list (string * FileInfo) :=
  merge_sort name_le
    (omap (fun kv => (fun name => (name, kv.2)) <$> childName dir kv.1) (map_to_list fs)).

(** [os.Remove]: removes the named file or empty directory; [None] is the
    error: no such path, a path the operating system refuses to unlink, or
    a directory that is not empty. *)
Definition Remove (fs : FS) (p : PathName) : option FS :=
  match fs !! p with
  | None => None
  | Some info =>
      if Immutable info then None
      else if IsDir info && negb (bool_decide (entries fs p = [])) then None
      else Some (delete p fs)
  end.

(** [os.Create]: creates or truncates the named file; fails on a
    directory, on a file the operating system refuses to open for writing,
    and when the parent directory is missing. *)
Definition Create (fs : FS) (p : PathName) (now : Z) : option FS :=
  let file := {| IsDir := false; Size := 0; ModTime := now; Immutable := false |} in
  match Stat fs p with
  | Some info =>
      if IsDir info || Immutable info then None else Some (<[p := file]> fs)
  | None => if isDirectory fs (filepath.parent p) then Some (<[p := file]> fs) else None
  end.

(** Bytes written through an open file: they reach the named file as long
    as the name has not been removed.  The store takes every write: a full
    disk or a failing device is not part of it. *)
Definition Write (fs : FS) (p : PathName) (n : Z) (now : Z) : FS :=
  match fs !! p with
  | Some info =>
      <[p := {| IsDir := IsDir info; Size := Size info + n; ModTime := now;
                Immutable := Immutable info |}]> fs
  | None => fs
  end.

Fixpoint mkdirs (fs : FS) (rooted : bool) (made todo : list string) (now : Z)
    : option FS :=
  match todo with
  | [] => Some fs
  | e :: todo' =>
      let p := (rooted, (made ++ [e])%list) in
      match fs !! p with
      | Some info =>
          if IsDir info then mkdirs fs rooted (made ++ [e])%list todo' now else None
      | None =>
          mkdirs (<[p := {| IsDir := true; Size := 0; ModTime := now;
                            Immutable := false |}]> fs)
            rooted (made ++ [e])%list todo' now
      end
  end.

(** [os.MkdirAll]: creates the directory and the missing parents; fails
    when an element of the path is a file, and on the empty path. *)
Definition MkdirAll (fs : FS) (path : string) (now : Z) : option FS :=
  if String.eqb path "" then None
  else let p := filepath.Clean path in mkdirs fs p.1 [] p.2 now.

(** An entry of [os.ReadDir], with what its [Info] method returns. *)
Record DirEntry := {
  Name : string;
  EntryIsDir : bool;
  Info : FileInfo
}.

Definition ReadDir (fs : FS) (name : string) : option (list DirEntry) :=
  if String.eqb name "" then None
  else
    let dir := filepath.Clean name in
    if isDirectory fs dir
    then Some ((fun e => {| Name := e.1; EntryIsDir := IsDir e.2; Info := e.2 |})
                 <$> entries fs dir)
    else None.

End os.

(** *** [filepath.Glob] *)

Module glob.

(** The directory scan of [Glob]: the entries of [dir] whose name matches
    [pattern], in name order; nothing when [dir] is not a directory. *)
Definition glob (fs : os.FS) (dir : PathName) (pattern : string) : option (list PathName) :=
  if os.isDirectory fs dir then
    foldr (fun e acc =>
             m ← filepath.Match pattern e.1;
             rest ← acc;
             Some (if (m : bool) then filepath.child dir e.1 :: rest else rest))
          (Some []) (os.entries fs dir)
  else Some [].

Definition hasMetaElems (elems : list string) : bool := existsb filepath.hasMeta elems.

(** [Glob] on a pattern given by its elements, last first: a pattern
    without magic characters names at most one path; otherwise the
    directory part is expanded first when it has magic characters, and each
    directory found is scanned for the last element. *)
Fixpoint globRev (fs : os.FS) (rooted : bool) (rpattern : list string)
    : option (list PathName) :=
  match rpattern with
  | [] => Some [(rooted, [])]
  | file :: rdir =>
      if negb (hasMetaElems rpattern) then
        Some (if bool_decide (is_Some (os.Stat fs (rooted, rev rpattern)))
              then [(rooted, rev rpattern)] else [])
      else
        dirs ← (if negb (hasMetaElems rdir) then Some [(rooted, rev rdir)]
                 else globRev fs rooted rdir);
        found ← mapM (fun d => glob fs d file) dirs;
        Some (concat found)
  end.

(** [filepath.Glob(pattern)]; [None] is [ErrBadPattern], returned exactly
    when an element of the pattern is malformed. *)
Definition Glob (fs : os.FS) (pattern : PathName) : option (list PathName) :=
  if forallb (fun e => bool_decide (is_Some (filepath.Match e ""))) pattern.2
  then globRev fs pattern.1 (rev pattern.2)
  else None.

End glob.

(** ** Packages [crypto/sha256] and [encoding/hex] *)

Module sha256.

Definition w32 (x : Z) : Z := x mod 2 ^ 32.
Definition add32 (x y : Z) : Z := w32 (x + y).
Definition rotr (n x : Z) : Z := Z.lor (Z.shiftr x n) (w32 (Z.shiftl x (32 - n))).
Definition not32 (x : Z) : Z := 2 ^ 32 - 1 - x.

(** The round constants and the initial hash value of FIPS 180-4, in decimal. *)
Definition K : list Z :=
  [
   1116352408; 1899447441; 3049323471; 3921009573; 961987163; 1508970993;
   2453635748; 2870763221; 3624381080; 310598401; 607225278; 1426881987;
   1925078388; 2162078206; 2614888103; 3248222580; 3835390401; 4022224774;
   264347078; 604807628; 770255983; 1249150122; 1555081692; 1996064986;
   2554220882; 2821834349; 2952996808; 3210313671; 3336571891; 3584528711;
   113926993; 338241895; 666307205; 773529912; 1294757372; 1396182291;
   1695183700; 1986661051; 2177026350; 2456956037; 2730485921; 2820302411;
   3259730800; 3345764771; 3516065817; 3600352804; 4094571909; 275423344;
   430227734; 506948616; 659060556; 883997877; 958139571; 1322822218;
   1537002063; 1747873779; 1955562222; 2024104815; 2227730452; 2361852424;
   2428436474; 2756734187; 3204031479; 3329325298 ].

Definition H0 : list Z :=
  [
   1779033703; 3144134277; 1013904242; 2773480762; 1359893119; 2600822924;
   528734635; 1541459225 ].

(** Big-endian bytes of a [width]-byte number. *)
Fixpoint be_bytes (width : nat) (x : Z) : list Z :=
  match width with
  | O => []
  | S w => (Z.shiftr x (8 * Z.of_nat w)) mod 256 :: be_bytes w x
  end.

Definition be_word (b : list Z) : Z := fold_left (fun acc x => acc * 256 + x) b 0.

(** The message followed by the bit 1, zeros up to 56 modulo 64 bytes, and
    the length in bits on 8 bytes. *)
Definition pad (msg : list Z) : list Z :=
  let len := Z.of_nat (length msg) in
  let zeros := Z.to_nat ((55 - len) mod 64) in
  (msg ++ [128] ++ repeat 0 zeros ++ be_bytes 8 (8 * len))%list.

Fixpoint chunks (fuel : nat) (size : nat) (l : list Z) : list (list Z) :=
  match fuel with
  | O => []
  | S fuel =>
      match l with
      | [] => []
      | _ => take size l :: chunks fuel size (drop size l)
      end
  end.

Definition sigma0 (x : Z) : Z := Z.lxor (Z.lxor (rotr 7 x) (rotr 18 x)) (Z.shiftr x 3).
Definition sigma1 (x : Z) : Z := Z.lxor (Z.lxor (rotr 17 x) (rotr 19 x)) (Z.shiftr x 10).
Definition Sigma0 (x : Z) : Z := Z.lxor (Z.lxor (rotr 2 x) (rotr 13 x)) (rotr 22 x).
Definition Sigma1 (x : Z) : Z := Z.lxor (Z.lxor (rotr 6 x) (rotr 11 x)) (rotr 25 x).
Definition Ch (e f g : Z) : Z := Z.lxor (Z.land e f) (Z.land (not32 e) g).
Definition Maj (a b c : Z) : Z := Z.lxor (Z.lxor (Z.land a b) (Z.land a c)) (Z.land b c).

(** The message schedule: [w] holds the words computed so far, last first. *)
Fixpoint schedule (n : nat) (w : list Z) : list Z :=
  match n with
  | O => w
  | S n =>
      let at_ i := nth i w 0 in
      schedule n (add32 (add32 (at_ 15%nat) (sigma0 (at_ 14%nat)))
                        (add32 (at_ 6%nat) (sigma1 (at_ 1%nat))) :: w)
  end.

Definition round (s : list Z) (kw : Z * Z) : list Z :=
  match s with
  | [a; b; c; d; e; f; g; h] =>
      let t1 := add32 (add32 (add32 h (Sigma1 e)) (add32 (Ch e f g) kw.1)) kw.2 in
      let t2 := add32 (Sigma0 a) (Maj a b c) in
      [add32 t1 t2; a; b; c; add32 d t1; e; f; g]
  | _ => s
  end.

Definition block (h : list Z) (blk : list Z) : list Z :=
  let w16 := be_word <$> chunks 16 4 blk in
  let w := rev (schedule 48 (rev w16)) in
  let s := fold_left round (zip K w) h in
  zip_with add32 h s.

(** [sha256.Sum256] on the bytes of a string: the 32 bytes of the digest. *)
Definition Sum256 (data : string) : list Z :=
  let msg := (fun c => Z.of_nat (nat_of_ascii c)) <$> bytes data in
  let blocks := chunks (length msg + 72) 64 (pad msg) in
  concat (be_bytes 4 <$> fold_left block blocks H0).

Definition hexdigit (x : Z) : ascii :=
  ascii_of_nat (Z.to_nat (if x <? 10 then 48 + x else 87 + x)).

(** [hex.EncodeToString]. *)
Definition EncodeToString (b : list Z) : string :=
  of_bytes (concat ((fun x => [hexdigit (x / 16); hexdigit (x mod 16)]) <$> b)).

End sha256.

(** ** Package [utils] *)

Module utils.

Definition IsFileBackup (name : string) : bool :=
  if negb (HasSuffix name ".age") && negb (HasSuffix name ".gz") then false
  else true.

(** [time.Time.Unix]: the seconds since the epoch of an instant given in
    nanoseconds (rounded down). *)
Definition Unix (t : Z) : Z := t / 1000000000.

(** The bytes [GenerateShortID] hashes: [fmt.Sprintf("%s-%d", name, modTime.Unix())]. *)
Definition shortIDData (name : string) (modTime : Z) : string :=
  name ++ "-" ++ itoa (Unix modTime).

Definition GenerateShortID (name : string) (modTime : Z) : string :=
  let data := shortIDData name modTime in
  let h := sha256.Sum256 data in
  sha256.EncodeToString (take 4 h).

End utils.

(** ** Package [catalog] *)

Module catalog.

Record BackupFile := {
  ShortID : string;
  Name : string;
  Size : Z;
  ModTime : string;
  Encrypted : bool
}.

Section listing.

(** [utils.FormatTime]: the instant in the configured layout and location. *)
Variable FormatTime : Z -> string.

(** The body of the loop of [listLocal] for one entry: [None] when the
    entry is skipped. *)
Definition localEntry (entry : os.DirEntry) : option BackupFile :=
  if os.EntryIsDir entry then None
  else
    let name := os.Name entry in
    if negb (utils.IsFileBackup name) then None
    else
      let info := os.Info entry in
      let modTime := os.ModTime info in
      Some {| ShortID := utils.GenerateShortID (os.Name entry) modTime;
              Name := os.Name entry;
              Size := os.Size info;
              ModTime := FormatTime modTime;
              Encrypted := HasSuffix (os.Name entry) ".age" |}.

(** [listLocal]; [None] is the error of [os.ReadDir]. *)
Definition listLocal (fs : os.FS) (backupDir : string) : option (list BackupFile) :=
  match os.ReadDir fs backupDir with
  | None => None
  | Some entries => Some (omap localEntry entries)
  end.

End listing.

(** The earlier revision of the catalog kept in the repository derives the
    short identifier from the name alone. *)
Definition generateShortID_legacy (name : string) : string :=
  let h := sha256.Sum256 (name ++ "pgopher-salt") in
  sha256.EncodeToString (take 4 h).

(** The fields its [listLocal] fills for an entry it keeps. *)
Record BackupFile_legacy := {
  ShortID_legacy : string;
  Name_legacy : string;
  Size_legacy : Z;
  ModTime_legacy : Z;
  Encrypted_legacy : bool
}.

Definition localEntry_legacy (entry : os.DirEntry) : option BackupFile_legacy :=
  if os.EntryIsDir entry then None
  else
    let name := os.Name entry in
    if negb (utils.IsFileBackup name) then None
    else
      let info := os.Info entry in
      Some {| ShortID_legacy := generateShortID_legacy (os.Name entry);
              Name_legacy := os.Name entry;
              Size_legacy := os.Size info;
              ModTime_legacy := os.ModTime info;
              Encrypted_legacy := HasSuffix (os.Name entry) ".age" |}.

End catalog.

(** ** Package [flock] (gofrs) and package [lock] *)

Module flock.

(** The advisory lock on the lock file, seen from one [Flock] value:
    [l] says that this value holds the lock, [heldElsewhere] that another
    descriptor (the restore command of another process) holds it, and
    [openable] that the lock file can be opened or created. *)
Record Flock := {
  l : bool;
  heldElsewhere : bool;
  openable : bool
}.

(** [TryLock]: returns [(locked, failed)], never waits. *)
Definition TryLock (f : Flock) : bool * bool * Flock :=
  if l f then (true, false, f)
  else if negb (openable f) then (false, true, f)
  else if heldElsewhere f then (false, false, f)
  else (true, false, {| l := true; heldElsewhere := false; openable := openable f |}).

(** [Unlock]: a no-op when this value does not hold the lock. *)
Definition Unlock (f : Flock) : Flock :=
  if l f then {| l := false; heldElsewhere := heldElsewhere f; openable := openable f |}
  else f.

(** Whether anybody holds the lock. *)
Definition held (f : Flock) : bool := l f || heldElsewhere f.

End flock.

Module lock.

Definition IsRestoreRunning (f : flock.Flock) : bool * flock.Flock :=
  let '(locked, err, f1) := flock.TryLock f in
  if err || negb locked then (true, f1)
  else
    let f2 := flock.Unlock f1 in
    (false, f2).

Definition UnlockForRestore (f : flock.Flock) : flock.Flock := flock.Unlock f.

End lock.

(** ** Package [retention] *)

(** The outcome of a call that may panic. *)
Inductive result (A : Type) :=
| Returned (a : A)
| Panicked.
Arguments Returned {A} a.
Arguments Panicked {A}.

Module retention.

Record BackupFile := {
  Path : PathName;
  ModTime : Z;
  Size : Z
}.

Abbreviation BackupFiles := (list BackupFile).

Record Options := {
  Retention : config.RetentionConfig;
  OutputDir : string;
  DatabaseName : string
}.

Definition HasRetention (o : Options) : bool :=
  config.HasMaxBackups (Retention o) || config.HasRetentionDays (Retention o).
Definition HasMaxBackups (o : Options) : bool := config.HasMaxBackups (Retention o).
Definition HasRetentionDays (o : Options) : bool := config.HasRetentionDays (Retention o).

(** [time.Time.Before]. *)
Definition Before (t u : Z) : bool := t <? u.

(** [BackupFiles.Less] on two elements. *)
Definition Less (a b : BackupFile) : bool := Before (ModTime a) (ModTime b).

Definition Len (b : BackupFiles) : Z := Z.of_nat (length b).

Definition TotalSize (b : BackupFiles) : Z := foldr (fun x acc => Size x + acc) 0 b.

(** What the run takes from the Go library: [sort.Sort] on [BackupFiles]
    (not a stable sort) and [AddDays t days], which is
    [t.AddDate(0, 0, days)] in the location of the process. *)
Class Runtime := {
  sort_Sort : BackupFiles -> BackupFiles;
  AddDays : Z -> Z -> Z
}.

Inductive Error :=
| ErrFindBackups.

(** Negation on [int], with its wrap-around at the least value. *)
Definition neg64 (n : Z) : Z := (- n + 2 ^ 63) mod 2 ^ 64 - 2 ^ 63.

Section engine.

Context {rt : Runtime}.

(** The pattern [findBackups] hands to [filepath.Glob]. *)
Definition pattern (o : Options) : PathName :=
  filepath.Join (OutputDir o) (DatabaseName o ++ "-*.sql.gz*").

(** The loop of [findBackups]: a path that cannot be examined is skipped. *)
Definition statAll (fs : os.FS) (matches : list PathName) : BackupFiles :=
  omap (fun path =>
          match os.Stat fs path with
          | None => None
          | Some info =>
              Some {| Path := path; ModTime := os.ModTime info; Size := os.Size info |}
          end)
       matches.

Definition findBackups (o : Options) (fs : os.FS) : option BackupFiles :=
  match glob.Glob fs (pattern o) with
  | None => None
  | Some matches => Some (sort_Sort (statAll fs matches))
  end.

(** The deletion loop shared by the two policies: a deletion that fails is
    logged and skipped. *)
Fixpoint removeEach (fs : os.FS) (toRemove removed : BackupFiles) : BackupFiles * os.FS :=
  match toRemove with
  | [] => (removed, fs)
  | backup :: rest =>
      match os.Remove fs (Path backup) with
      | None => removeEach fs rest removed
      | Some fs' => removeEach fs' rest (removed ++ [backup])%list
      end
  end.

(** [cleanByCount].  The slice expression [backups[:len(backups)-maxBackups]]
    panics when its bound exceeds the capacity; the lists of the model have
    no spare capacity. *)
Definition cleanByCount (fs : os.FS) (backups : BackupFiles) (maxBackups : Z)
    : result (BackupFiles * os.FS) :=
  if Len backups <? maxBackups then Returned ([], fs)
  else
    let bound := Len backups - maxBackups in
    if (bound <? 0) || (Len backups <? bound) then Panicked
    else
      let toRemove := take (Z.to_nat bound) backups in
      Returned (removeEach fs toRemove []).

Definition cutoff (now retentionDays : Z) : Z := AddDays now (neg64 retentionDays).

Definition cleanByDays (now : Z) (fs : os.FS) (backups : BackupFiles) (retentionDays : Z)
    : BackupFiles * os.FS :=
  let cutoff := cutoff now retentionDays in
  let retentionsDays := List.filter (fun backup => Before (ModTime backup) cutoff) backups in
  if Len retentionsDays <=? 0 then ([], fs)
  else removeEach fs retentionsDays [].

(** [Run]: the error returned, the backups removed (which the source
    reports in its log) and the file system left. *)
Definition Run (o : Options) (now : Z) (fs : os.FS)
    : result (option Error * BackupFiles * os.FS) :=
  if negb (HasRetention o) then Returned (None, [], fs)
  else
    match findBackups o fs with
    | None => Returned (Some ErrFindBackups, [], fs)
    | Some backups =>
        if Len backups =? 0 then Returned (None, [], fs)
        else
          match config.MaxBackups (Retention o), config.RetentionDays (Retention o) with
          | Some maxBackups, _ =>
              match cleanByCount fs backups maxBackups with
              | Returned (backupRemoved, fs') => Returned (None, backupRemoved, fs')
              | Panicked => Panicked
              end
          | None, Some retentionDays =>
              let '(backupRemoved, fs') := cleanByDays now fs backups retentionDays in
              Returned (None, backupRemoved, fs')
          | None, None => Returned (None, [], fs)
          end
    end.

End engine.

End retention.

(** ** Package [backup] *)

Module backup.

(** [GenerateFileName] is a [func() string] that may read the clock: a
    function of the instant at which it is called. *)
Record Options := {
  GenerateFileName : Z -> string;
  OutputDir : string;
  Retention : config.RetentionConfig;
  Database : config.DatabaseConfig;
  EncryptionKey : string
}.

Definition HasRetention (o : Options) : bool :=
  config.HasMaxBackups (Retention o) || config.HasRetentionDays (Retention o).

Definition IsEncryptEnabled (o : Options) : bool :=
  negb (String.eqb (EncryptionKey o) "").

(** The name [WithConfig] generates; [stamp] is
    [time.Now().Format("20060102-150405")]. *)
Definition timestampedName (stamp : Z -> string) (databaseName : string) (now : Z) : string :=
  databaseName ++ "-" ++ stamp now ++ ".sql.gz".

(** [WithConfig]. *)
Definition WithConfig (stamp : Z -> string) (cfg : config.Config) : Options :=
  {| GenerateFileName := timestampedName stamp (config.Name (config.Database cfg));
     OutputDir := config.Dir (config.LocalBackup cfg);
     Retention := config.Retention (config.LocalBackup cfg);
     Database := config.Database cfg;
     EncryptionKey := config.EncryptionKey cfg |}.

(** What the external collaborators do during one run: whether
    [age.Encrypt] succeeds, whether the stderr pipe and the [pg_dump]
    process can be started, whether the process exits with status zero
    before the deadline, the bytes it writes on its standard output and
    the time it takes. *)
Record Dump := {
  age_ok : bool;
  pipe_ok : bool;
  start_ok : bool;
  exit_ok : bool;
  stdout : list ascii;
  elapsed : Z
}.

(** The sizes of what the writers put around the data: the header name of
    [compress/gzip] ([None] when the name is not a Latin-1 string, an error
    of the writer), the deflate stream, the header of [age] and what its
    payload adds to a plain text of a given length (the tag of each chunk). *)
Class Codec := {
  gzip_name_len : string -> option nat;
  deflate_len : list ascii -> nat;
  age_header_len : nat;
  age_overhead : nat -> nat
}.

Inductive DumpError :=
| ErrCreate
| ErrEncryptor
| ErrAgeWriter
| ErrStderrPipe
| ErrStart
| ErrWait.

Inductive Error :=
| ErrMkdirAll
| ErrPgDump (cause : DumpError)
| ErrStat
| ErrEmptyFile.

Inductive Ret :=
| Ok (file : PathName)
| Fail (err : Error).

Record Outcome := {
  ret : Ret;
  files : os.FS;
  dumpStarted : bool;
  pruned : retention.BackupFiles
}.

Section producer.

Context {codec : Codec} {rt : retention.Runtime}.

(** The bytes a [gzip.Writer] named [name] emits from its first write to
    the end of [Close] when it is given [data], and whether one of its
    writes fails.  The ten bytes of the fixed header are written first;
    then the name, the deflate stream and the eight bytes of the trailer. *)
Definition gzipBytes (name : string) (data : list ascii) : nat * bool :=
  match gzip_name_len name with
  | Some k => ((10 + k + deflate_len data + 8)%nat, false)
  | None => (10%nat, true)
  end.

(** The deferred [Close] calls, in their order: the compressor, the
    encryption layer if any, the file. *)
Definition closeWriters (o : Options) (fs : os.FS) (outputPath : PathName)
    (data : list ascii) (now : Z) : os.FS :=
  let n := (gzipBytes (filepath.Base outputPath) data).1 in
  let flushed := if IsEncryptEnabled o then (n + age_overhead n)%nat else n in
  os.Write fs outputPath (Z.of_nat flushed) now.

(** The writer chain of [executePgDump] above the file: the encryption
    layer when a key is set, whose creation writes its header. *)
Definition openWriters (o : Options) (x : Dump) (now : Z) (fs : os.FS)
    (outputPath : PathName) : DumpError + os.FS :=
  if IsEncryptEnabled o then
    if String.eqb (EncryptionKey o) "" then inl ErrEncryptor
    else if negb (age_ok x) then inl ErrAgeWriter
    else inr (os.Write fs outputPath (Z.of_nat age_header_len) now)
  else inr fs.

(** The rest of [executePgDump]: the process is started on the
    compressor and waited for; when it fails, or a write of its output
    does, the file is removed before the deferred [Close] calls run. *)
Definition dumpInto (o : Options) (x : Dump) (now : Z) (fs : os.FS)
    (outputPath : PathName) : option DumpError * os.FS * bool :=
  if negb (pipe_ok x) then
    (Some ErrStderrPipe, closeWriters o fs outputPath [] now, false)
  else if negb (start_ok x) then
    (Some ErrStart, closeWriters o fs outputPath [] now, false)
  else
    let later := now + elapsed x in
    let writeFailed :=
      (gzipBytes (filepath.Base outputPath) (stdout x)).2
      && negb (bool_decide (stdout x = [])) in
    if negb (exit_ok x) || writeFailed then
      let fs' := default fs (os.Remove fs outputPath) in
      (Some ErrWait, closeWriters o fs' outputPath (stdout x) later, true)
    else
      (None, closeWriters o fs outputPath (stdout x) later, true).

(** [executePgDump]: the error, the file system left, and whether the
    process was started. *)
Definition executePgDump (o : Options) (x : Dump) (now : Z) (fs : os.FS)
    (outputPath : PathName) : option DumpError * os.FS * bool :=
  match os.Create fs outputPath now with
  | None => (Some ErrCreate, fs, false)
  | Some fs1 =>
      match openWriters o x now fs1 outputPath with
      | inl err => (Some err, fs1, false)
      | inr fs2 => dumpInto o x now fs2 outputPath
      end
  end.

(** [createRetention]. *)
Definition createRetention (o : Options) : retention.Options :=
  {| retention.Retention := Retention o;
     retention.OutputDir := OutputDir o;
     retention.DatabaseName := config.Name (Database o) |}.

(** The file [Run] writes: the generated name, with [.age] appended when an
    encryption key is set, in the output directory. *)
Definition outputFile (o : Options) (now : Z) : PathName :=
  let filename := GenerateFileName o now in
  let filename := if IsEncryptEnabled o then filename ++ ".age" else filename in
  filepath.Join (OutputDir o) filename.

Definition Run (o : Options) (x : Dump) (now : Z) (fs : os.FS) : result Outcome :=
  match os.MkdirAll fs (OutputDir o) now with
  | None =>
      Returned {| ret := Fail ErrMkdirAll; files := fs; dumpStarted := false; pruned := [] |}
  | Some fs1 =>
      let f := outputFile o now in
      match executePgDump o x now fs1 f with
      | (Some err, fs2, started) =>
          Returned {| ret := Fail (ErrPgDump err); files := fs2;
                      dumpStarted := started; pruned := [] |}
      | (None, fs2, started) =>
          match os.Stat fs2 f with
          | None =>
              Returned {| ret := Fail ErrStat; files := fs2;
                          dumpStarted := started; pruned := [] |}
          | Some fileInfo =>
              if os.Size fileInfo =? 0 then
                Returned {| ret := Fail ErrEmptyFile;
                            files := default fs2 (os.Remove fs2 f);
                            dumpStarted := started; pruned := [] |}
              else if HasRetention o then
                match retention.Run (createRetention o) (now + elapsed x) fs2 with
                | Returned (_, removed, fs3) =>
                    Returned {| ret := Ok f; files := fs3;
                                dumpStarted := started; pruned := removed |}
                | Panicked => Panicked
                end
              else
                Returned {| ret := Ok f; files := fs2;
                            dumpStarted := started; pruned := [] |}
          end
      end
  end.

End producer.

End backup.

(** ** Package [scheduler] *)

Module scheduler.

(** What a fire does, in the order of its own statements: a write of the
    running-job counter, the start of a dump process, a [go] statement that
    starts the goroutine in which the notifier is called.  The call of the
    notifier itself runs in that goroutine and is not ordered with the
    statements of the fire that follow the [go] statement. *)
Inductive Event :=
| CounterSet (n : Z)
| DumpStarted
| GoNotifyError (err : backup.Error)
| GoNotifySuccess (backupFile : PathName).

Record Scheduler := {
  backupSvc : backup.Options;
  runningJobs : Z;
  locker : flock.Flock;
  files : os.FS;
  trace : list Event
}.

Definition GetRunningJobs (s : Scheduler) : Z := runningJobs s.

Section fire.

Context {codec : backup.Codec} {rt : retention.Runtime}.

(** [runLocalBackup].  The deferred decrement of the counter runs when the
    function returns, after the [go] statement. *)
Definition runLocalBackup (s : Scheduler) (x : backup.Dump) (now : Z) : result Scheduler :=
  let '(running, lk) := lock.IsRestoreRunning (locker s) in
  if running then
    Returned {| backupSvc := backupSvc s; runningJobs := runningJobs s;
                locker := lk; files := files s; trace := trace s |}
  else
    let n := runningJobs s + 1 in
    match backup.Run (backupSvc s) x now (files s) with
    | Panicked => Panicked
    | Returned out =>
        let started := if backup.dumpStarted out then [DumpStarted] else [] in
        let notified :=
          match backup.ret out with
          | backup.Fail err => GoNotifyError err
          | backup.Ok backupFile => GoNotifySuccess backupFile
          end in
        Returned {| backupSvc := backupSvc s;
                    runningJobs := n - 1;
                    locker := lk;
                    files := backup.files out;
                    trace := (trace s ++ [CounterSet n] ++ started
                                ++ [notified; CounterSet (n - 1)])%list |}
    end.

End fire.

End scheduler.

(** ** Package [cmd]: from the configuration to the first backup *)

Module cmd.

Section daemon.

Context {codec : backup.Codec} {rt : retention.Runtime}.

Variables validateDatabase validateTimezone validateRemoteProviders
  validateNotification : config.Config -> bool.

(** [stamp] is the layout of the generated names. *)
Variable stamp : Z -> string.

(** [loadConfigOrFail] once the file or the environment has been read into
    [cfg]: the loaders end with [return cfg, cfg.Validate()]. *)
Definition loadConfigOrFail (cfg : config.Config) : config.ConfigError + config.Config :=
  match config.Validate validateDatabase validateTimezone validateRemoteProviders
          validateNotification cfg with
  | Some err => inl err
  | None => inr cfg
  end.

(** The steps of [runDaemon] up to the initial backup: a configuration
    that does not load ends the process; otherwise the backup service is
    built from it and, when asked for and no restore is running, run once. *)
Definition runDaemon (cfg : config.Config) (lockMgr : flock.Flock) (x : backup.Dump)
    (now : Z) (fs : os.FS) : config.ConfigError + result os.FS :=
  match loadConfigOrFail cfg with
  | inl err => inl err
  | inr cfg =>
      let backupService := backup.WithConfig stamp cfg in
      if config.RunOnStartup cfg then
        if (lock.IsRestoreRunning lockMgr).1 then inr (Returned fs)
        else
          match backup.Run backupService x now fs with
          | Returned out => inr (Returned (backup.files out))
          | Panicked => inr Panicked
          end
      else inr (Returned fs)
  end.

End daemon.

End cmd.

(** ** The waiting side of the restore lock *)

Module FileLock.

(** [LockForRestore]: one attempt per second until the lock is taken or an
    attempt fails.  [later] says, for each second slept, whether another
    descriptor holds the lock when the next attempt is made.  The result
    is whether an error is returned, the lock, and the number of seconds
    slept; [None] when the call is still waiting after the seconds
    described. *)
Fixpoint LockForRestore (f : flock.Flock) (later : list bool) {struct later}
    : option (bool * flock.Flock * nat) :=
  let '(locked, err, f1) := flock.TryLock f in
  if err then Some (true, f1, 0%nat)
  else if locked then Some (false, f1, 0%nat)
  else
    match later with
    | [] => None
    | held :: later' =>
        let f2 := {| flock.l := flock.l f1; flock.heldElsewhere := held;
                     flock.openable := flock.openable f1 |} in
        match LockForRestore f2 later' with
        | Some (failed, f', slept) => Some (failed, f', S slept)
        | None => None
        end
    end.

End FileLock.

(** ** The environment of a remote provider *)

Module RemoteEnv.

(** The environment of the process, by variable name. *)
Abbreviation Env := (gmap string string).

Definition NUL : ascii := Ascii.zero.

(** [os.Setenv]: [None] is the error [EINVAL], returned for an empty name,
    a name holding [=] or a NUL byte, and a value holding a NUL byte. *)
Definition Setenv (env : Env) (key value : string) : option Env :=
  if String.eqb key ""
     || existsb (fun c => Ascii.eqb c "=" || Ascii.eqb c NUL) (bytes key)
     || existsb (fun c => Ascii.eqb c NUL) (bytes value)
  then None
  else Some (<[key := value]> env).

(** [os.Unsetenv]. *)
Definition Unsetenv (env : Env) (key : string) : Env := delete key env.

Inductive SetupError :=
| ErrSetType
| ErrSet (envKey : string).

Section provider.

(** [strings.ToUpper]. *)
Variable ToUpper : string -> string.

Definition EnvPrefix (o : remote.Options) : string :=
  "RCLONE_CONFIG_" ++ ToUpper (remote.Name o) ++ "_".

(** [CleanupEnv]; [keys] are the keys of [o.Config] in the order in which
    the [range] statement yields them. *)
Definition CleanupEnv (o : remote.Options) (keys : list string) (env : Env) : Env :=
  let envPrefix := EnvPrefix o in
  fold_left (fun env k => Unsetenv env (envPrefix ++ ToUpper k)) keys
    (Unsetenv env (envPrefix ++ "TYPE")).

(** The loop of [SetupEnv] over the entries of [o.Config]. *)
Fixpoint setEach (o : remote.Options) (entries : list (string * string))
    (keys : list string) (env : Env) : option SetupError * Env :=
  match entries with
  | [] => (None, env)
  | (k, v) :: rest =>
      let envKey := EnvPrefix o ++ ToUpper k in
      match Setenv env envKey v with
      | None => (Some (ErrSet envKey), CleanupEnv o keys env)
      | Some env' => setEach o rest keys env'
      end
  end.

(** [SetupEnv]; [entries] is [o.Config] in the order of the loop of
    [SetupEnv], [keys] its keys in the order of the loop of [CleanupEnv]. *)
Definition SetupEnv (o : remote.Options) (entries : list (string * string))
    (keys : list string) (env : Env) : option SetupError * Env :=
  match Setenv env (EnvPrefix o ++ "TYPE") (remote.Type_ o) with
  | None => (Some ErrSetType, CleanupEnv o keys env)
  | Some env' => setEach o entries keys env'
  end.

(** The variables of the provider. *)
Definition variables (o : remote.Options) (keys : list string) : list string :=
  (EnvPrefix o ++ "TYPE") :: ((fun k => EnvPrefix o ++ ToUpper k) <$> keys).

End provider.

End RemoteEnv.

(** ** Package [utils]: sizes for the log *)

Module format.

Definition unit_ : Z := 1024.

(** Arithmetic on [int64] wraps around. *)
Definition wrap64 (z : Z) : Z := (z + 2 ^ 63) mod 2 ^ 64 - 2 ^ 63.

(** The loop of [FormatBytes],
    [for n := bytes / unit; n >= unit; n /= unit { div *= unit; exp++ }],
    from one test of its condition on; [None] when [fuel] tests were not
    enough to leave it.  The values of [n] are not negative, for which the
    division of Go and [Z.div] agree. *)
Fixpoint scale (fuel : nat) (n div exp : Z) : option (Z * Z) :=
  match fuel with
  | O => None
  | S fuel =>
      if unit_ <=? n then scale fuel (n / unit_) (wrap64 (div * unit_)) (exp + 1)
      else Some (div, exp)
  end.

Section layout.

(** [fmt.Sprintf("%.1f", float64(bytes)/float64(div))]. *)
Variable quotient : Z -> Z -> string.

(** [FormatBytes]; the inner result is the string returned, or the panic
    of an index out of range in ["KMGTPE"[exp]]; [None] when the loop has
    not ended within the tests allowed, one more than the value of
    [bytes / unit]. *)
Definition FormatBytes (bytes_ : Z) : option (result string) :=
  if bytes_ <? unit_ then Some (Returned (itoa bytes_ ++ " B"))
  else
    match scale (S (Z.to_nat (bytes_ / unit_))) (bytes_ / unit_) unit_ 0 with
    | None => None
    | Some (div, exp) =>
        if exp <? 0 then Some Panicked
        else
          match bytes "KMGTPE" !! Z.to_nat exp with
          | None => Some Panicked
          | Some c => Some (Returned (quotient bytes_ div ++ " " ++ String c "iB"))
          end
    end.

End layout.

End format.

(** ** Concrete collaborators and stores for the examples *)

Module scenario.

Definition file (size modTime : Z) : os.FileInfo :=
  {| os.IsDir := false; os.Size := size; os.ModTime := modTime; os.Immutable := false |}.

Definition dir (modTime : Z) : os.FileInfo :=
  {| os.IsDir := true; os.Size := 0; os.ModTime := modTime; os.Immutable := false |}.

(** A file the operating system refuses to unlink. *)
Definition immutable (size modTime : Z) : os.FileInfo :=
  {| os.IsDir := false; os.Size := size; os.ModTime := modTime; os.Immutable := true |}.

Definition second : Z := 1000000000.
Definition day : Z := 86400 * second.

Definition older_eq (a b : retention.BackupFile) : Prop :=
  retention.ModTime a <= retention.ModTime b.

#[global] Instance older_eq_dec : RelDecision older_eq.
Proof. intros a b. unfold older_eq. apply _. Defined.

(** A process in the UTC location, with a merge sort for [sort.Sort]. *)
Definition utc : retention.Runtime :=
  {| retention.sort_Sort := merge_sort older_eq;
     retention.AddDays := fun t days => t + days * day |}.

(** Writers for ASCII names: a stored deflate block, and an encryption
    layer with a 200-byte header and a 16-byte tag per 64 KiB chunk. *)
Definition codec : backup.Codec :=
  {| backup.gzip_name_len := fun name => Some (S (length (bytes name)));
     backup.deflate_len := fun data => (length data + 5)%nat;
     backup.age_header_len := 200%nat;
     backup.age_overhead := fun n => (16 * S (n / 2 ^ 16))%nat |}.

Definition formatTime (t : Z) : string := itoa t.

(** A directory with a backup, an encrypted backup, an archive that is not
    a backup, a text file and a subdirectory. *)
Definition listed : os.FS :=
  list_to_map
    [ ((true, ["backups"]), dir 0);
      ((true, ["backups"; "app-20240101-020000.sql.gz"]), file 100 (10 * second));
      ((true, ["backups"; "app-20240102-020000.sql.gz.age"]), file 120 (20 * second));
      ((true, ["backups"; "photos.tar.gz"]), file 7 (30 * second));
      ((true, ["backups"; "notes.txt"]), file 3 (40 * second));
      ((true, ["backups"; "old.gz"]), dir (50 * second)) ].

(** A producer for database [app] writing to [/backups], without
    encryption, with the given retention. *)
Definition database : config.DatabaseConfig :=
  {| config.Host := "localhost"; config.Port := 5432; config.Username := "postgres";
     config.Password := "secret"; config.Name := "app" |}.

Definition producer (r : config.RetentionConfig) : backup.Options :=
  {| backup.GenerateFileName := backup.timestampedName itoa "app";
     backup.OutputDir := "/backups";
     backup.Retention := r;
     backup.Database := database;
     backup.EncryptionKey := "" |}.

Definition noRetention : config.RetentionConfig :=
  {| config.RetentionDays := None; config.MaxBackups := None |}.

(** A dump that exits with status zero after writing [data]. *)
Definition dumpOk (data : list ascii) : backup.Dump :=
  {| backup.age_ok := true; backup.pipe_ok := true; backup.start_ok := true;
     backup.exit_ok := true; backup.stdout := data; backup.elapsed := 5 * second |}.

(** A dump that exits with a non-zero status after writing [data]. *)
Definition dumpFailed (data : list ascii) : backup.Dump :=
  {| backup.age_ok := true; backup.pipe_ok := true; backup.start_ok := true;
     backup.exit_ok := false; backup.stdout := data; backup.elapsed := 5 * second |}.

(** A remote for database [app], with the given path prefix, number of
    versions kept and encryption key. *)
Definition provider (path : string) (maxVersions : Z) (key : string) : remote.Options :=
  {| remote.Name := "s3"; remote.Type_ := "s3"; remote.Path := path;
     remote.MaxVersions := maxVersions; remote.Database := database;
     remote.EncryptionKey := key |}.

(** The retention engine on [/backups] for database [app]. *)
Definition engine (r : config.RetentionConfig) : retention.Options :=
  {| retention.Retention := r; retention.OutputDir := "/backups";
     retention.DatabaseName := "app" |}.

Definition keepLast (n : Z) : config.RetentionConfig :=
  {| config.RetentionDays := None; config.MaxBackups := Some n |}.

Definition keepDays (d : Z) : config.RetentionConfig :=
  {| config.RetentionDays := Some d; config.MaxBackups := None |}.

(** Five backups, one per day from day 1 to day 5. *)
Definition five : os.FS :=
  list_to_map
    [ ((true, ["backups"]), dir 0);
      ((true, ["backups"; "app-0001.sql.gz"]), file 100 (1 * day));
      ((true, ["backups"; "app-0002.sql.gz"]), file 100 (2 * day));
      ((true, ["backups"; "app-0003.sql.gz"]), file 100 (3 * day));
      ((true, ["backups"; "app-0004.sql.gz"]), file 100 (4 * day));
      ((true, ["backups"; "app-0005.sql.gz"]), file 100 (5 * day)) ].

(** Two backups, ten days and one day old on day 20. *)
Definition tenAndOne : os.FS :=
  list_to_map
    [ ((true, ["backups"]), dir 0);
      ((true, ["backups"; "app-0010.sql.gz"]), file 100 (10 * day));
      ((true, ["backups"; "app-0019.sql.gz"]), file 100 (19 * day)) ].

(** Two backups and, older than both, a directory whose name matches the
    pattern of the backups and which is not empty. *)
Definition withDirectory : os.FS :=
  list_to_map
    [ ((true, ["backups"]), dir 0);
      ((true, ["backups"; "app-2023.sql.gz.d"]), dir (1 * day));
      ((true, ["backups"; "app-2023.sql.gz.d"; "readme"]), file 1 (1 * day));
      ((true, ["backups"; "app-0002.sql.gz"]), file 100 (2 * day));
      ((true, ["backups"; "app-0003.sql.gz"]), file 100 (3 * day)) ].

(** Three backups, the oldest of which cannot be unlinked. *)
Definition withImmutable : os.FS :=
  list_to_map
    [ ((true, ["backups"]), dir 0);
      ((true, ["backups"; "app-0001.sql.gz"]), immutable 100 (1 * day));
      ((true, ["backups"; "app-0002.sql.gz"]), file 100 (2 * day));
      ((true, ["backups"; "app-0003.sql.gz"]), file 100 (3 * day)) ].

(** Three backups: one written a nanosecond before day 13 begins, one at
    the instant it begins, one on day 19. *)
Definition atCutoff : os.FS :=
  list_to_map
    [ ((true, ["backups"]), dir 0);
      ((true, ["backups"; "app-0012.sql.gz"]), file 100 (13 * day - 1));
      ((true, ["backups"; "app-0013.sql.gz"]), file 100 (13 * day));
      ((true, ["backups"; "app-0019.sql.gz"]), file 100 (19 * day)) ].

(** A backup directory whose name holds a star, next to a directory that
    this name matches when it is read as a pattern. *)
Definition starred : os.FS :=
  list_to_map
    [ ((true, ["data"]), dir 0);
      ((true, ["data"; "b*"]), dir 0);
      ((true, ["data"; "b*"; "app-0002.sql.gz"]), file 100 (2 * day));
      ((true, ["data"; "bak2"]), dir 0);
      ((true, ["data"; "bak2"; "app-0001.sql.gz"]), file 100 (1 * day));
      ((true, ["data"; "bak2"; "app-0003.sql.gz"]), file 100 (3 * day)) ].

Definition starredBackup (r : config.RetentionConfig) : config.LocalBackupConfig :=
  {| config.Dir := "/data/b*"; config.Schedule := ["02:00"];
     config.Retention := r; config.Enabled := true |}.

Definition starredEngine (r : config.RetentionConfig) : retention.Options :=
  {| retention.Retention := r; retention.OutputDir := "/data/b*";
     retention.DatabaseName := "app" |}.

(** The configuration of the daemon for database [app] in [/backups],
    keeping the last three backups, without encryption. *)
Definition daemonConfig : config.Config :=
  {| config.Timezone := "UTC"; config.Database := database;
     config.LocalBackup :=
       {| config.Dir := "/backups"; config.Schedule := ["02:00"];
          config.Retention := keepLast 3; config.Enabled := true |};
     config.EncryptionKey := ""; config.RunOnStartup := true |}.

End scenario.

(** ** Vocabulary of the statements *)

Module vocabulary.

(** The options with the age policy taken out. *)
Definition countOnly (o : retention.Options) : retention.Options :=
  {| retention.Retention :=
       {| config.RetentionDays := None;
          config.MaxBackups := config.MaxBackups (retention.Retention o) |};
     retention.OutputDir := retention.OutputDir o;
     retention.DatabaseName := retention.DatabaseName o |}.

(** The contract of [sort.Sort] for the [Less] of [BackupFiles]: the result
    is a rearrangement of the slice in which no element is [Less] than one
    before it. *)
Definition inOrder (a b : retention.BackupFile) : Prop := retention.Less b a = false.

Class SortContract (rt : retention.Runtime) : Prop := {
  sort_permutation : forall l, retention.sort_Sort l ≡ₚ l;
  sort_ordered : forall l, StronglySorted inOrder (retention.sort_Sort l)
}.

(** The store without the given paths. *)
Definition without (fs : os.FS) (gone : list PathName) (fs' : os.FS) : Prop :=
  forall p, fs' !! p = if bool_decide (p ∈ gone) then None else fs !! p.



(** A byte that [Match] reads as itself, inside and outside brackets. *)
Definition plainByte (c : ascii) : bool :=
  negb (filepath.isMeta c) && negb (Ascii.eqb c "]").

(** What is left of [s] after the literal bytes [chunk]. *)
Fixpoint stripPrefix (chunk s : list ascii) : option (list ascii) :=
  match chunk, s with
  | [], _ => Some s
  | c :: chunk', x :: s' => if Ascii.eqb x c then stripPrefix chunk' s' else None
  | _ :: _, [] => None
  end.

(** A lower-case hexadecimal digit. *)
Definition isLowerHex (c : ascii) : bool :=
  config.between "0" "9" c || config.between "a" "f" c.

(** A time of day written HH:MM. *)
Definition digit (d : nat) : ascii := ascii_of_nat (48 + d).

Definition clock (h m : nat) : string :=
  of_bytes [digit (h / 10); digit (h mod 10); ":"%char; digit (m / 10); digit (m mod 10)].

(** What is left of [name] after the first occurrence of [chunk] that
    starts before any separator. *)
Fixpoint afterFirst (chunk name : list ascii) : option (list ascii) :=
  match stripPrefix chunk name with
  | Some t => Some t
  | None =>
      match name with
      | [] => None
      | x :: name' =>
          if Ascii.eqb x filepath.Separator then None else afterFirst chunk name'
      end
  end.

(** The inner loop of [Match], which looks for the chunk further in the
    name, by name. *)
Definition skipFrom (fuel : nat) (chunk rest : list ascii) : list ascii -> option bool :=
  fix skip (name : list ascii) : option bool :=
    match name with
    | [] => filepath.checkRest fuel rest
    | c :: name' =>
        if Ascii.eqb c filepath.Separator then filepath.checkRest fuel rest
        else
          match filepath.matchChunk chunk name' with
          | None => None
          | Some (Some t) =>
              if bool_decide (rest = []) && negb (bool_decide (t = []))
              then skip name'
              else filepath.MatchLoop fuel rest t
          | Some None => skip name'
          end
    end.

(** A name that starts with [lit1], continues without a separator up to
    an occurrence of [lit2], and has no separator after it. *)
Definition twoStars (lit1 lit2 name : list ascii) : bool :=
  match stripPrefix lit1 name with
  | Some t =>
      match afterFirst lit2 t with
      | Some u => negb (bool_decide (filepath.Separator ∈ u))
      | None => false
      end
  | None => false
  end.

End vocabulary.

(** * Properties *)

(** ** Facts about Go strings *)

Lemma bytes_of_bytes l : bytes (of_bytes l) = l.
Proof. apply list_ascii_of_string_of_list_ascii. Qed.

Lemma of_bytes_bytes s : of_bytes (bytes s) = s.
Proof. apply string_of_list_ascii_of_string. Qed.

Lemma bytes_inj s1 s2 : bytes s1 = bytes s2 -> s1 = s2.
Proof.
  intros H. rewrite <- (of_bytes_bytes s1), <- (of_bytes_bytes s2).
  now rewrite H.
Qed.

Lemma bytes_app s1 s2 : bytes (s1 ++ s2) = (bytes s1 ++ bytes s2)%list.
Proof. induction s1 as [|c s1 IH]; simpl; [reflexivity | now rewrite IH]. Qed.

Lemma HasSuffix_true s suffix :
  HasSuffix s suffix = true <-> exists p, s = p ++ suffix.
Proof.
  unfold HasSuffix. rewrite bool_decide_eq_true. split.
  - intros [k Hk]. exists (of_bytes k). apply bytes_inj.
    now rewrite bytes_app, bytes_of_bytes.
  - intros [p ->]. exists (bytes p). apply bytes_app.
Qed.

Lemma HasSuffix_app p suffix : HasSuffix (p ++ suffix) suffix = true.
Proof. apply HasSuffix_true. now exists p. Qed.

Lemma HasPrefix_true s pre :
  HasPrefix s pre = true <-> exists r, s = pre ++ r.
Proof.
  unfold HasPrefix. rewrite bool_decide_eq_true. split.
  - intros [k Hk]. exists (of_bytes k). apply bytes_inj.
    now rewrite bytes_app, bytes_of_bytes.
  - intros [r ->]. exists (bytes r). apply bytes_app.
Qed.

Lemma append_assoc s1 s2 s3 : (s1 ++ s2) ++ s3 = s1 ++ (s2 ++ s3).
Proof.
  apply bytes_inj. rewrite !bytes_app. symmetry. apply List.app_assoc.
Qed.

(** The last byte of a non-empty suffix is the last byte of the string. *)
Lemma HasSuffix_last s suffix c d :
  last (bytes s) = Some c -> last (bytes suffix) = Some d ->
  HasSuffix s suffix = true -> c = d.
Proof.
  intros Hc Hd. unfold HasSuffix. rewrite bool_decide_eq_true.
  intros [k Hk]. rewrite Hk in Hc.
  destruct (bytes suffix) as [|x l] eqn:E; [discriminate|].
  rewrite last_app, Hd in Hc. now inversion Hc.
Qed.

Lemma last_bytes_app s1 s2 :
  s2 <> "" -> last (bytes (s1 ++ s2)) = last (bytes s2).
Proof.
  intros Hne. rewrite bytes_app, last_app.
  destruct (last (bytes s2)) eqn:E; [reflexivity|].
  apply last_None in E. destruct s2; [congruence | discriminate].
Qed.

Lemma to_int_proper n : Z.to_int n <> Decimal.Pos Decimal.Nil /\ Z.to_int n <> Decimal.Neg Decimal.Nil.
Proof.
  split; intros E; pose proof (DecimalZ.of_to n) as H; rewrite E in H;
    simpl in H; subst n; discriminate E.
Qed.

Lemma itoa_inj a b : itoa a = itoa b -> a = b.
Proof.
  unfold itoa. intros H.
  apply (f_equal NilZero.int_of_string) in H.
  destruct (to_int_proper a), (to_int_proper b).
  rewrite !NilZero.isi in H by assumption.
  apply DecimalZ.to_int_inj. congruence.
Qed.


(** ** Remote naming *)

Lemma ext_cases (o : remote.Options) :
  (remote.EncryptionKey o = "" /\ remote.ext o = ".sql.gz") \/
  (remote.EncryptionKey o <> "" /\ remote.ext o = ".sql.gz.age").
Proof.
  unfold remote.ext.
  destruct (String.eqb_spec (remote.EncryptionKey o) ""); [left | right]; auto.
Qed.

Lemma HasSuffix_age_gz p : HasSuffix (p ++ ".sql.gz") ".age" = false.
Proof.
  destruct (HasSuffix (p ++ ".sql.gz") ".age") eqn:E; [|reflexivity].
  eapply (HasSuffix_last _ _ "z"%char "e"%char) in E; [discriminate | | reflexivity].
  now rewrite last_bytes_app.
Qed.

(** C8. The extension is [.sql.gz], with [.age] appended exactly when an
    encryption key is configured; the file name is [name-v{N}.ext] when
    [MaxVersions > 0] and [name.ext] otherwise; the remote path is the
    prefix joined to the file name with a slash, or the file name alone
    when the prefix is empty. *)
Theorem remote_naming_computation (o : remote.Options) (currentVersion : Z) :
  let name := config.Name (remote.Database o) in
  let file := remote.GetRemoteFileName o currentVersion in
  (remote.ext o = ".sql.gz" ++ ".age" <-> remote.EncryptionKey o <> "") /\
  (remote.ext o = ".sql.gz" <-> remote.EncryptionKey o = "") /\
  (HasSuffix file ".age" = true <-> remote.EncryptionKey o <> "") /\
  (0 < remote.MaxVersions o ->
     file = name ++ "-v" ++ itoa currentVersion ++ remote.ext o) /\
  (remote.MaxVersions o <= 0 -> file = name ++ remote.ext o) /\
  (remote.Path o = "" -> remote.RemotePathFor o file = file) /\
  (remote.Path o <> "" ->
     remote.RemotePathFor o file = remote.Path o ++ "/" ++ file).
Proof.
  intros name file.
  assert (Hfile : exists p, file = p ++ remote.ext o).
  { unfold file, remote.GetRemoteFileName. destruct (remote.HasVersioning o).
    - exists (name ++ "-v" ++ itoa currentVersion). now rewrite !append_assoc.
    - now exists name. }
  destruct Hfile as [p Hp].
  assert (Hgz : ".sql.gz" ++ ".age" = ".sql.gz.age") by reflexivity.
  repeat split.
  - destruct (ext_cases o) as [[Hk He]|[Hk He]]; [|auto].
    rewrite He, Hgz. discriminate.
  - destruct (ext_cases o) as [[Hk He]|[Hk He]]; [contradiction|].
    now rewrite He, Hgz.
  - destruct (ext_cases o) as [[Hk He]|[Hk He]]; [auto|].
    rewrite He. discriminate.
  - destruct (ext_cases o) as [[Hk He]|[Hk He]]; [auto | contradiction].
  - rewrite Hp. destruct (ext_cases o) as [[Hk He]|[Hk He]]; rewrite He; [|auto].
    now rewrite HasSuffix_age_gz.
  - intros Hk. rewrite Hp. destruct (ext_cases o) as [[Hk' He]|[Hk' He]]; [contradiction|].
    rewrite He, <- Hgz, <- append_assoc. apply HasSuffix_app.
  - intros Hv. unfold file, remote.GetRemoteFileName, remote.HasVersioning.
    destruct (Z.ltb_spec 0 (remote.MaxVersions o)); [reflexivity | lia].
  - intros Hv. unfold file, remote.GetRemoteFileName, remote.HasVersioning.
    destruct (Z.ltb_spec 0 (remote.MaxVersions o)); [lia | reflexivity].
  - intros Hp0. unfold remote.RemotePathFor. now rewrite Hp0.
  - intros Hp0. unfold remote.RemotePathFor.
    destruct (String.eqb_spec (remote.Path o) ""); [contradiction | reflexivity].
Qed.

(** Versions 7 and -1 with three versions kept, under a path prefix and
    without; version 12 with an encryption key; and the single name when
    no version is kept. *)
Lemma remote_naming_witness :
  remote.GetRemoteFileName (scenario.provider "bucket/db" 3 "") 7 = "app-v7.sql.gz" /\
  remote.RemotePathFor (scenario.provider "bucket/db" 3 "")
    (remote.GetRemoteFileName (scenario.provider "bucket/db" 3 "") 7)
    = "bucket/db/app-v7.sql.gz" /\
  remote.GetRemoteFileName (scenario.provider "" 3 "") (-1) = "app-v-1.sql.gz" /\
  remote.RemotePathFor (scenario.provider "" 3 "")
    (remote.GetRemoteFileName (scenario.provider "" 3 "") (-1)) = "app-v-1.sql.gz" /\
  remote.GetRemoteFileName (scenario.provider "bucket/db" 3 "secret") 12
    = "app-v12.sql.gz.age" /\
  remote.GetRemoteFileName (scenario.provider "bucket/db" 0 "secret") 12 = "app.sql.gz.age" /\
  remote.GetRemoteFileName (scenario.provider "bucket/db" 0 "") 12 = "app.sql.gz".
Proof.
  pose proof (remote_naming_computation (scenario.provider "bucket/db" 3 "") 7) as H1.
  pose proof (remote_naming_computation (scenario.provider "" 3 "") (-1)) as H2.
  pose proof (remote_naming_computation (scenario.provider "bucket/db" 3 "secret") 12) as H3.
  pose proof (remote_naming_computation (scenario.provider "bucket/db" 0 "secret") 12) as H4.
  pose proof (remote_naming_computation (scenario.provider "bucket/db" 0 "") 12) as H5.
  cbv zeta in H1, H2, H3, H4, H5.
  destruct H1 as (_ & _ & _ & Hv1 & _ & _ & Hp1).
  destruct H2 as (_ & _ & _ & Hv2 & _ & Hp2 & _).
  destruct H3 as (_ & _ & _ & Hv3 & _).
  destruct H4 as (_ & _ & _ & _ & Hs4 & _).
  destruct H5 as (_ & _ & _ & _ & Hs5 & _).
  split; [rewrite (Hv1 eq_refl); reflexivity|].
  split; [rewrite (Hp1 ltac:(discriminate)), (Hv1 eq_refl); reflexivity|].
  split; [rewrite (Hv2 eq_refl); reflexivity|].
  split; [rewrite (Hp2 eq_refl), (Hv2 eq_refl); reflexivity|].
  split; [rewrite (Hv3 eq_refl); reflexivity|].
  split; [rewrite (Hs4 ltac:(discriminate)); reflexivity|].
  rewrite (Hs5 ltac:(discriminate)); reflexivity.
Defined.

(** ** The restore lock *)

Lemma IsRestoreRunning_cases (f : flock.Flock) :
  lock.IsRestoreRunning f =
    if flock.l f then
      (false, {| flock.l := false; flock.heldElsewhere := flock.heldElsewhere f;
                 flock.openable := flock.openable f |})
    else if negb (flock.openable f) then (true, f)
    else if flock.heldElsewhere f then (true, f)
    else (false, f).
Proof.
  destruct f as [[] [] []]; reflexivity.
Qed.

(** C9, the input on which the claim fails: nobody holds the lock, the lock
    file cannot be opened, and the probe answers that a restore is running. *)
Lemma probe_unheld_unopenable_reports_held :
  let f := {| flock.l := false; flock.heldElsewhere := false; flock.openable := false |} in
  flock.held f = false /\ lock.IsRestoreRunning f = (true, f).
Proof. split; reflexivity. Qed.

(** C9, amended.  The probe is one non-waiting attempt.  When nobody holds
    the lock and the lock file can be opened it answers [false] and the
    lock is unheld afterwards; when the attempt fails with an error it
    answers [true] and changes nothing; when another holder exists it
    answers [true] without acquiring the lock. *)
Theorem probe_leaves_lock_unchanged (f : flock.Flock) :
  (flock.held f = false -> flock.openable f = true ->
     lock.IsRestoreRunning f = (false, f) /\
     flock.held (lock.IsRestoreRunning f).2 = false) /\
  (flock.held f = false -> flock.openable f = false ->
     lock.IsRestoreRunning f = (true, f)) /\
  (flock.heldElsewhere f = true -> flock.l f = false ->
     lock.IsRestoreRunning f = (true, f) /\
     flock.l (lock.IsRestoreRunning f).2 = false).
Proof.
  rewrite IsRestoreRunning_cases.
  destruct f as [[] [] []]; unfold flock.held; simpl; repeat split; intros; congruence.
Qed.

(** ** The scheduled local fire *)

Section scheduled_fire.

Context {codec : backup.Codec} {rt : retention.Runtime}.

(** The probe does not change the lock when it reports a holder. *)
Lemma probe_held_unchanged (f : flock.Flock) :
  (lock.IsRestoreRunning f).1 = true -> (lock.IsRestoreRunning f).2 = f.
Proof.
  rewrite IsRestoreRunning_cases. destruct f as [[] [] []]; simpl; congruence.
Qed.

(** C6.  A fire during which the probe reports the restore lock held
    returns at once: the scheduler is left as it was, so that no dump
    process is started, no file is created and the running-job counter is
    not written. *)
Theorem fire_skipped_while_restore_lock_held
    (s : scheduler.Scheduler) (x : backup.Dump) (now : Z) :
  (lock.IsRestoreRunning (scheduler.locker s)).1 = true ->
  scheduler.runLocalBackup s x now = Returned s /\
  forall s', scheduler.runLocalBackup s x now = Returned s' ->
    scheduler.files s' = scheduler.files s /\
    scheduler.runningJobs s' = scheduler.runningJobs s /\
    scheduler.trace s' = scheduler.trace s.
Proof.
  intros Hheld.
  assert (E : scheduler.runLocalBackup s x now = Returned s).
  { unfold scheduler.runLocalBackup.
    pose proof (probe_held_unchanged _ Hheld) as Hsame.
    destruct (lock.IsRestoreRunning (scheduler.locker s)) as [running lk].
    simpl in Hheld, Hsame. subst running lk. now destruct s. }
  split; [exact E|].
  intros s' E'. rewrite E in E'. now inversion E'.
Qed.

(** A fire that is not skipped writes the counter first: the statement
    above is about the skip, not about every fire. *)
Lemma fire_not_skipped_counts (s s' : scheduler.Scheduler) (x : backup.Dump) (now : Z) :
  (lock.IsRestoreRunning (scheduler.locker s)).1 = false ->
  scheduler.runLocalBackup s x now = Returned s' ->
  exists rest,
    scheduler.trace s' =
      (scheduler.trace s ++ scheduler.CounterSet (scheduler.runningJobs s + 1) :: rest)%list.
Proof.
  intros Hfree. unfold scheduler.runLocalBackup.
  destruct (lock.IsRestoreRunning (scheduler.locker s)) as [running lk].
  simpl in Hfree. subst running.
  destruct (backup.Run _ _ _ _) as [out|]; [|discriminate].
  intros [= <-]. simpl. eexists. reflexivity.
Qed.

End scheduled_fire.

(** ** The local catalog *)

Section catalog_listing.

Variable FormatTime : Z -> string.

Lemma localEntry_Some (entry : os.DirEntry) (b : catalog.BackupFile) :
  catalog.localEntry FormatTime entry = Some b <->
  os.EntryIsDir entry = false /\
  (HasSuffix (os.Name entry) ".age" = true \/ HasSuffix (os.Name entry) ".gz" = true) /\
  b = {| catalog.ShortID :=
           utils.GenerateShortID (os.Name entry) (os.ModTime (os.Info entry));
         catalog.Name := os.Name entry;
         catalog.Size := os.Size (os.Info entry);
         catalog.ModTime := FormatTime (os.ModTime (os.Info entry));
         catalog.Encrypted := HasSuffix (os.Name entry) ".age" |}.
Proof.
  unfold catalog.localEntry, utils.IsFileBackup.
  destruct (os.EntryIsDir entry); [split; [discriminate | intros [? _]; discriminate]|].
  destruct (HasSuffix (os.Name entry) ".age"), (HasSuffix (os.Name entry) ".gz"); simpl;
    split; try discriminate;
    try (intros [= <-]; repeat split; auto);
    try (intros (_ & _ & ->); reflexivity);
    intros (_ & [?|?] & _); discriminate.
Qed.



End catalog_listing.



(** ** Short identifiers *)

Lemma Unix_next_second (t : Z) : utils.Unix (t + scenario.second) = utils.Unix t + 1.
Proof.
  unfold utils.Unix, scenario.second.
  replace (t + 1000000000) with (t + 1 * 1000000000) by lia.
  now rewrite Z.div_add by lia.
Qed.

Lemma shortIDData_inj (name : string) (t t' : Z) :
  utils.shortIDData name t = utils.shortIDData name t' -> utils.Unix t = utils.Unix t'.
Proof.
  unfold utils.shortIDData. intros E.
  apply (inj (String.app name)) in E. apply (inj (String.app "-")) in E.
  now apply itoa_inj.
Qed.

Lemma hexdigit_inj (x y : Z) :
  0 <= x < 16 -> 0 <= y < 16 -> sha256.hexdigit x = sha256.hexdigit y -> x = y.
Proof.
  intros Hx Hy E. unfold sha256.hexdigit in E.
  apply (f_equal nat_of_ascii) in E.
  rewrite !nat_ascii_embedding in E
    by (destruct (x <? 10) eqn:?, (y <? 10) eqn:?; lia).
  destruct (Z.ltb_spec x 10), (Z.ltb_spec y 10); lia.
Qed.

Lemma EncodeToString_inj (a b : list Z) :
  Forall (fun x => 0 <= x < 256) a -> Forall (fun x => 0 <= x < 256) b ->
  sha256.EncodeToString a = sha256.EncodeToString b -> a = b.
Proof.
  unfold sha256.EncodeToString. intros Ha Hb E.
  apply (f_equal bytes) in E. rewrite !bytes_of_bytes in E.
  revert b Hb E. induction Ha as [|x a Hx Ha IH]; intros b Hb E.
  - destruct b; [reflexivity | discriminate].
  - destruct Hb as [|y b Hy Hb]; [discriminate|].
    simpl in E. injection E as E1 E2 E3.
    apply hexdigit_inj in E1; [| split; [apply Z.div_pos | apply Z.div_lt_upper_bound]; lia ..].
    apply hexdigit_inj in E2; [| apply Z.mod_pos_bound; lia ..].
    f_equal; [|now apply IH].
    rewrite (Z.div_mod x 16), (Z.div_mod y 16) by lia. congruence.
Qed.

Lemma be_bytes_range (w : nat) (x : Z) : Forall (fun b => 0 <= b < 256) (sha256.be_bytes w x).
Proof.
  induction w; simpl; constructor; [apply Z.mod_pos_bound; lia | assumption].
Qed.

Lemma Sum256_range (data : string) : Forall (fun b => 0 <= b < 256) (sha256.Sum256 data).
Proof.
  unfold sha256.Sum256. apply Forall_concat, Forall_fmap, Forall_true.
  intros x. apply be_bytes_range.
Qed.

(** C4, the input on which the claim fails: in the earlier revision of the
    catalog two entries of the same name whose modification times differ
    by one second get the same short identifier. *)
Lemma legacy_shortID_ignores_modTime :
  let entry (t : Z) :=
    {| os.Name := "app-20240101-020000.sql.gz"; os.EntryIsDir := false;
       os.Info := scenario.file 100 t |} in
  exists a b,
    catalog.localEntry_legacy (entry 0) = Some a /\
    catalog.localEntry_legacy (entry scenario.second) = Some b /\
    catalog.ModTime_legacy b = catalog.ModTime_legacy a + scenario.second /\
    catalog.ShortID_legacy a = catalog.ShortID_legacy b.
Proof.
  eexists _, _.
  split; [vm_compute; reflexivity|].
  split; [vm_compute; reflexivity|].
  split; vm_compute; reflexivity.
Qed.

(** C4, amended.  [GenerateShortID] is a function of the name and of the
    Unix second of the modification time.  One second later the data that
    is hashed is different, and the two identifiers are equal exactly when
    the first four bytes of the two SHA-256 digests are.  The identifier of
    the earlier revision of the catalog is computed from the name alone. *)
Theorem shortID_function_of_name_and_second (name : string) (modTime : Z) :
  (forall modTime', utils.Unix modTime' = utils.Unix modTime ->
     utils.GenerateShortID name modTime' = utils.GenerateShortID name modTime) /\
  utils.shortIDData name (modTime + scenario.second) <> utils.shortIDData name modTime /\
  (utils.GenerateShortID name (modTime + scenario.second) = utils.GenerateShortID name modTime
   <-> take 4 (sha256.Sum256 (utils.shortIDData name (modTime + scenario.second)))
       = take 4 (sha256.Sum256 (utils.shortIDData name modTime))) /\
  (forall entry b, catalog.localEntry_legacy entry = Some b ->
     catalog.ShortID_legacy b = catalog.generateShortID_legacy (os.Name entry)).
Proof.
  repeat split.
  - intros t' E. unfold utils.GenerateShortID, utils.shortIDData. now rewrite E.
  - intros E. apply shortIDData_inj in E. rewrite Unix_next_second in E. lia.
  - unfold utils.GenerateShortID. apply EncodeToString_inj;
      apply Forall_take, Sum256_range.
  - unfold utils.GenerateShortID. now intros ->.
  - intros entry b. unfold catalog.localEntry_legacy.
    destruct (os.EntryIsDir entry); [discriminate|].
    destruct (negb _); [discriminate|]. now intros [= <-].
Qed.

(** On this name the identifier does change with the second. *)
Example shortID_changes_here :
  utils.GenerateShortID "abc" 0 = "88e441ed" /\
  utils.GenerateShortID "abc" scenario.second <> "88e441ed".
Proof. split; [vm_compute; reflexivity | vm_compute; discriminate]. Qed.

(** On this name and these two seconds, one after the other, it does not:
    the two digests start with the same four bytes. *)
Example shortID_collision_one_second_apart :
  utils.GenerateShortID "app.sql.gz" (3481107882 * scenario.second) = "6f9827e5" /\
  utils.GenerateShortID "app.sql.gz" (3481107882 * scenario.second + scenario.second)
    = "6f9827e5".
Proof. split; vm_compute; reflexivity. Qed.

(** ** One retention policy at a time *)

Lemma both_policies_rejected (lb : config.LocalBackupConfig) :
  config.HasRetentionDays (config.Retention lb) = true ->
  config.HasMaxBackups (config.Retention lb) = true ->
  exists err, config.validateLocalBackup lb = Some err.
Proof.
  intros Hd Hm. unfold config.validateLocalBackup, config.check.
  destruct (String.eqb _ ""); [eauto|].
  destruct (Contains _ ".."); [eauto|].
  destruct (List.find _ _); simpl; [eauto|].
  rewrite Hd, Hm. simpl. eauto.
Qed.

Section single_policy.

Context {codec : backup.Codec} {rt : retention.Runtime}.

Variables validateDatabase validateTimezone validateRemoteProviders
  validateNotification : config.Config -> bool.
Variable stamp : Z -> string.

(** C7.  A configuration that sets both policies does not pass validation,
    so that the daemon ends on the error before the backup service, and
    with it the retention engine, is built; and a run of the engine applies
    one policy: with a maximum count set it does what it does with the
    count alone, and what it removes is the result of [cleanByCount] alone
    or of [cleanByDays] alone. *)
Theorem single_retention_policy :
  (forall lb,
     config.HasRetentionDays (config.Retention lb) = true ->
     config.HasMaxBackups (config.Retention lb) = true ->
     exists err, config.validateLocalBackup lb = Some err) /\
  (forall cfg lockMgr x now fs,
     config.HasRetentionDays (config.Retention (config.LocalBackup cfg)) = true ->
     config.HasMaxBackups (config.Retention (config.LocalBackup cfg)) = true ->
     exists err,
       cmd.loadConfigOrFail validateDatabase validateTimezone validateRemoteProviders
         validateNotification cfg = inl err /\
       cmd.runDaemon validateDatabase validateTimezone validateRemoteProviders
         validateNotification stamp cfg lockMgr x now fs = inl err) /\
  (forall o now fs,
     retention.HasMaxBackups o = true ->
     retention.Run o now fs = retention.Run (vocabulary.countOnly o) now fs) /\
  (forall o now fs err removed fs',
     retention.Run o now fs = Returned (err, removed, fs') ->
     (removed = [] /\ fs' = fs) \/
     (exists backups n,
        config.MaxBackups (retention.Retention o) = Some n /\
        retention.findBackups o fs = Some backups /\
        retention.cleanByCount fs backups n = Returned (removed, fs')) \/
     (exists backups d,
        config.MaxBackups (retention.Retention o) = None /\
        config.RetentionDays (retention.Retention o) = Some d /\
        retention.findBackups o fs = Some backups /\
        retention.cleanByDays now fs backups d = (removed, fs'))).
Proof.
  split; [exact both_policies_rejected|]. split; [|split].
  - intros cfg lockMgr x now fs Hd Hm.
    destruct (both_policies_rejected _ Hd Hm) as [e He].
    assert (E : exists err,
      cmd.loadConfigOrFail validateDatabase validateTimezone validateRemoteProviders
        validateNotification cfg = inl err).
    { unfold cmd.loadConfigOrFail, config.Validate. rewrite He.
      destruct (negb (validateDatabase cfg)); [eauto|].
      destruct (negb (validateTimezone cfg)); eauto. }
    destruct E as [err E]. exists err. split; [exact E|].
    unfold cmd.runDaemon. now rewrite E.
  - intros o now fs Hm. unfold retention.Run, retention.HasRetention, retention.findBackups,
      retention.pattern, retention.HasMaxBackups, config.HasMaxBackups in *.
    destruct o as [[d m] dir db]; simpl in *.
    destruct m as [n|]; [|now rewrite bool_decide_eq_true in Hm].
    rewrite !bool_decide_eq_true_2 by discriminate. simpl.
    destruct (glob.Glob fs _); [|reflexivity].
    destruct (retention.Len _ =? 0); reflexivity.
  - intros o now fs err removed fs'. unfold retention.Run.
    destruct (negb (retention.HasRetention o)); [intros [= <- <- <-]; auto|].
    destruct (retention.findBackups o fs) as [backups|]; [|intros [= <- <- <-]; auto].
    destruct (retention.Len backups =? 0); [intros [= <- <- <-]; auto|].
    destruct (config.MaxBackups (retention.Retention o)) as [n|] eqn:Em.
    + destruct (retention.cleanByCount fs backups n) as [[r f]|] eqn:Ec; [|discriminate].
      intros [= <- <- <-]. right; left. eauto.
    + destruct (config.RetentionDays (retention.Retention o)) as [d|] eqn:Ed.
      * destruct (retention.cleanByDays now fs backups d) as [r f] eqn:Ec.
        intros [= <- <- <-]. right; right. exists backups, d. auto.
      * intros [= <- <- <-]. auto.
Qed.

End single_policy.

(** ** The backup producer *)

Lemma Create_Some (fs fs1 : os.FS) (p : PathName) (now : Z) :
  os.Create fs p now = Some fs1 ->
  p.2 <> [] /\
  fs1 = <[p := {| os.IsDir := false; os.Size := 0; os.ModTime := now;
                  os.Immutable := false |}]> fs.
Proof.
  unfold os.Create, os.isDirectory, os.Stat. destruct p as [r [|e es]]; simpl.
  - discriminate.
  - intros Hc. split; [discriminate|].
    destruct (fs !! (r, e :: es)) as [info|].
    + destruct (os.IsDir info || os.Immutable info); congruence.
    + destruct (match removelast (e :: es) with [] => _ | _ => _ end) as [i|];
        [destruct (os.IsDir i)|]; congruence.
Qed.

Lemma Write_present (fs : os.FS) (p : PathName) (n now : Z) (info : os.FileInfo) :
  fs !! p = Some info ->
  os.Write fs p n now !! p =
    Some {| os.IsDir := os.IsDir info; os.Size := os.Size info + n; os.ModTime := now;
            os.Immutable := os.Immutable info |}.
Proof. intros E. unfold os.Write. rewrite E. apply lookup_insert_eq. Qed.

Lemma Write_absent (fs : os.FS) (p : PathName) (n now : Z) :
  fs !! p = None -> os.Write fs p n now = fs.
Proof. intros E. unfold os.Write. now rewrite E. Qed.

Lemma Remove_file (fs : os.FS) (p : PathName) (info : os.FileInfo) :
  fs !! p = Some info -> os.IsDir info = false -> os.Immutable info = false ->
  os.Remove fs p = Some (delete p fs).
Proof. intros E Hd Hi. unfold os.Remove. now rewrite E, Hi, Hd. Qed.

(** A removal that succeeds takes the path out of the store and nothing
    else. *)
Lemma Remove_Some (fs fs' : os.FS) (p : PathName) :
  os.Remove fs p = Some fs' -> fs' = delete p fs /\ is_Some (fs !! p).
Proof.
  unfold os.Remove. destruct (fs !! p) as [info|]; [|discriminate].
  destruct (os.Immutable info); [discriminate|].
  destruct (_ && _); [discriminate|]. intros [= <-]. eauto.
Qed.

Section producer_facts.

Context {codec : backup.Codec} {rt : retention.Runtime}.

Lemma gzipBytes_ge (name : string) (data : list ascii) :
  (10 <= (backup.gzipBytes name data).1)%nat.
Proof. unfold backup.gzipBytes. destruct (backup.gzip_name_len name); simpl; lia. Qed.

Lemma closeWriters_present (o : backup.Options) (fs : os.FS) (p : PathName)
    (data : list ascii) (now : Z) (info : os.FileInfo) :
  fs !! p = Some info -> 0 <= os.Size info ->
  exists info',
    backup.closeWriters o fs p data now !! p = Some info' /\
    os.IsDir info' = os.IsDir info /\ 10 <= os.Size info'.
Proof.
  intros E Hs. unfold backup.closeWriters. erewrite Write_present by exact E.
  eexists. split; [reflexivity|]. simpl. split; [reflexivity|].
  pose proof (gzipBytes_ge (filepath.Base p) data).
  destruct (backup.IsEncryptEnabled o); lia.
Qed.

Lemma closeWriters_absent (o : backup.Options) (fs : os.FS) (p : PathName)
    (data : list ascii) (now : Z) :
  fs !! p = None -> backup.closeWriters o fs p data now = fs.
Proof. intros E. unfold backup.closeWriters. now apply Write_absent. Qed.

Lemma dumpInto_result (o : backup.Options) (x : backup.Dump) (now : Z)
    (fs fs' : os.FS) (p : PathName) (info : os.FileInfo)
    (err : option backup.DumpError) (started : bool) :
  fs !! p = Some info -> os.IsDir info = false -> os.Immutable info = false ->
  0 <= os.Size info ->
  backup.dumpInto o x now fs p = (err, fs', started) ->
  match err with
  | None =>
      started = true /\ backup.exit_ok x = true /\
      exists info', fs' !! p = Some info' /\ os.IsDir info' = false /\ 10 <= os.Size info'
  | Some backup.ErrWait =>
      started = true /\ fs' !! p = None /\
      (backup.exit_ok x = false \/ backup.stdout x <> [])
  | Some _ => started = false
  end.
Proof.
  intros Hi Hd Hm Hs. unfold backup.dumpInto.
  destruct (negb (backup.pipe_ok x)); [now intros [= <- <- <-]|].
  destruct (negb (backup.start_ok x)); [now intros [= <- <- <-]|].
  destruct (negb (backup.exit_ok x) || _) eqn:Ew.
  - intros [= <- <- <-]. rewrite (Remove_file _ _ _ Hi Hd Hm). simpl.
    rewrite closeWriters_absent by apply lookup_delete_eq.
    split; [reflexivity|]. split; [apply lookup_delete_eq|].
    apply orb_true_iff in Ew as [Ew|Ew].
    + left. now apply negb_true_iff.
    + right. apply andb_true_iff in Ew as [_ Ew].
      now apply negb_true_iff, bool_decide_eq_false in Ew.
  - intros [= <- <- <-]. apply orb_false_iff in Ew as [Ex _].
    apply negb_false_iff in Ex. split; [reflexivity|]. split; [exact Ex|].
    destruct (closeWriters_present o fs p (backup.stdout x) (now + backup.elapsed x)
                info Hi Hs) as (info' & Hi' & Hd' & Hs').
    exists info'. rewrite Hd' in *. auto.
Qed.

(** What [executePgDump] leaves at the output path, by the error it
    returns. *)
Lemma executePgDump_result (o : backup.Options) (x : backup.Dump) (now : Z)
    (fs fs' : os.FS) (p : PathName) (err : option backup.DumpError) (started : bool) :
  backup.executePgDump o x now fs p = (err, fs', started) ->
  match err with
  | None =>
      started = true /\ backup.exit_ok x = true /\
      exists info', fs' !! p = Some info' /\ os.IsDir info' = false /\ 10 <= os.Size info'
  | Some backup.ErrWait =>
      started = true /\ fs' !! p = None /\
      (backup.exit_ok x = false \/ backup.stdout x <> [])
  | Some _ => started = false
  end.
Proof.
  unfold backup.executePgDump.
  destruct (os.Create fs p now) as [fs1|] eqn:Ec; [|now intros [= <- <- <-]].
  apply Create_Some in Ec as [Hp ->].
  set (fs1 := <[p:=_]> fs).
  assert (H1 : fs1 !! p = Some {| os.IsDir := false; os.Size := 0; os.ModTime := now;
                                   os.Immutable := false |})
    by apply lookup_insert_eq.
  unfold backup.openWriters.
  destruct (backup.IsEncryptEnabled o).
  - destruct (String.eqb (backup.EncryptionKey o) ""); [now intros [= <- <- <-]|].
    destruct (negb (backup.age_ok x)); [now intros [= <- <- <-]|].
    eapply dumpInto_result.
    + erewrite Write_present by exact H1. reflexivity.
    + reflexivity.
    + reflexivity.
    + simpl. lia.
  - eapply dumpInto_result; [exact H1 | reflexivity | reflexivity | simpl; lia].
Qed.

Lemma executePgDump_started (o : backup.Options) (x : backup.Dump) (now : Z)
    (fs fs' : os.FS) (p : PathName) (err : option backup.DumpError) :
  backup.executePgDump o x now fs p = (err, fs', true) -> p.2 <> [].
Proof.
  unfold backup.executePgDump.
  destruct (os.Create fs p now) as [fs1|] eqn:Ec; [|discriminate].
  now apply Create_Some in Ec as [Hp _].
Qed.

Lemma Stat_lookup (fs : os.FS) (p : PathName) : p.2 <> [] -> os.Stat fs p = fs !! p.
Proof. unfold os.Stat. destruct p as [r [|e es]]; simpl; congruence. Qed.


(** In a store that takes every write, the file is not empty after a dump
    that reports success, and the empty-file error of [Run] is not
    returned: the compressor writes its header and trailer when it is
    closed, whatever the process wrote.  The source discards the errors of
    the deferred [Close] calls; a write that fails there is outside this
    statement. *)
Lemma empty_file_error_unreachable (o : backup.Options) (x : backup.Dump) (now : Z)
    (fs : os.FS) (out : backup.Outcome) :
  backup.Run o x now fs = Returned out ->
  backup.ret out <> backup.Fail backup.ErrEmptyFile.
Proof.
  unfold backup.Run.
  destruct (os.MkdirAll fs (backup.OutputDir o) now) as [fs1|];
    [|intros [= <-]; discriminate].
  destruct (backup.executePgDump o x now fs1 (backup.outputFile o now))
    as [[err fs2] started] eqn:Ed.
  pose proof (executePgDump_result _ _ _ _ _ _ _ _ Ed) as Hr.
  destruct err as [e|]; [intros [= <-]; discriminate|].
  destruct Hr as (-> & _ & info & Hi & _ & Hs).
  rewrite Stat_lookup by exact (executePgDump_started _ _ _ _ _ _ _ Ed).
  rewrite Hi. destruct (Z.eqb_spec (os.Size info) 0); [lia|].
  destruct (backup.HasRetention o).
  - destruct (retention.Run _ _ _) as [[[e r] f]|]; [|discriminate].
    intros [= <-]. discriminate.
  - intros [= <-]. discriminate.
Qed.

(** A dump that was started, wrote nothing and exited with status zero is
    reported as a successful backup. *)
Lemma empty_dump_reported_successful (o : backup.Options) (x : backup.Dump) (now : Z)
    (fs : os.FS) (out : backup.Outcome) :
  backup.stdout x = [] -> backup.exit_ok x = true ->
  backup.Run o x now fs = Returned out ->
  backup.dumpStarted out = true ->
  backup.ret out = backup.Ok (backup.outputFile o now).
Proof.
  intros Hempty Hx. unfold backup.Run.
  destruct (os.MkdirAll fs (backup.OutputDir o) now) as [fs1|];
    [|intros [= <-]; discriminate].
  destruct (backup.executePgDump o x now fs1 (backup.outputFile o now))
    as [[err fs2] started] eqn:Ed.
  pose proof (executePgDump_result _ _ _ _ _ _ _ _ Ed) as Hr.
  destruct err as [e|].
  - intros [= <-]. simpl. intros ->. destruct e; try discriminate.
    destruct Hr as (_ & _ & [Hf|Hf]); congruence.
  - destruct Hr as (-> & _ & info & Hi & _ & Hs).
    rewrite Stat_lookup by exact (executePgDump_started _ _ _ _ _ _ _ Ed).
    rewrite Hi. destruct (Z.eqb_spec (os.Size info) 0); [lia|].
    destruct (backup.HasRetention o).
    + destruct (retention.Run _ _ _) as [[[e r] f]|]; [|discriminate].
      now intros [= <-].
    + now intros [= <-].
Qed.

End producer_facts.

(** C1, the run on which the claim fails: the process is started, writes
    nothing and exits with status zero; [Run] returns the path of the file
    and the file, 39 bytes of gzip framing, stays on disk. *)
Theorem empty_dump_kept_as_backup :
  match backup.Run (codec := scenario.codec) (rt := scenario.utc)
          (scenario.producer scenario.noRetention) (scenario.dumpOk []) 1000
          scenario.listed with
  | Returned out =>
      backup.dumpStarted out = true /\
      backup.ret out = backup.Ok (true, ["backups"; "app-1000.sql.gz"]) /\
      os.Size <$> backup.files out !! (true, ["backups"; "app-1000.sql.gz"]) = Some 39
  | Panicked => False
  end.
Proof. vm_compute. repeat split. Qed.

(** The same producer on a dump that exits with a non-zero status: the
    error is returned and the file is gone. *)
Example failed_dump_here :
  match backup.Run (codec := scenario.codec) (rt := scenario.utc)
          (scenario.producer scenario.noRetention) (scenario.dumpFailed (bytes "abc")) 1000
          scenario.listed with
  | Returned out =>
      backup.ret out = backup.Fail (backup.ErrPgDump backup.ErrWait) /\
      backup.files out !! (true, ["backups"; "app-1000.sql.gz"]) = None
  | Panicked => False
  end.
Proof. vm_compute. repeat split. Qed.

(** ** Directory scans and [Glob] *)

Lemma childName_Some (dir k : PathName) (name : string) :
  os.childName dir k = Some name -> k = filepath.child dir name.
Proof.
  unfold os.childName. destruct (last k.2) as [n|]; [|discriminate].
  case_bool_decide; [|discriminate]. now intros [= <-].
Qed.

Lemma child_inj (d d' : PathName) (n n' : string) :
  filepath.child d n = filepath.child d' n' -> d = d' /\ n = n'.
Proof.
  destruct d as [r l], d' as [r' l']. unfold filepath.child. simpl.
  intros [= -> E]. apply app_inj_tail in E as [-> ->]. auto.
Qed.

Lemma raw_entries_NoDup (dir : PathName) (l : list (PathName * os.FileInfo)) :
  NoDup (l.*1) ->
  NoDup ((omap (fun kv => (fun name => (name, kv.2)) <$> os.childName dir kv.1) l).*1).
Proof.
  induction l as [|kv l IH]; simpl; [constructor|].
  rewrite NoDup_cons. intros [Hk Hl]. specialize (IH Hl).
  destruct (os.childName dir kv.1) as [n|] eqn:En; simpl; [|exact IH].
  apply NoDup_cons. split; [|exact IH].
  rewrite list_elem_of_fmap. intros ([n' i'] & Hn & Hin). simpl in Hn. subst n'.
  apply list_elem_of_omap in Hin as (kv' & Hin & Hg).
  destruct (os.childName dir kv'.1) as [m|] eqn:Em; [|discriminate].
  simpl in Hg. injection Hg as -> _.
  apply childName_Some in En, Em. apply Hk.
  rewrite En, <- Em. apply list_elem_of_fmap. eauto.
Qed.

Lemma entries_NoDup (fs : os.FS) (dir : PathName) : NoDup ((os.entries fs dir).*1).
Proof.
  unfold os.entries. rewrite merge_sort_Permutation.
  apply raw_entries_NoDup, NoDup_fst_map_to_list.
Qed.

Lemma entries_lookup (fs : os.FS) (dir : PathName) (e : string * os.FileInfo) :
  e ∈ os.entries fs dir -> fs !! filepath.child dir e.1 = Some e.2.
Proof.
  unfold os.entries. rewrite merge_sort_Permutation.
  intros Hin. apply list_elem_of_omap in Hin as ([k i] & Hin & Hg).
  apply elem_of_map_to_list in Hin. simpl in Hg.
  destruct (os.childName dir k) as [n|] eqn:En; [|discriminate].
  injection Hg as <-. simpl. apply childName_Some in En. now subst k.
Qed.

Lemma glob_fold (dir : PathName) (pattern : string) (l : list (string * os.FileInfo))
    (ms : list PathName) :
  foldr (fun e acc =>
           m ← filepath.Match pattern e.1;
           rest ← acc;
           Some (if (m : bool) then filepath.child dir e.1 :: rest else rest))
        (Some []) l = Some ms ->
  NoDup (l.*1) ->
  NoDup ms /\
  forall p, p ∈ ms ->
    exists e, e ∈ l /\ p = filepath.child dir e.1 /\
              filepath.Match pattern e.1 = Some true.
Proof.
  revert ms. induction l as [|e l IH]; simpl; intros ms.
  - intros [= <-] _. split; [constructor | intros p Hp; inversion Hp].
  - destruct (filepath.Match pattern e.1) as [m|] eqn:Em; [|discriminate]. simpl.
    destruct (foldr _ _ l) as [rest|] eqn:Er; [|discriminate]. simpl.
    intros [= <-] Hnd. apply NoDup_cons in Hnd as [He Hnd].
    destruct (IH rest eq_refl Hnd) as [Hndr Hrest].
    assert (Hrest' : forall p, p ∈ rest ->
              exists e0, e0 ∈ e :: l /\ p = filepath.child dir e0.1 /\
                         filepath.Match pattern e0.1 = Some true).
    { intros p Hp. destruct (Hrest p Hp) as (e0 & ? & ? & ?). exists e0.
      split; [now right | auto]. }
    destruct m; [|split; [exact Hndr | exact Hrest']].
    split.
    + apply NoDup_cons. split; [|exact Hndr].
      intros Hin. apply Hrest in Hin as (e0 & Hin & Hn & _).
      apply child_inj in Hn as [_ Hn]. apply He. rewrite Hn.
      apply list_elem_of_fmap. eauto.
    + intros p Hp. apply elem_of_cons in Hp as [->|Hp]; [|now apply Hrest'].
      exists e. split; [now left | auto].
Qed.

(** The scan of one directory: distinct entries of that directory, present
    in the store, whose name matches the pattern. *)
Lemma glob_scan (fs : os.FS) (dir : PathName) (pattern : string) (ms : list PathName) :
  glob.glob fs dir pattern = Some ms ->
  NoDup ms /\
  forall p, p ∈ ms ->
    exists name, p = filepath.child dir name /\ is_Some (fs !! p) /\
                 filepath.Match pattern name = Some true.
Proof.
  unfold glob.glob. destruct (os.isDirectory fs dir).
  2:{ intros [= <-]. split; [constructor | intros p Hp; inversion Hp]. }
  intros Hf. destruct (glob_fold _ _ _ _ Hf (entries_NoDup fs dir)) as [Hnd Hms].
  split; [exact Hnd|]. intros p Hp.
  destruct (Hms p Hp) as (e & Hin & -> & Hm). exists e.1.
  rewrite (entries_lookup _ _ _ Hin). eauto.
Qed.

Lemma scans_NoDup (fs : os.FS) (file : string) (dirs : list PathName)
    (found : list (list PathName)) :
  Forall2 (fun d ms => glob.glob fs d file = Some ms) dirs found ->
  NoDup dirs ->
  NoDup (concat found) /\
  forall p, p ∈ concat found ->
    exists d name, d ∈ dirs /\ p = filepath.child d name /\ is_Some (fs !! p) /\
                   filepath.Match file name = Some true.
Proof.
  induction 1 as [|d ms dirs found Hg _ IH]; simpl; intros Hnd.
  - split; [constructor | intros p Hp; inversion Hp].
  - apply NoDup_cons in Hnd as [Hd Hnd]. destruct (IH Hnd) as [Hc Hrest].
    destruct (glob_scan _ _ _ _ Hg) as [Hms Hscan].
    split.
    + apply NoDup_app. split; [exact Hms|]. split; [|exact Hc].
      intros p Hp Hp'. apply Hscan in Hp as (n & -> & _).
      apply Hrest in Hp' as (d' & n' & Hd' & E & _).
      apply child_inj in E as [-> _]. contradiction.
    + intros p Hp. apply elem_of_app in Hp as [Hp|Hp].
      * apply Hscan in Hp as (n & -> & ? & ?). exists d, n. split; [now left | auto].
      * apply Hrest in Hp as (d' & n' & ? & ?). exists d', n'. split; [now right | auto].
Qed.

Lemma globRev_cons (fs : os.FS) (rooted : bool) (file : string) (rdir : list string) :
  glob.globRev fs rooted (file :: rdir) =
    if negb (glob.hasMetaElems (file :: rdir)) then
      Some (if bool_decide (is_Some (os.Stat fs (rooted, rev (file :: rdir))))
            then [(rooted, rev (file :: rdir))] else [])
    else
      match (if negb (glob.hasMetaElems rdir) then Some [(rooted, rev rdir)]
             else glob.globRev fs rooted rdir) with
      | Some dirs =>
          match mapM (fun d => glob.glob fs d file) dirs with
          | Some found => Some (concat found)
          | None => None
          end
      | None => None
      end.
Proof. reflexivity. Qed.

Lemma globRev_NoDup (fs : os.FS) (rooted : bool) (rpattern : list string)
    (ms : list PathName) :
  glob.globRev fs rooted rpattern = Some ms -> NoDup ms.
Proof.
  revert ms. induction rpattern as [|file rdir IH]; intros ms.
  - intros [= <-]. apply NoDup_singleton.
  - rewrite globRev_cons. destruct (negb (glob.hasMetaElems (file :: rdir))).
    + intros [= <-]. case_bool_decide; [apply NoDup_singleton | constructor].
    + destruct (if negb (glob.hasMetaElems rdir) then _ else _) as [dirs|] eqn:Ed;
        [|discriminate].
      destruct (mapM _ dirs) as [found|] eqn:Em; [|discriminate].
      intros [= <-]. apply mapM_Some in Em.
      eapply scans_NoDup; [exact Em|].
      destruct (negb (glob.hasMetaElems rdir)).
      * injection Ed as <-. apply NoDup_singleton.
      * now apply IH.
Qed.

Lemma Glob_NoDup (fs : os.FS) (pattern : PathName) (ms : list PathName) :
  glob.Glob fs pattern = Some ms -> NoDup ms.
Proof.
  unfold glob.Glob. destruct (forallb _ _); [apply globRev_NoDup | discriminate].
Qed.

Lemma childName_depth (dir k : PathName) (name : string) :
  os.childName dir k = Some name -> length k.2 = S (length dir.2).
Proof.
  intros E. apply childName_Some in E. subst k. unfold filepath.child. simpl.
  rewrite length_app. simpl. lia.
Qed.

Lemma entries_nil (fs : os.FS) (dir : PathName) :
  os.entries fs dir = [] <->
  forall k info, fs !! k = Some info -> os.childName dir k = None.
Proof.
  unfold os.entries. split.
  - intros E k info Hk.
    destruct (os.childName dir k) as [name|] eqn:En; [exfalso | reflexivity].
    assert (Hin : (name, info) ∈
              omap (fun kv => (fun name => (name, kv.2)) <$> os.childName dir kv.1)
                   (map_to_list fs)).
    { apply list_elem_of_omap. exists (k, info). split.
      - now apply elem_of_map_to_list.
      - simpl. now rewrite En. }
    rewrite <- merge_sort_Permutation in Hin. rewrite E in Hin. inversion Hin.
  - intros Hnone.
    destruct (merge_sort _ _) as [|e l] eqn:E; [reflexivity | exfalso].
    assert (Hin : e ∈ merge_sort os.name_le
              (omap (fun kv => (fun name => (name, kv.2)) <$> os.childName dir kv.1)
                    (map_to_list fs))) by (rewrite E; now left).
    rewrite merge_sort_Permutation in Hin.
    apply list_elem_of_omap in Hin as ([k info] & Hk & Hf).
    apply elem_of_map_to_list in Hk. simpl in Hf.
    rewrite (Hnone k info Hk) in Hf. discriminate.
Qed.

(** Whether a path can be removed does not change when another path, which
    is not one of its entries, is removed first. *)
Lemma Remove_after_delete (fs : os.FS) (p q : PathName) :
  p <> q -> os.childName p q = None ->
  (os.Remove (delete q fs) p = None <-> os.Remove fs p = None).
Proof.
  intros Hne Hchild. unfold os.Remove. rewrite lookup_delete_ne by congruence.
  destruct (fs !! p) as [info|]; [|reflexivity].
  destruct (os.Immutable info); [reflexivity|].
  destruct (os.IsDir info); simpl; [|split; discriminate].
  assert (Hnil : os.entries (delete q fs) p = [] <-> os.entries fs p = []).
  { rewrite !entries_nil. split.
    - intros H k i Hk. destruct (decide (k = q)) as [->|Hkq]; [exact Hchild|].
      apply (H k i). now rewrite lookup_delete_ne by congruence.
    - intros H k i Hk. apply lookup_delete_Some in Hk as [_ Hk]. eauto. }
  repeat case_bool_decide; simpl; split; intros; try reflexivity; try discriminate;
    tauto.
Qed.

Lemma globRev_depth (fs : os.FS) (rooted : bool) (rpattern : list string)
    (ms : list PathName) :
  glob.globRev fs rooted rpattern = Some ms ->
  forall p, p ∈ ms -> length p.2 = length rpattern.
Proof.
  revert ms. induction rpattern as [|file rdir IH]; intros ms.
  - intros [= <-] p Hp. apply list_elem_of_singleton in Hp. now subst p.
  - rewrite globRev_cons. destruct (negb (glob.hasMetaElems (file :: rdir))).
    + intros [= <-] p. case_bool_decide; intros Hp; [|inversion Hp].
      apply list_elem_of_singleton in Hp. subst p. simpl.
      rewrite length_app, length_rev. simpl. lia.
    + destruct (if negb (glob.hasMetaElems rdir) then _ else _) as [dirs|] eqn:Ed;
        [|discriminate].
      destruct (mapM _ dirs) as [found|] eqn:Em; [|discriminate].
      intros [= <-] p Hp. apply mapM_Some in Em.
      assert (Hdirs : forall d, d ∈ dirs -> length d.2 = length rdir).
      { destruct (negb (glob.hasMetaElems rdir)).
        - injection Ed as <-. intros d Hd. apply list_elem_of_singleton in Hd. subst d.
          simpl. apply length_rev.
        - now apply IH. }
      clear Ed IH. induction Em as [|d ms dirs found Hg _ IHf]; simpl in Hp;
        [inversion Hp|].
      apply elem_of_app in Hp as [Hp|Hp].
      * destruct (glob_scan _ _ _ _ Hg) as [_ Hscan].
        destruct (Hscan p Hp) as (name & -> & _). unfold filepath.child. simpl.
        rewrite length_app, (Hdirs d) by now left. simpl. lia.
      * apply IHf; [exact Hp|]. intros d' Hd'. apply Hdirs. now right.
Qed.

Lemma Glob_depth (fs : os.FS) (pattern : PathName) (ms : list PathName) :
  glob.Glob fs pattern = Some ms ->
  forall p, p ∈ ms -> length p.2 = length pattern.2.
Proof.
  unfold glob.Glob. destruct (forallb _ _); [|discriminate].
  intros Hg p Hp. rewrite (globRev_depth _ _ _ _ Hg p Hp). apply length_rev.
Qed.

(** ** The retention engine *)

Lemma inOrder_le (a b : retention.BackupFile) :
  vocabulary.inOrder a b <-> retention.ModTime a <= retention.ModTime b.
Proof.
  unfold vocabulary.inOrder, retention.Less, retention.Before.
  destruct (Z.ltb_spec (retention.ModTime b) (retention.ModTime a)); split; intros; lia || congruence.
Qed.

(** The deletion loop: what it returns is a sub-sequence of what it was
    given, and the store loses exactly the paths returned. *)
Lemma removeEach_spec (toRemove : retention.BackupFiles) :
  forall (fs fs' : os.FS) (acc removed : retention.BackupFiles),
  NoDup (retention.Path <$> toRemove) ->
  retention.removeEach fs toRemove acc = (removed, fs') ->
  exists r,
    removed = (acc ++ r)%list /\
    r `sublist_of` toRemove /\
    vocabulary.without fs (retention.Path <$> r) fs'.
Proof.
  induction toRemove as [|b rest IH]; intros fs fs' acc removed Hnd; simpl.
  - intros [= <- <-]. exists []. rewrite app_nil_r. split; [reflexivity|].
    split; [constructor|].
    unfold vocabulary.without. intros p. simpl.
    first [reflexivity | case_bool_decide as Hin; [inversion Hin | reflexivity]].
  - simpl in Hnd. apply NoDup_cons in Hnd as [Hb Hnd].
    destruct (os.Remove fs (retention.Path b)) as [fs1|] eqn:Er.
    + intros Hrun. destruct (IH _ _ _ _ Hnd Hrun) as (r & -> & Hsub & Hw).
      apply Remove_Some in Er as [Hfs1 _].
      exists (b :: r). rewrite <- app_assoc. split; [reflexivity|].
      split; [now constructor|].
      unfold vocabulary.without in *. intros p. rewrite (Hw p). subst fs1. simpl.
      destruct (decide (p = retention.Path b)) as [->|Hne].
      * rewrite lookup_delete_eq. rewrite (bool_decide_eq_true_2 (_ ∈ _ :: _)) by now left.
        now destruct (bool_decide _).
      * rewrite lookup_delete_ne by congruence.
        repeat case_bool_decide; try reflexivity; set_solver.
    + intros Hrun. destruct (IH _ _ _ _ Hnd Hrun) as (r & -> & Hsub & Hw).
      exists r. split; [reflexivity|]. split; [now apply sublist_cons | exact Hw].
Qed.

Lemma removeEach_frame (fs fs' : os.FS) (toRemove removed : retention.BackupFiles) :
  NoDup (retention.Path <$> toRemove) ->
  retention.removeEach fs toRemove [] = (removed, fs') ->
  removed `sublist_of` toRemove /\
  vocabulary.without fs (retention.Path <$> removed) fs'.
Proof.
  intros Hnd Hrun.
  destruct (removeEach_spec _ _ _ _ _ Hnd Hrun) as (r & -> & Hsub & Hw). auto.
Qed.

Lemma removeEach_acc (toRemove : retention.BackupFiles) :
  forall (fs : os.FS) (acc : retention.BackupFiles),
  retention.removeEach fs toRemove acc =
    ((acc ++ (retention.removeEach fs toRemove []).1)%list,
     (retention.removeEach fs toRemove []).2).
Proof.
  induction toRemove as [|b rest IH]; intros fs acc; simpl.
  - now rewrite app_nil_r.
  - destruct (os.Remove fs (retention.Path b)) as [fs1|]; [|apply IH].
    rewrite (IH fs1 (acc ++ [b])%list), (IH fs1 [b]). simpl. now rewrite <- app_assoc.
Qed.

(** The deletion loop on candidates none of which is an entry of another:
    a candidate is among those returned exactly when [os.Remove] succeeds
    on it, and whether it does can be read off the store the loop starts
    from. *)
Lemma removeEach_succeeded (toRemove : retention.BackupFiles) :
  forall (fs fs' : os.FS) (removed : retention.BackupFiles),
  NoDup (retention.Path <$> toRemove) ->
  (forall a b, a ∈ toRemove -> b ∈ toRemove ->
     os.childName (retention.Path a) (retention.Path b) = None) ->
  retention.removeEach fs toRemove [] = (removed, fs') ->
  forall b, b ∈ toRemove ->
    (b ∈ removed <-> os.Remove fs (retention.Path b) <> None).
Proof.
  induction toRemove as [|b rest IH]; intros fs fs' removed Hnd Hflat Hrun b' Hb'.
  - inversion Hb'.
  - simpl in Hnd. apply NoDup_cons in Hnd as [Hb Hnd].
    assert (Hflat' : forall a c, a ∈ rest -> c ∈ rest ->
              os.childName (retention.Path a) (retention.Path c) = None).
    { intros a c Ha Hc. apply Hflat; now right. }
    assert (Hrest : forall r, r `sublist_of` rest -> b ∉ r).
    { intros r Hsub Hin. apply Hb. apply list_elem_of_fmap_2.
      eapply elem_of_sublist; [exact Hin | exact Hsub]. }
    simpl in Hrun. destruct (os.Remove fs (retention.Path b)) as [fs1|] eqn:Er.
    + rewrite removeEach_acc in Hrun. simpl in Hrun.
      destruct (retention.removeEach fs1 rest []) as [r f] eqn:Erest.
      simpl in Hrun. injection Hrun as <- <-.
      apply elem_of_cons in Hb' as [->|Hb'].
      * split; [intros _; congruence | intros _; now left].
      * assert (Hne : retention.Path b' <> retention.Path b).
        { intros E. apply Hb. rewrite <- E. now apply list_elem_of_fmap_2. }
        apply Remove_Some in Er as [-> _].
        rewrite <- (Remove_after_delete fs _ _ Hne)
          by (apply Hflat; [now right | now left]).
        rewrite <- (IH _ _ _ Hnd Hflat' Erest b' Hb').
        rewrite elem_of_cons. split; [|auto].
        intros [->|Hin]; [contradiction | exact Hin].
    + destruct (removeEach_frame _ _ _ _ Hnd Hrun) as [Hsub _].
      apply elem_of_cons in Hb' as [->|Hb'].
      * split; [intros Hin; now apply Hrest in Hin | intros Hn; contradiction].
      * now apply (IH _ _ _ Hnd Hflat' Hrun).
Qed.

Lemma sublist_full {A} (l1 l2 : list A) :
  l1 `sublist_of` l2 -> (length l2 <= length l1)%nat -> l1 = l2.
Proof.
  induction 1 as [|x l1 l2 Hs IH|x l1 l2 Hs IH]; simpl; intros Hlen.
  - reflexivity.
  - f_equal. apply IH. lia.
  - apply sublist_length in Hs. lia.
Qed.

Lemma NoDup_fmap_eq {A B} (f : A -> B) (l : list A) (x y : A) :
  NoDup (f <$> l) -> x ∈ l -> y ∈ l -> f x = f y -> x = y.
Proof.
  induction l as [|a l IH]; simpl; intros Hnd Hx Hy E; [inversion Hx|].
  apply NoDup_cons in Hnd as [Ha Hnd].
  apply elem_of_cons in Hx as [->|Hx], Hy as [->|Hy]; auto.
  - exfalso. apply Ha. rewrite E. now apply list_elem_of_fmap_2.
  - exfalso. apply Ha. rewrite <- E. now apply list_elem_of_fmap_2.
Qed.

Lemma statAll_paths (fs : os.FS) (ms : list PathName) :
  (retention.Path <$> retention.statAll fs ms) `sublist_of` ms.
Proof.
  induction ms as [|p ms IH]; simpl; [constructor|].
  destruct (os.Stat fs p); simpl; [now constructor | now apply sublist_cons].
Qed.

Lemma statAll_info (fs : os.FS) (ms : list PathName) (b : retention.BackupFile) :
  b ∈ retention.statAll fs ms ->
  exists info, os.Stat fs (retention.Path b) = Some info /\
               retention.ModTime b = os.ModTime info /\
               retention.Size b = os.Size info.
Proof.
  unfold retention.statAll. rewrite list_elem_of_omap. intros (p & _ & Hb).
  destruct (os.Stat fs p) as [info|] eqn:Es; [|discriminate].
  injection Hb as <-. simpl. eauto.
Qed.

Section engine_facts.

Context {rt : retention.Runtime} {contract : vocabulary.SortContract rt}.

(** What [findBackups] returns: candidates with distinct paths, each with
    the modification time and size [os.Stat] reports, in the order of
    [sort.Sort]. *)
Lemma findBackups_candidates (o : retention.Options) (fs : os.FS)
    (candidates : retention.BackupFiles) :
  retention.findBackups o fs = Some candidates ->
  NoDup (retention.Path <$> candidates) /\
  StronglySorted vocabulary.inOrder candidates /\
  forall b, b ∈ candidates ->
    exists info, os.Stat fs (retention.Path b) = Some info /\
                 retention.ModTime b = os.ModTime info /\
                 retention.Size b = os.Size info.
Proof.
  unfold retention.findBackups.
  destruct (glob.Glob fs (retention.pattern o)) as [ms|] eqn:Eg; [|discriminate].
  intros [= <-]. split; [|split].
  - rewrite (vocabulary.sort_permutation (retention.statAll fs ms)).
    apply (sublist_NoDup _ ms); [eapply Glob_NoDup; exact Eg | apply statAll_paths].
  - apply vocabulary.sort_ordered.
  - intros b Hb. rewrite (vocabulary.sort_permutation _) in Hb.
    now apply statAll_info in Hb.
Qed.

(** The candidates lie at one depth: none is an entry of another. *)
Lemma findBackups_flat (o : retention.Options) (fs : os.FS)
    (candidates : retention.BackupFiles) :
  retention.findBackups o fs = Some candidates ->
  forall a b, a ∈ candidates -> b ∈ candidates ->
    os.childName (retention.Path a) (retention.Path b) = None.
Proof.
  unfold retention.findBackups.
  destruct (glob.Glob fs (retention.pattern o)) as [ms|] eqn:Eg; [|discriminate].
  intros [= <-].
  assert (Hdepth : forall b, b ∈ retention.sort_Sort (retention.statAll fs ms) ->
            length (retention.Path b).2 = length (retention.pattern o).2).
  { intros b Hb. rewrite (vocabulary.sort_permutation _) in Hb.
    apply (Glob_depth _ _ _ Eg).
    eapply elem_of_sublist; [|apply statAll_paths].
    apply list_elem_of_fmap_2, Hb. }
  intros a b Ha Hb.
  destruct (os.childName (retention.Path a) (retention.Path b)) as [name|] eqn:En;
    [|reflexivity].
  apply childName_depth in En. rewrite (Hdepth a Ha), (Hdepth b Hb) in En. lia.
Qed.

Lemma take_drop_order (candidates : retention.BackupFiles) (k : nat)
    (a b : retention.BackupFile) :
  StronglySorted vocabulary.inOrder candidates ->
  a ∈ take k candidates -> b ∈ drop k candidates ->
  retention.ModTime a <= retention.ModTime b.
Proof.
  intros Hs Ha Hb. rewrite <- (take_drop k candidates) in Hs.
  apply inOrder_le. eapply StronglySorted_app_1_elem_of; eauto.
Qed.

Lemma take_drop_disjoint (candidates : retention.BackupFiles) (k : nat)
    (b : retention.BackupFile) (r : retention.BackupFiles) :
  NoDup (retention.Path <$> candidates) ->
  r `sublist_of` take k candidates -> b ∈ drop k candidates ->
  retention.Path b ∉ retention.Path <$> r.
Proof.
  intros Hnd Hr Hb Hin.
  rewrite <- (take_drop k candidates), fmap_app in Hnd.
  apply NoDup_app in Hnd as (_ & Hdis & _).
  eapply Hdis; [|apply list_elem_of_fmap_2, Hb].
  apply list_elem_of_fmap in Hin as (c & -> & Hc).
  apply list_elem_of_fmap_2. eapply elem_of_sublist; eauto.
Qed.

End engine_facts.

Section retention_policies.

Context {rt : retention.Runtime} {contract : vocabulary.SortContract rt}.

Lemma without_nil (fs : os.FS) : vocabulary.without fs [] fs.
Proof.
  intros p. case_bool_decide as Hin; [inversion Hin | reflexivity].
Qed.

(** The deletion loop on candidates none of which is an entry of another:
    the candidates returned are, in order, those on which [os.Remove]
    succeeds. *)
Lemma removeEach_selected (fs fs' : os.FS) (toRemove removed : retention.BackupFiles) :
  NoDup (retention.Path <$> toRemove) ->
  (forall a b, a ∈ toRemove -> b ∈ toRemove ->
     os.childName (retention.Path a) (retention.Path b) = None) ->
  retention.removeEach fs toRemove [] = (removed, fs') ->
  removed `sublist_of` toRemove /\
  vocabulary.without fs (retention.Path <$> removed) fs' /\
  (forall b, b ∈ toRemove ->
     (b ∈ removed <-> os.Remove fs (retention.Path b) <> None)) /\
  ((forall b, b ∈ toRemove -> os.Remove fs (retention.Path b) <> None) ->
     removed = toRemove).
Proof.
  intros Hnd Hflat Hrun.
  destruct (removeEach_frame _ _ _ _ Hnd Hrun) as [Hsub Hw].
  pose proof (removeEach_succeeded _ _ _ _ Hnd Hflat Hrun) as Hiff.
  repeat split; auto; try (now apply Hiff).
  intros Hall. apply sublist_full; [exact Hsub|].
  apply submseteq_length, NoDup_submseteq.
  - now apply NoDup_fmap_1 in Hnd.
  - intros b Hb. apply Hiff; [exact Hb|]. now apply Hall.
Qed.

(** With a maximum count set, [Run] is the deletion loop on the first
    [count - N] candidates, whichever of its branches is taken. *)
Lemma Run_keep_last_N (o : retention.Options) (now : Z) (fs : os.FS)
    (N : Z) (candidates : retention.BackupFiles) :
  config.MaxBackups (retention.Retention o) = Some N ->
  0 <= N ->
  retention.findBackups o fs = Some candidates ->
  retention.Run o now fs =
    let run := retention.removeEach fs
                 (take (Z.to_nat (retention.Len candidates - N)) candidates) [] in
    Returned (None, run.1, run.2).
Proof.
  intros Hmax HN Hfind.
  unfold retention.Run, retention.HasRetention, config.HasMaxBackups.
  rewrite Hfind, Hmax. rewrite (bool_decide_eq_true_2 (Some N <> None)) by discriminate.
  simpl negb. cbv iota.
  destruct (Z.eqb_spec (retention.Len candidates) 0) as [Hz|Hnz].
  - destruct candidates; [now rewrite take_nil | discriminate].
  - unfold retention.cleanByCount.
    destruct (Z.ltb_spec (retention.Len candidates) N) as [Hlt|Hge].
    + replace (Z.to_nat (retention.Len candidates - N)) with 0%nat by lia.
      now rewrite take_0.
    + destruct (Z.ltb_spec (retention.Len candidates - N) 0) as [|_]; [lia|].
      destruct (Z.ltb_spec (retention.Len candidates) (retention.Len candidates - N))
        as [|_]; [lia|].
      simpl. now destruct (retention.removeEach _ _ _).
Qed.

(** C2, amended.  Under the keep-last-N policy the candidates, each with
    the modification time [os.Stat] reports for its path, are in ascending
    order of that time.  When there are at most N of them nothing is
    removed; otherwise the [count - N] oldest are selected and [os.Remove]
    is called on each, oldest first.  The candidates removed are, in that
    order, the selected ones on which the call succeeds: a candidate on
    which it fails is skipped and stays on disk.  The store loses exactly
    the removed paths, and the N newest candidates stay. *)
Theorem keep_last_N_removes_oldest (o : retention.Options) (now : Z) (fs : os.FS)
    (N : Z) (candidates : retention.BackupFiles) :
  config.MaxBackups (retention.Retention o) = Some N ->
  0 <= N ->
  retention.findBackups o fs = Some candidates ->
  let count := retention.Len candidates in
  let selected := take (Z.to_nat (count - N)) candidates in
  let kept := drop (Z.to_nat (count - N)) candidates in
  NoDup (retention.Path <$> candidates) /\
  (forall b, b ∈ candidates ->
     exists info, os.Stat fs (retention.Path b) = Some info /\
                  retention.ModTime b = os.ModTime info /\
                  retention.Size b = os.Size info) /\
  StronglySorted vocabulary.inOrder candidates /\
  exists removed fs',
    retention.Run o now fs = Returned (None, removed, fs') /\
    (count <= N -> removed = [] /\ fs' = fs) /\
    removed `sublist_of` selected /\
    (forall b, b ∈ selected ->
       (b ∈ removed <-> os.Remove fs (retention.Path b) <> None)) /\
    ((forall b, b ∈ selected -> os.Remove fs (retention.Path b) <> None) ->
       removed = selected) /\
    vocabulary.without fs (retention.Path <$> removed) fs' /\
    (forall b, b ∈ kept -> fs' !! retention.Path b = fs !! retention.Path b) /\
    (N < count -> length selected = Z.to_nat (count - N) /\ length kept = Z.to_nat N) /\
    (forall a b, a ∈ selected -> b ∈ kept -> retention.ModTime a <= retention.ModTime b).
Proof.
  intros Hmax HN Hfind count selected kept.
  destruct (findBackups_candidates _ _ _ Hfind) as (Hnd & Hsorted & Hinfo).
  split; [exact Hnd|]. split; [exact Hinfo|]. split; [exact Hsorted|].
  destruct (retention.removeEach fs selected []) as [removed fs'] eqn:Erun.
  assert (Hnds : NoDup (retention.Path <$> selected)).
  { unfold selected. rewrite fmap_take. eapply sublist_NoDup; [exact Hnd|].
    apply sublist_take. }
  assert (Hflat : forall a b, a ∈ selected -> b ∈ selected ->
            os.childName (retention.Path a) (retention.Path b) = None).
  { intros a b Ha Hb.
    apply (findBackups_flat _ _ _ Hfind); eapply elem_of_sublist; eauto using sublist_take. }
  destruct (removeEach_selected _ _ _ _ Hnds Hflat Erun) as (Hsub & Hw & Hiff & Hall).
  assert (Hsel : count <= N -> selected = []).
  { intros Hle. unfold selected.
    replace (Z.to_nat (count - N)) with 0%nat by lia. apply take_0. }
  exists removed, fs'. split; [|split; [|split; [|split; [|split; [|split; [|split; [|split]]]]]]].
  - rewrite (Run_keep_last_N _ now _ _ _ Hmax HN Hfind).
    cbv zeta. fold count. fold selected. now rewrite Erun.
  - intros Hle. rewrite (Hsel Hle) in Erun. simpl in Erun. now injection Erun as <- <-.
  - exact Hsub.
  - exact Hiff.
  - exact Hall.
  - exact Hw.
  - intros b Hb. rewrite (Hw _).
    rewrite bool_decide_eq_false_2; [reflexivity|].
    apply (take_drop_disjoint candidates (Z.to_nat (count - N)));
      [exact Hnd | exact Hsub | exact Hb].
  - intros Hlt. unfold selected, kept, count, retention.Len in *.
    rewrite length_take, length_drop. lia.
  - intros a b. now apply take_drop_order.
Qed.

Lemma cutoff_validated (now D : Z) :
  - 2 ^ 63 < D < 2 ^ 63 -> retention.cutoff now D = retention.AddDays now (- D).
Proof.
  intros HD. unfold retention.cutoff, retention.neg64. f_equal.
  rewrite Z.mod_small; lia.
Qed.

(** With only a number of days set, [Run] is the deletion loop on the
    candidates before the cutoff, whichever of its branches is taken. *)
Lemma Run_keep_younger (o : retention.Options) (now : Z) (fs : os.FS)
    (D : Z) (candidates : retention.BackupFiles) :
  config.MaxBackups (retention.Retention o) = None ->
  config.RetentionDays (retention.Retention o) = Some D ->
  retention.findBackups o fs = Some candidates ->
  retention.Run o now fs =
    let run := retention.removeEach fs
                 (List.filter (fun b => retention.Before (retention.ModTime b)
                                          (retention.cutoff now D)) candidates) [] in
    Returned (None, run.1, run.2).
Proof.
  intros Hmax Hdays Hfind.
  unfold retention.Run, retention.HasRetention, config.HasMaxBackups, config.HasRetentionDays.
  rewrite Hfind, Hmax, Hdays.
  rewrite (bool_decide_eq_true_2 (Some D <> None)) by discriminate.
  rewrite orb_true_r. simpl negb. cbv iota.
  destruct (Z.eqb_spec (retention.Len candidates) 0) as [Hz|Hnz].
  - destruct candidates; [reflexivity | discriminate].
  - unfold retention.cleanByDays. cbv zeta.
    set (selected := List.filter _ candidates).
    destruct (Z.leb_spec (retention.Len selected) 0) as [Hle|Hgt].
    + destruct selected; [reflexivity|].
      unfold retention.Len in Hle. simpl in Hle. lia.
    + now destruct (retention.removeEach _ _ _).
Qed.

(** C3, amended.  Under the keep-younger-than-D-days policy the cutoff is
    the current time moved by [-D] days with [AddDate]: in a location
    where every day has 24 hours, the instant [D] times 24 hours before
    the current time.  The candidates, each with the modification time
    [os.Stat] reports for its path, whose time is strictly before the
    cutoff are selected, and [os.Remove] is called on each in order.  The
    candidates removed are, in that order, the selected ones on which the
    call succeeds: a candidate on which it fails is skipped and stays on
    disk.  The store loses exactly the removed paths, a candidate at or
    after the cutoff stays, and nothing is removed when no candidate is
    before the cutoff. *)
Theorem keep_younger_than_D_removes_older (o : retention.Options) (now : Z) (fs : os.FS)
    (D : Z) (candidates : retention.BackupFiles) :
  config.MaxBackups (retention.Retention o) = None ->
  config.RetentionDays (retention.Retention o) = Some D ->
  retention.findBackups o fs = Some candidates ->
  let cutoff := retention.cutoff now D in
  let selected :=
    List.filter (fun b => retention.Before (retention.ModTime b) cutoff) candidates in
  (- 2 ^ 63 < D < 2 ^ 63 -> cutoff = retention.AddDays now (- D)) /\
  (- 2 ^ 63 < D < 2 ^ 63 ->
   (forall t days, retention.AddDays t days = t + days * (24 * 3600 * 1000000000)) ->
   cutoff = now - D * (24 * 3600 * 1000000000)) /\
  (forall b, b ∈ candidates ->
     exists info, os.Stat fs (retention.Path b) = Some info /\
                  retention.ModTime b = os.ModTime info /\
                  retention.Size b = os.Size info) /\
  (forall b, b ∈ selected <-> b ∈ candidates /\ retention.ModTime b < cutoff) /\
  exists removed fs',
    retention.Run o now fs = Returned (None, removed, fs') /\
    removed `sublist_of` selected /\
    (forall b, b ∈ selected ->
       (b ∈ removed <-> os.Remove fs (retention.Path b) <> None)) /\
    ((forall b, b ∈ selected -> os.Remove fs (retention.Path b) <> None) ->
       removed = selected) /\
    vocabulary.without fs (retention.Path <$> removed) fs' /\
    (forall b, b ∈ candidates -> cutoff <= retention.ModTime b ->
       (b ∉ removed) /\ fs' !! retention.Path b = fs !! retention.Path b) /\
    (selected = [] -> removed = [] /\ fs' = fs).
Proof.
  intros Hmax Hdays Hfind cutoff selected.
  destruct (findBackups_candidates _ _ _ Hfind) as (Hnd & _ & Hinfo).
  split; [apply cutoff_validated|].
  split; [intros HD Hday; unfold cutoff; rewrite cutoff_validated, Hday by exact HD; lia|].
  split; [exact Hinfo|].
  assert (Hsel : forall b, b ∈ selected <-> b ∈ candidates /\ retention.ModTime b < cutoff).
  { intros b. unfold selected. rewrite !list_elem_of_In, filter_In.
    unfold retention.Before. rewrite Z.ltb_lt. reflexivity. }
  split; [exact Hsel|].
  assert (Hsubc : selected `sublist_of` candidates).
  { unfold selected. clear. induction candidates as [|c l IH]; simpl; [constructor|].
    destruct (retention.Before _ _); [now constructor | now apply sublist_cons]. }
  assert (Hnds : NoDup (retention.Path <$> selected)).
  { eapply sublist_NoDup; [exact Hnd|]. now apply fmap_sublist. }
  assert (Hflat : forall a b, a ∈ selected -> b ∈ selected ->
            os.childName (retention.Path a) (retention.Path b) = None).
  { intros a b Ha Hb.
    apply (findBackups_flat _ _ _ Hfind); eapply elem_of_sublist; eauto. }
  destruct (retention.removeEach fs selected []) as [removed fs'] eqn:Erun.
  destruct (removeEach_selected _ _ _ _ Hnds Hflat Erun) as (Hsub & Hw & Hiff & Hall).
  exists removed, fs'. split; [|split; [|split; [|split; [|split; [|split]]]]].
  - rewrite (Run_keep_younger _ now _ _ _ Hmax Hdays Hfind).
    cbv zeta. fold cutoff. fold selected. now rewrite Erun.
  - exact Hsub.
  - exact Hiff.
  - exact Hall.
  - exact Hw.
  - intros b Hb Hle. split.
    + intros Hin. eapply elem_of_sublist in Hin; [|exact Hsub].
      apply Hsel in Hin. lia.
    + rewrite (Hw _). rewrite bool_decide_eq_false_2; [reflexivity|].
      intros Hin. apply list_elem_of_fmap in Hin as (c & Hp & Hc).
      eapply elem_of_sublist in Hc; [|exact Hsub].
      apply Hsel in Hc as [Hc Hlt].
      assert (c = b); [|subst c; lia].
      apply (NoDup_fmap_eq retention.Path candidates); auto.
  - intros E. rewrite E in Erun. simpl in Erun. now injection Erun as <- <-.
Qed.

End retention_policies.

(** *** The policies on concrete stores *)

Lemma utc_contract : vocabulary.SortContract scenario.utc.
Proof.
  assert (Htrans : Transitive scenario.older_eq)
    by (intros a b c; unfold scenario.older_eq; lia).
  assert (Htotal : Total scenario.older_eq)
    by (intros a b; unfold scenario.older_eq; lia).
  split; simpl.
  - intros l. apply merge_sort_Permutation.
  - intros l.
    pose proof (StronglySorted_merge_sort scenario.older_eq l) as Hs.
    induction Hs as [|a l' Hs IH Hall]; constructor; [exact IH|].
    eapply Forall_impl; [exact Hall|]. intros b Hab. now apply inOrder_le.
Qed.

(** C2, the store on which the claim fails: three candidates and N = 2, the
    oldest candidate is a directory that is not empty; its deletion fails
    and nothing is removed, where the claim has one candidate removed. *)
Lemma keep_last_N_skips_failed_deletion :
  match retention.findBackups (rt := scenario.utc)
          (scenario.engine (scenario.keepLast 2)) scenario.withDirectory with
  | Some candidates =>
      retention.Path <$> candidates =
        [(true, ["backups"; "app-2023.sql.gz.d"]);
         (true, ["backups"; "app-0002.sql.gz"]);
         (true, ["backups"; "app-0003.sql.gz"])]
  | None => False
  end /\
  match retention.Run (rt := scenario.utc) (scenario.engine (scenario.keepLast 2))
          (6 * scenario.day) scenario.withDirectory with
  | Returned (err, removed, fs') =>
      removed = [] /\ is_Some (fs' !! (true, ["backups"; "app-2023.sql.gz.d"]))
  | Panicked => False
  end.
Proof.
  split; vm_compute; [reflexivity|]. split; [reflexivity | eexists; reflexivity].
Qed.

(** [os.Remove] succeeds on a path of a concrete store. *)
Ltac remove_succeeds :=
  match goal with
  | |- os.Remove ?fs ?p <> None =>
      let H := fresh in
      assert (H : match os.Remove fs p with Some _ => true | None => false end = true)
        by (vm_compute; reflexivity);
      destruct (os.Remove fs p); [discriminate | discriminate H]
  end.

(** Five backups and N = 3: the two oldest are removed, oldest first, and
    the three newest remain. *)
Lemma keep_last_N_witness :
  let backup (name : string) (d : Z) :=
    {| retention.Path := (true, ["backups"; name]);
       retention.ModTime := d * scenario.day; retention.Size := 100 |} in
  let candidates :=
    [backup "app-0001.sql.gz" 1; backup "app-0002.sql.gz" 2; backup "app-0003.sql.gz" 3;
     backup "app-0004.sql.gz" 4; backup "app-0005.sql.gz" 5] in
  exists removed fs',
    retention.findBackups (rt := scenario.utc)
      (scenario.engine (scenario.keepLast 3)) scenario.five = Some candidates /\
    retention.Run (rt := scenario.utc) (scenario.engine (scenario.keepLast 3))
      (6 * scenario.day) scenario.five = Returned (None, removed, fs') /\
    removed = [backup "app-0001.sql.gz" 1; backup "app-0002.sql.gz" 2] /\
    fs' !! (true, ["backups"; "app-0001.sql.gz"]) = None /\
    fs' !! (true, ["backups"; "app-0002.sql.gz"]) = None /\
    fs' !! (true, ["backups"; "app-0003.sql.gz"]) = Some (scenario.file 100 (3 * scenario.day)) /\
    fs' !! (true, ["backups"; "app-0004.sql.gz"]) = Some (scenario.file 100 (4 * scenario.day)) /\
    fs' !! (true, ["backups"; "app-0005.sql.gz"]) = Some (scenario.file 100 (5 * scenario.day)).
Proof.
  intros backup candidates.
  assert (E : retention.findBackups (rt := scenario.utc)
                (scenario.engine (scenario.keepLast 3)) scenario.five = Some candidates)
    by (vm_compute; reflexivity).
  destruct (keep_last_N_removes_oldest (rt := scenario.utc) (contract := utc_contract)
              (scenario.engine (scenario.keepLast 3)) (6 * scenario.day) scenario.five
              3 candidates eq_refl ltac:(lia) E)
    as (_ & _ & _ & removed & fs' & Hrun & _ & _ & _ & Hall & Hw & _).
  exists removed, fs'. split; [exact E|]. split; [exact Hrun|].
  assert (Hrem : removed = [backup "app-0001.sql.gz" 1; backup "app-0002.sql.gz" 2]).
  { apply Hall. intros b Hb.
    change (b ∈ [backup "app-0001.sql.gz" 1; backup "app-0002.sql.gz" 2]) in Hb.
    apply elem_of_cons in Hb as [->|Hb]; [remove_succeeds|].
    apply elem_of_cons in Hb as [->|Hb]; [remove_succeeds | inversion Hb]. }
  split; [exact Hrem|]. unfold vocabulary.without in Hw.
  rewrite !Hw, Hrem. repeat split; vm_compute; reflexivity.
Defined.

Example keep_last_3_of_5 :
  match retention.Run (rt := scenario.utc) (scenario.engine (scenario.keepLast 3))
          (6 * scenario.day) scenario.five with
  | Returned (err, removed, fs') =>
      err = None /\
      retention.Path <$> removed =
        [(true, ["backups"; "app-0001.sql.gz"]); (true, ["backups"; "app-0002.sql.gz"])] /\
      (fun name => bool_decide (is_Some (fs' !! (true, ["backups"; name])))) <$>
        ["app-0001.sql.gz"; "app-0002.sql.gz"; "app-0003.sql.gz"; "app-0004.sql.gz";
         "app-0005.sql.gz"]
      = [false; false; true; true; true]
  | Panicked => False
  end.
Proof. vm_compute. repeat split. Qed.

(** C3, the store on which the claim fails: on day 30 with D = 7 the three
    candidates are all before the cutoff; the directory, which is not
    empty, is not removed, where the claim has all three removed. *)
Lemma keep_younger_skips_failed_deletion :
  match retention.findBackups (rt := scenario.utc)
          (scenario.engine (scenario.keepDays 7)) scenario.withDirectory with
  | Some candidates =>
      forallb (fun b => retention.Before (retention.ModTime b)
                          (retention.cutoff (rt := scenario.utc) (30 * scenario.day) 7))
              candidates = true /\
      length candidates = 3%nat
  | None => False
  end /\
  match retention.Run (rt := scenario.utc) (scenario.engine (scenario.keepDays 7))
          (30 * scenario.day) scenario.withDirectory with
  | Returned (err, removed, fs') =>
      retention.Path <$> removed =
        [(true, ["backups"; "app-0002.sql.gz"]); (true, ["backups"; "app-0003.sql.gz"])] /\
      is_Some (fs' !! (true, ["backups"; "app-2023.sql.gz.d"]))
  | Panicked => False
  end.
Proof.
  split.
  - vm_compute. split; reflexivity.
  - vm_compute. split; [reflexivity | eexists; reflexivity].
Qed.

(** On day 20 with D = 7 in the UTC location the cutoff is the instant at
    which day 13 begins: the backup written a nanosecond before it is
    removed, the backup written at that instant and the one of day 19
    remain. *)
Lemma keep_younger_witness :
  let backup (name : string) (t : Z) :=
    {| retention.Path := (true, ["backups"; name]);
       retention.ModTime := t; retention.Size := 100 |} in
  let candidates :=
    [backup "app-0012.sql.gz" (13 * scenario.day - 1);
     backup "app-0013.sql.gz" (13 * scenario.day);
     backup "app-0019.sql.gz" (19 * scenario.day)] in
  exists removed fs',
    retention.findBackups (rt := scenario.utc)
      (scenario.engine (scenario.keepDays 7)) scenario.atCutoff = Some candidates /\
    retention.cutoff (rt := scenario.utc) (20 * scenario.day) 7 = 13 * scenario.day /\
    retention.Run (rt := scenario.utc) (scenario.engine (scenario.keepDays 7))
      (20 * scenario.day) scenario.atCutoff = Returned (None, removed, fs') /\
    removed = [backup "app-0012.sql.gz" (13 * scenario.day - 1)] /\
    fs' !! (true, ["backups"; "app-0012.sql.gz"]) = None /\
    fs' !! (true, ["backups"; "app-0013.sql.gz"]) = Some (scenario.file 100 (13 * scenario.day)) /\
    fs' !! (true, ["backups"; "app-0019.sql.gz"]) = Some (scenario.file 100 (19 * scenario.day)).
Proof.
  intros backup candidates.
  assert (E : retention.findBackups (rt := scenario.utc)
                (scenario.engine (scenario.keepDays 7)) scenario.atCutoff = Some candidates)
    by (vm_compute; reflexivity).
  destruct (keep_younger_than_D_removes_older (rt := scenario.utc) (contract := utc_contract)
              (scenario.engine (scenario.keepDays 7)) (20 * scenario.day)
              scenario.atCutoff 7 candidates eq_refl eq_refl E)
    as (_ & Hcut & _ & _ & removed & fs' & Hrun & _ & _ & Hall & Hw & Hkept & _).
  specialize (Hcut ltac:(lia) ltac:(intros t days; reflexivity)).
  assert (Hday : retention.cutoff (rt := scenario.utc) (20 * scenario.day) 7
                 = 13 * scenario.day)
    by (rewrite Hcut; reflexivity).
  clear Hcut.
  exists removed, fs'. split; [exact E|].
  split; [exact Hday|].
  split; [exact Hrun|].
  assert (Hrem : removed = [backup "app-0012.sql.gz" (13 * scenario.day - 1)]).
  { apply Hall. intros b Hb.
    change (b ∈ [backup "app-0012.sql.gz" (13 * scenario.day - 1)]) in Hb.
    apply elem_of_cons in Hb as [->|Hb]; [remove_succeeds | inversion Hb]. }
  split; [exact Hrem|]. split; [|split].
  - unfold vocabulary.without in Hw. rewrite Hw, Hrem. vm_compute; reflexivity.
  - assert (H : fs' !! (true, ["backups"; "app-0013.sql.gz"]) =
                 scenario.atCutoff !! (true, ["backups"; "app-0013.sql.gz"])).
    { apply (Hkept (backup "app-0013.sql.gz" (13 * scenario.day))); [right; left|].
      rewrite Hday. simpl. lia. }
    rewrite H. vm_compute; reflexivity.
  - assert (H : fs' !! (true, ["backups"; "app-0019.sql.gz"]) =
                 scenario.atCutoff !! (true, ["backups"; "app-0019.sql.gz"])).
    { apply (Hkept (backup "app-0019.sql.gz" (19 * scenario.day))); [right; right; left|].
      rewrite Hday. simpl. vm_compute. discriminate. }
    rewrite H. vm_compute; reflexivity.
Defined.

(** The oldest of three backups cannot be unlinked: with N = 1 the two
    oldest are selected and the second alone is removed. *)
Example keep_last_N_skips_immutable_file :
  match retention.Run (rt := scenario.utc) (scenario.engine (scenario.keepLast 1))
          (6 * scenario.day) scenario.withImmutable with
  | Returned (err, removed, fs') =>
      err = None /\
      retention.Path <$> removed = [(true, ["backups"; "app-0002.sql.gz"])] /\
      (fun name => bool_decide (is_Some (fs' !! (true, ["backups"; name])))) <$>
        ["app-0001.sql.gz"; "app-0002.sql.gz"; "app-0003.sql.gz"]
      = [true; false; true]
  | Panicked => False
  end.
Proof. vm_compute. repeat split. Qed.

Example keep_7_days_of_10_and_1 :
  match retention.Run (rt := scenario.utc) (scenario.engine (scenario.keepDays 7))
          (20 * scenario.day) scenario.tenAndOne with
  | Returned (err, removed, fs') =>
      err = None /\
      retention.Path <$> removed = [(true, ["backups"; "app-0010.sql.gz"])] /\
      is_Some (fs' !! (true, ["backups"; "app-0019.sql.gz"]))
  | Panicked => False
  end.
Proof. vm_compute. split; [reflexivity|]. split; [reflexivity | eexists; reflexivity]. Qed.

(** The witness of C6: the restore command of another process holds the
    lock. *)
Lemma fire_skipped_witness :
  let s := {| scheduler.backupSvc := scenario.producer (scenario.keepLast 3);
              scheduler.runningJobs := 0;
              scheduler.locker := {| flock.l := false; flock.heldElsewhere := true;
                                     flock.openable := true |};
              scheduler.files := scenario.five;
              scheduler.trace := [] |} in
  scheduler.runLocalBackup (codec := scenario.codec) (rt := scenario.utc)
    s (scenario.dumpOk (bytes "data")) (6 * scenario.day) = Returned s.
Proof.
  intros s.
  exact (proj1 (fire_skipped_while_restore_lock_held (codec := scenario.codec)
                  (rt := scenario.utc) s (scenario.dumpOk (bytes "data"))
                  (6 * scenario.day) eq_refl)).
Defined.
(** ** Patterns without magic characters *)

Lemma plainByte_cases (c : ascii) :
  vocabulary.plainByte c = true ->
  Ascii.eqb c "\" = false /\ Ascii.eqb c "[" = false /\ Ascii.eqb c "]" = false /\
  Ascii.eqb c "*" = false /\ Ascii.eqb c "?" = false.
Proof.
  unfold vocabulary.plainByte, filepath.isMeta.
  destruct (Ascii.eqb c "*"), (Ascii.eqb c "?"), (Ascii.eqb c "["), (Ascii.eqb c "\"),
    (Ascii.eqb c "]"); simpl; intros; try discriminate; auto.
Qed.

Lemma stripPrefix_Some (chunk s t : list ascii) :
  vocabulary.stripPrefix chunk s = Some t <-> s = (chunk ++ t)%list.
Proof.
  revert s. induction chunk as [|c chunk IH]; intros s; simpl.
  - split; congruence.
  - destruct s as [|x s]; [split; discriminate|].
    destruct (Ascii.eqb_spec x c) as [->|Hne].
    + rewrite IH. split; congruence.
    + split; [discriminate | congruence].
Qed.

Lemma scanUntilStar_plain (l rest : list ascii) :
  Forall (fun c => vocabulary.plainByte c = true) l ->
  filepath.scanUntilStar false (l ++ "*"%char :: rest) = (l, "*"%char :: rest).
Proof.
  induction 1 as [|c l Hc _ IH]; simpl.
  - reflexivity.
  - destruct (plainByte_cases c Hc) as (-> & -> & -> & -> & _). simpl.
    now rewrite IH.
Qed.

Lemma stripStars_plain (c : ascii) (l : list ascii) :
  Ascii.eqb c "*" = false -> filepath.stripStars (c :: l) = (false, c :: l).
Proof. intros E. simpl. now rewrite E. Qed.

Lemma matchChunkLoop_plain (chunk : list ascii) :
  Forall (fun c => vocabulary.plainByte c = true) chunk ->
  forall (fuel : nat) (s : list ascii) (failed : bool),
  (length chunk < fuel)%nat ->
  filepath.matchChunkLoop fuel chunk s failed =
    Some (if failed then None else vocabulary.stripPrefix chunk s).
Proof.
  induction 1 as [|c chunk Hc _ IH]; intros fuel s failed Hfuel.
  - destruct fuel; [simpl in Hfuel; lia|]. simpl. now destruct failed.
  - destruct fuel; [simpl in Hfuel; lia|]. simpl in Hfuel.
    destruct (plainByte_cases c Hc) as (Eb & El & _ & _ & Eq).
    cbn [filepath.matchChunkLoop]. rewrite El, Eq, Eb.
    rewrite IH by lia.
    destruct failed; [reflexivity|]. rewrite orb_false_l.
    destruct s as [|x s].
    + reflexivity.
    + rewrite (bool_decide_eq_false_2 (x :: s = [])) by discriminate.
      cbn [orb head tail vocabulary.stripPrefix].
      destruct (Ascii.eqb_spec x c) as [->|Hne].
      * now rewrite (bool_decide_eq_true_2 (Some c = Some c)) by reflexivity.
      * now rewrite (bool_decide_eq_false_2 (Some x = Some c)) by congruence.
Qed.

Lemma checkRest_not_true (fuel : nat) (pattern : list ascii) :
  filepath.checkRest fuel pattern <> Some true.
Proof.
  revert pattern. induction fuel as [|fuel IH]; intros pattern; simpl; [discriminate|].
  destruct pattern; [discriminate|].
  destruct (filepath.scanChunk _) as [[star chunk] rest].
  destruct (filepath.matchChunk chunk []); [apply IH | discriminate].
Qed.

Lemma scanChunk_plain (c : ascii) (l rest : list ascii) :
  Forall (fun c => vocabulary.plainByte c = true) (c :: l) ->
  filepath.scanChunk (c :: l ++ "*"%char :: rest) = (false, c :: l, "*"%char :: rest).
Proof.
  intros Hplain. unfold filepath.scanChunk.
  inversion Hplain as [|? ? Hc Hl]; subst.
  destruct (plainByte_cases c Hc) as (_ & _ & _ & Es & _).
  rewrite (stripStars_plain c _ Es).
  change (c :: (l ++ "*"%char :: rest))%list with ((c :: l) ++ "*"%char :: rest)%list.
  now rewrite scanUntilStar_plain.
Qed.

Lemma MatchLoop_literal_prefix (fuel : nat) (lit rest name : list ascii) :
  Forall (fun c => vocabulary.plainByte c = true) lit ->
  lit <> [] ->
  filepath.MatchLoop (S fuel) (lit ++ "*"%char :: rest) name = Some true ->
  exists t, name = (lit ++ t)%list.
Proof.
  intros Hplain Hne. destruct lit as [|c l]; [congruence|].
  change ((c :: l) ++ "*"%char :: rest)%list with (c :: (l ++ "*"%char :: rest))%list.
  cbn [filepath.MatchLoop]. rewrite (scanChunk_plain c l rest Hplain). cbn [andb].
  unfold filepath.matchChunk. rewrite (matchChunkLoop_plain _ Hplain) by lia.
  destruct (vocabulary.stripPrefix (c :: l) name) as [t|] eqn:Es.
  - intros _. apply stripPrefix_Some in Es. now exists t.
  - intros Hc. now apply checkRest_not_true in Hc.
Qed.

(** A pattern that starts with literal bytes up to its first star matches
    only names that start with these bytes. *)
Lemma Match_literal_prefix (lit rest : string) (name : string) :
  Forall (fun c => vocabulary.plainByte c = true) (bytes lit) ->
  lit <> "" ->
  filepath.Match (lit ++ "*" ++ rest) name = Some true ->
  exists r, name = lit ++ r.
Proof.
  intros Hplain Hne. unfold filepath.Match.
  rewrite !bytes_app. change (bytes "*") with ["*"%char].
  change (["*"%char] ++ bytes rest)%list with ("*"%char :: bytes rest).
  intros HM. apply MatchLoop_literal_prefix in HM as [t Ht]; [|assumption|].
  - exists (of_bytes t). apply bytes_inj. now rewrite bytes_app, bytes_of_bytes.
  - intros E. apply Hne. apply bytes_inj. now rewrite E.
Qed.


(** ** [Clean] and [Join] on a directory and a file name *)

Lemma split_sep_nonempty (l : list ascii) : filepath.split_sep l <> [].
Proof.
  destruct l as [|c l]; simpl; [discriminate|].
  destruct (Ascii.eqb c filepath.Separator); [discriminate|].
  destruct (filepath.split_sep l); discriminate.
Qed.

Lemma split_sep_app (a b : list ascii) :
  filepath.split_sep (a ++ filepath.Separator :: b) =
    (filepath.split_sep a ++ filepath.split_sep b)%list.
Proof.
  induction a as [|c a IH]; simpl.
  - reflexivity.
  - destruct (Ascii.eqb c filepath.Separator); rewrite IH; [reflexivity|].
    pose proof (split_sep_nonempty a) as Hne.
    destruct (filepath.split_sep a); [congruence | reflexivity].
Qed.

Lemma split_sep_plain (l : list ascii) :
  Forall (fun c => Ascii.eqb c filepath.Separator = false) l -> filepath.split_sep l = [l].
Proof.
  induction 1 as [|c l Hc _ IH]; simpl; [reflexivity|]. now rewrite Hc, IH.
Qed.

Lemma split_sep_Forall (P : ascii -> Prop) (l : list ascii) :
  Forall P l -> Forall (Forall P) (filepath.split_sep l).
Proof.
  induction 1 as [|c l Hc _ IH]; simpl.
  - repeat constructor.
  - destruct (Ascii.eqb c filepath.Separator); [constructor; [constructor | exact IH]|].
    destruct (filepath.split_sep l) as [|x xs]; [repeat constructor; exact Hc|].
    inversion IH; subst. constructor; [now constructor | assumption].
Qed.

Lemma step_Forall (P : string -> Prop) (rooted : bool) (stack : list string) (e : string) :
  P e -> Forall P stack -> Forall P (filepath.step rooted stack e).
Proof.
  intros He Hs. unfold filepath.step.
  destruct (_ || _); [exact Hs|].
  destruct (String.eqb e "..").
  - destruct stack as [|top below].
    + destruct rooted; repeat constructor; exact He.
    + destruct (String.eqb top ".."); [now constructor | now inversion Hs].
  - now constructor.
Qed.

Lemma fold_step_Forall (P : string -> Prop) (rooted : bool) (l stack : list string) :
  Forall P l -> Forall P stack -> Forall P (fold_left (filepath.step rooted) l stack).
Proof.
  intros Hl. revert stack. induction Hl as [|e l He _ IH]; simpl; intros stack Hs.
  - exact Hs.
  - apply IH. now apply step_Forall.
Qed.

(** The elements of a cleaned path hold only bytes of the path. *)
Lemma Clean_Forall (P : ascii -> Prop) (path : string) :
  Forall P (bytes path) ->
  Forall (fun e => Forall P (bytes e)) (filepath.Clean path).2.
Proof.
  intros Hp. unfold filepath.Clean. simpl. apply Forall_rev.
  apply fold_step_Forall; [|constructor].
  apply Forall_fmap. eapply Forall_impl; [apply split_sep_Forall, Hp|].
  intros piece Hpiece. simpl. now rewrite bytes_of_bytes.
Qed.

(** A name without a separator that is neither empty nor a dot name. *)
Lemma Join_child (dir file : string) :
  Forall (fun c => Ascii.eqb c filepath.Separator = false) (bytes file) ->
  file <> "" -> file <> "." -> file <> ".." ->
  filepath.Join dir file = filepath.child (filepath.Clean dir) file.
Proof.
  intros Hplain H0 H1 H2.
  assert (Hstep : forall rooted stack, filepath.step rooted stack file = file :: stack).
  { intros rooted stack. unfold filepath.step.
    rewrite (proj2 (String.eqb_neq _ _) H0), (proj2 (String.eqb_neq _ _) H1),
      (proj2 (String.eqb_neq _ _) H2). reflexivity. }
  unfold filepath.Join.
  destruct (String.eqb_spec dir "") as [->|Hd].
  - unfold filepath.Clean, filepath.child. simpl.
    rewrite (split_sep_plain _ Hplain). simpl. rewrite of_bytes_bytes, Hstep. simpl.
    f_equal. unfold HasPrefix. apply bool_decide_eq_false_2. intros [k Hk].
    destruct (bytes file) as [|c l] eqn:Eb.
    + apply H0. apply bytes_inj. now rewrite Eb.
    + simpl in Hk. inversion Hk; subst. inversion Hplain; subst. discriminate.
  - rewrite (proj2 (String.eqb_neq _ _) H0).
    assert (Hroot : HasPrefix (dir ++ "/" ++ file) "/" = HasPrefix dir "/").
    { unfold HasPrefix. rewrite !bytes_app. change (bytes "/") with [filepath.Separator].
      destruct (bytes dir) as [|c l] eqn:Eb.
      - exfalso. apply Hd. apply bytes_inj. now rewrite Eb.
      - simpl. apply bool_decide_ext. split; intros [k Hk]; inversion Hk; subst.
        + now exists l.
        + eexists. reflexivity. }
    unfold filepath.Clean, filepath.child. rewrite Hroot. simpl fst. simpl snd.
    rewrite !bytes_app. change (bytes "/") with [filepath.Separator].
    change ([filepath.Separator] ++ bytes file)%list with (filepath.Separator :: bytes file).
    rewrite split_sep_app, (split_sep_plain _ Hplain), fmap_app, fold_left_app.
    simpl. now rewrite of_bytes_bytes, Hstep.
Qed.

(** ** What a retention run can delete *)

Lemma nameChar_plain (c : ascii) :
  config.isNameChar c = true ->
  vocabulary.plainByte c = true /\ Ascii.eqb c filepath.Separator = false /\
  Ascii.eqb c "." = false.
Proof.
  destruct c as [[] [] [] [] [] [] [] []]; vm_compute; intros; try discriminate; auto.
Qed.

Lemma validName_bytes (name : string) :
  config.isValidPostgresName name = true ->
  exists c rest, bytes name = c :: rest /\ Forall (fun c => config.isNameChar c = true) (c :: rest).
Proof.
  unfold config.isValidPostgresName. destruct (_ <? _)%nat; [discriminate|].
  destruct (bytes name) as [|c rest]; [discriminate|].
  intros H. apply andb_true_iff in H as [Hc Hrest]. exists c, rest. split; [reflexivity|].
  constructor.
  - unfold config.isNameChar. now rewrite Hc.
  - apply Forall_forall. intros x Hx. rewrite forallb_forall in Hrest.
    apply Hrest. now apply list_elem_of_In.
Qed.

Lemma Glob_plain_dir (fs : os.FS) (d : PathName) (file : string) (ms : list PathName) :
  glob.hasMetaElems d.2 = false ->
  filepath.hasMeta file = true ->
  glob.Glob fs (filepath.child d file) = Some ms ->
  glob.glob fs d file = Some ms.
Proof.
  intros Hd Hf. unfold glob.Glob. destruct (forallb _ _); [|discriminate].
  unfold filepath.child. simpl fst. simpl snd. rewrite rev_unit, globRev_cons.
  assert (Hrev : glob.hasMetaElems (rev d.2) = false).
  { unfold glob.hasMetaElems in *. apply not_true_iff_false. intros H.
    apply existsb_exists in H as (e & He & Hm). apply in_rev in He.
    apply not_true_iff_false in Hd. apply Hd. apply existsb_exists. eauto. }
  assert (Hall : glob.hasMetaElems (file :: rev d.2) = true).
  { unfold glob.hasMetaElems. simpl. now rewrite Hf. }
  rewrite Hall, Hrev. simpl negb. cbv iota. rewrite rev_involutive.
  destruct d as [rooted elems]. simpl.
  destruct (glob.glob fs (rooted, elems) file) as [ms0|]; simpl; [|discriminate].
  now rewrite app_nil_r.
Qed.

Section retention_scope.

Context {rt : retention.Runtime} {contract : vocabulary.SortContract rt}.

(** Whatever the policy, a run that returns has removed candidates of
    [findBackups] and nothing else; it panics only on a negative maximum
    count. *)
Lemma Run_removes_candidates (o : retention.Options) (now : Z) (fs : os.FS) :
  match retention.Run o now fs with
  | Returned (err, removed, fs') =>
      vocabulary.without fs (retention.Path <$> removed) fs' /\
      forall b, b ∈ removed ->
        exists candidates, retention.findBackups o fs = Some candidates /\ b ∈ candidates
  | Panicked =>
      exists N, config.MaxBackups (retention.Retention o) = Some N /\ N < 0
  end.
Proof.
  assert (Hnone : vocabulary.without fs (retention.Path <$> []) fs /\
                  forall b : retention.BackupFile, b ∈ [] ->
                    exists candidates, retention.findBackups o fs = Some candidates /\
                                       b ∈ candidates).
  { split; [apply without_nil | intros b Hb; inversion Hb]. }
  assert (Hloop : forall candidates selected removed fs',
            retention.findBackups o fs = Some candidates ->
            selected `sublist_of` candidates ->
            retention.removeEach fs selected [] = (removed, fs') ->
            vocabulary.without fs (retention.Path <$> removed) fs' /\
            forall b, b ∈ removed ->
              exists candidates, retention.findBackups o fs = Some candidates /\
                                 b ∈ candidates).
  { intros candidates selected removed fs' Hfind Hsel Hrun.
    destruct (findBackups_candidates _ _ _ Hfind) as (Hnd & _ & _).
    assert (Hnds : NoDup (retention.Path <$> selected)).
    { eapply sublist_NoDup; [exact Hnd|]. now apply fmap_sublist. }
    destruct (removeEach_spec _ _ _ _ _ Hnds Hrun) as (r & -> & Hsub & Hw).
    simpl. split; [exact Hw|]. intros b Hb. exists candidates. split; [exact Hfind|].
    eapply elem_of_sublist; [exact Hb|]. now transitivity selected. }
  unfold retention.Run. destruct (negb _); [exact Hnone|].
  destruct (retention.findBackups o fs) as [candidates|] eqn:Hfind; [|exact Hnone].
  destruct (retention.Len candidates =? 0); [exact Hnone|].
  destruct (config.MaxBackups (retention.Retention o)) as [N|].
  - unfold retention.cleanByCount.
    destruct (Z.ltb_spec (retention.Len candidates) N) as [Hlt|Hge]; [exact Hnone|].
    cbv zeta.
    destruct (Z.ltb_spec (retention.Len candidates - N) 0) as [Hneg|Hpos]; simpl orb.
    { exists N. unfold retention.Len in *. split; [reflexivity | lia]. }
    destruct (Z.ltb_spec (retention.Len candidates) (retention.Len candidates - N))
      as [Hbig|Hfit].
    { exists N. split; [reflexivity | lia]. }
    destruct (retention.removeEach fs _ []) as [removed fs'] eqn:Erun.
    eapply Hloop; [reflexivity | apply sublist_take | exact Erun].
  - destruct (config.RetentionDays (retention.Retention o)) as [D|]; [|exact Hnone].
    unfold retention.cleanByDays. cbv zeta.
    destruct (retention.Len _ <=? 0); [exact Hnone|].
    destruct (retention.removeEach fs _ []) as [removed fs'] eqn:Erun.
    eapply Hloop; [reflexivity | | exact Erun].
    clear. induction candidates as [|c l IH]; simpl; [constructor|].
    destruct (retention.Before _ _); [now constructor | now apply sublist_cons].
Qed.

(** The pattern of [findBackups] for a validated database name, in a
    directory whose name has no magic character. *)
Lemma pattern_plain (o : retention.Options) :
  config.isValidPostgresName (retention.DatabaseName o) = true ->
  retention.pattern o =
    filepath.child (filepath.Clean (retention.OutputDir o))
      (retention.DatabaseName o ++ "-*.sql.gz*") /\
  filepath.hasMeta (retention.DatabaseName o ++ "-*.sql.gz*") = true /\
  Forall (fun c => vocabulary.plainByte c = true) (bytes (retention.DatabaseName o ++ "-")) /\
  retention.DatabaseName o ++ "-" <> "".
Proof.
  intros Hvalid. destruct (validName_bytes _ Hvalid) as (c & rest & Eb & Hchars).
  set (db := retention.DatabaseName o) in *.
  assert (Hne : forall tail, bytes (db ++ tail) = c :: (rest ++ bytes tail)%list).
  { intros tail. now rewrite bytes_app, Eb. }
  assert (Hc : Ascii.eqb c "." = false).
  { inversion Hchars; subst. now apply nameChar_plain. }
  split; [|split; [|split]].
  - unfold retention.pattern. fold db. apply Join_child.
    + rewrite bytes_app. apply Forall_app. split.
      * rewrite Eb. eapply Forall_impl; [exact Hchars|].
        intros x Hx. now apply nameChar_plain.
      * vm_compute. repeat constructor.
    + intros E. apply (f_equal bytes) in E. rewrite Hne in E. discriminate.
    + intros E. apply (f_equal bytes) in E. rewrite Hne in E.
      injection E as -> _. discriminate.
    + intros E. apply (f_equal bytes) in E. rewrite Hne in E.
      injection E as -> _. discriminate.
  - unfold filepath.hasMeta. rewrite bytes_app, existsb_app.
    apply orb_true_iff. right. reflexivity.
  - rewrite bytes_app. apply Forall_app. split.
    + rewrite Eb. eapply Forall_impl; [exact Hchars|].
      intros x Hx. now apply nameChar_plain.
    + vm_compute. repeat constructor.
  - intros E. apply (f_equal bytes) in E. rewrite Hne in E. discriminate.
Qed.

(** In a directory whose name has no magic character and for a validated
    database name, a run that returns has changed the store only at the
    paths it reports as removed; each is an entry of the output directory
    whose name matches the pattern of the database's backups and starts
    with the database name and a hyphen, so that the staging names are
    never among them.  The run panics, before it deletes anything, only on
    a negative maximum count. *)
Theorem Run_deletes_only_own_backups (o : retention.Options) (now : Z) (fs : os.FS) :
  filepath.hasMeta (retention.OutputDir o) = false ->
  config.isValidPostgresName (retention.DatabaseName o) = true ->
  let db := retention.DatabaseName o in
  match retention.Run o now fs with
  | Returned (err, removed, fs') =>
      (forall p, fs' !! p <> fs !! p -> p ∈ retention.Path <$> removed) /\
      forall b, b ∈ removed ->
        exists name,
          retention.Path b = filepath.child (filepath.Clean (retention.OutputDir o)) name /\
          is_Some (fs !! retention.Path b) /\
          filepath.Match (db ++ "-*.sql.gz*") name = Some true /\
          HasPrefix name (db ++ "-") = true /\
          name <> db ++ ".sql.gz" /\ name <> db ++ ".sql.gz.age"
  | Panicked => exists N, config.MaxBackups (retention.Retention o) = Some N /\ N < 0
  end.
Proof.
  intros Hdir Hvalid db.
  pose proof (Run_removes_candidates o now fs) as Hscope.
  destruct (retention.Run o now fs) as [[[err removed] fs']|]; [|exact Hscope].
  destruct Hscope as [Hw Hcand].
  destruct (pattern_plain o Hvalid) as (Hpat & Hmeta & Hplain & Hne).
  fold db in Hpat, Hmeta, Hplain, Hne.
  split.
  - intros p Hp. rewrite (Hw p) in Hp. case_bool_decide; [assumption | congruence].
  - intros b Hb. destruct (Hcand b Hb) as (candidates & Hfind & Hin).
    unfold retention.findBackups in Hfind. rewrite Hpat in Hfind.
    destruct (glob.Glob fs _) as [ms|] eqn:Eg; [|discriminate].
    injection Hfind as <-. rewrite (vocabulary.sort_permutation _) in Hin.
    assert (Hp : retention.Path b ∈ ms).
    { eapply elem_of_sublist; [|apply (statAll_paths fs ms)].
      now apply list_elem_of_fmap_2. }
    apply Glob_plain_dir in Eg; [|  | exact Hmeta].
    2:{ unfold glob.hasMetaElems. apply not_true_iff_false. intros H.
        apply existsb_exists in H as (e & He & Hm).
        pose proof (Clean_Forall (fun c => filepath.isMeta c = false)
                      (retention.OutputDir o)) as Hclean.
        assert (Hbytes : Forall (fun c => filepath.isMeta c = false)
                           (bytes (retention.OutputDir o))).
        { apply Forall_forall. intros c Hc. apply not_true_iff_false. intros Hmc.
          apply not_true_iff_false in Hdir. apply Hdir. apply existsb_exists.
          exists c. split; [now apply list_elem_of_In | exact Hmc]. }
        specialize (Hclean Hbytes). rewrite Forall_forall in Hclean.
        apply list_elem_of_In in He. specialize (Hclean e He).
        unfold filepath.hasMeta in Hm. apply existsb_exists in Hm as (c & Hc & Hmc).
        rewrite Forall_forall in Hclean. apply list_elem_of_In in Hc.
        rewrite (Hclean c Hc) in Hmc. discriminate. }
    destruct (glob_scan _ _ _ _ Eg) as [_ Hscan].
    destruct (Hscan _ Hp) as (name & Hname & Hsome & Hmatch).
    exists name. split; [exact Hname|]. split; [exact Hsome|]. split; [exact Hmatch|].
    assert (Hpre : exists r, name = (db ++ "-") ++ r).
    { apply (Match_literal_prefix (db ++ "-") ".sql.gz*" name Hplain Hne).
      rewrite <- Hmatch. f_equal. now rewrite append_assoc. }
    destruct Hpre as [r ->]. split; [apply HasPrefix_true; eauto|].
    split; intros E; apply (f_equal bytes) in E; rewrite !bytes_app in E;
      rewrite <- app_assoc in E; apply app_inv_head in E; discriminate.
Qed.

End retention_scope.

(** Retention on [/backups] for database [app]. *)
Lemma Run_deletes_only_own_backups_witness :
  match retention.Run (rt := scenario.utc) (scenario.engine (scenario.keepLast 3))
          (6 * scenario.day) scenario.five with
  | Returned (err, removed, fs') =>
      (forall p, fs' !! p <> scenario.five !! p -> p ∈ retention.Path <$> removed) /\
      forall b, b ∈ removed ->
        exists name,
          retention.Path b = filepath.child (filepath.Clean "/backups") name /\
          is_Some (scenario.five !! retention.Path b) /\
          filepath.Match ("app" ++ "-*.sql.gz*") name = Some true /\
          HasPrefix name ("app" ++ "-") = true /\
          name <> "app" ++ ".sql.gz" /\ name <> "app" ++ ".sql.gz.age"
  | Panicked => exists N, Some 3 = Some N /\ N < 0
  end.
Proof.
  exact (Run_deletes_only_own_backups (rt := scenario.utc) (contract := utc_contract)
           (scenario.engine (scenario.keepLast 3)) (6 * scenario.day) scenario.five
           eq_refl eq_refl).
Defined.

(** C10, the run on which the claim fails.  The backup directory is
    [/data/b*], a name the validation of the configuration accepts and under
    which the producer writes its files as given.  [findBackups] hands the
    joined path to [filepath.Glob], which reads the star as a pattern: the
    candidates are the backups of [/data/b*] and of [/data/bak2] alike.
    With a maximum count of one, the run deletes the oldest backup of
    [/data/bak2], outside the output directory, and the only backup of the
    output directory, and keeps the newest file of [/data/bak2]. *)
Theorem retention_deletes_outside_output_dir :
  config.validateLocalBackup (scenario.starredBackup (scenario.keepLast 1)) = None /\
  filepath.Clean "/data/b*" = (true, ["data"; "b*"]) /\
  filepath.Join "/data/b*" "app-0002.sql.gz" = (true, ["data"; "b*"; "app-0002.sql.gz"]) /\
  filepath.parent (true, ["data"; "bak2"; "app-0001.sql.gz"]) <> filepath.Clean "/data/b*" /\
  is_Some (scenario.starred !! (true, ["data"; "bak2"; "app-0001.sql.gz"])) /\
  match retention.Run (rt := scenario.utc) (scenario.starredEngine (scenario.keepLast 1))
          (20 * scenario.day) scenario.starred with
  | Returned (err, removed, fs') =>
      err = None /\
      retention.Path <$> removed =
        [(true, ["data"; "bak2"; "app-0001.sql.gz"]);
         (true, ["data"; "b*"; "app-0002.sql.gz"])] /\
      fs' !! (true, ["data"; "bak2"; "app-0001.sql.gz"]) = None /\
      fs' !! (true, ["data"; "b*"; "app-0002.sql.gz"]) = None /\
      is_Some (fs' !! (true, ["data"; "bak2"; "app-0003.sql.gz"]))
  | Panicked => False
  end.
Proof.
  split; [reflexivity|]. split; [reflexivity|]. split; [reflexivity|].
  split; [vm_compute; discriminate|]. split; [vm_compute; eauto|].
  vm_compute. repeat split; eauto.
Qed.

(** * Further properties of the code *)

(** ** Short identifiers are eight hexadecimal digits *)

Lemma round_length (s : list Z) (kw : Z * Z) :
  length s = 8%nat -> length (sha256.round s kw) = 8%nat.
Proof.
  intros H. do 9 (destruct s as [|? s]; try discriminate). reflexivity.
Qed.

Lemma block_length (h blk : list Z) :
  length h = 8%nat -> length (sha256.block h blk) = 8%nat.
Proof.
  intros H. unfold sha256.block. rewrite length_zip_with.
  assert (Hs : forall kws s, length s = 8%nat ->
                 length (fold_left sha256.round kws s) = 8%nat).
  { induction kws as [|kw kws IH]; simpl; intros s Hl; [exact Hl|].
    apply IH. now apply round_length. }
  rewrite Hs by exact H. lia.
Qed.

Lemma Sum256_length (data : string) : length (sha256.Sum256 data) = 32%nat.
Proof.
  unfold sha256.Sum256.
  set (blocks := sha256.chunks _ _ _). clearbody blocks.
  assert (Hs : forall bs h, length h = 8%nat ->
                 length (fold_left sha256.block bs h) = 8%nat).
  { induction bs as [|b bs IH]; simpl; intros h Hl; [exact Hl|].
    apply IH. now apply block_length. }
  specialize (Hs blocks sha256.H0 eq_refl).
  destruct (fold_left sha256.block blocks sha256.H0) as [|? s]; [discriminate|].
  do 8 (destruct s as [|? s]; try discriminate). reflexivity.
Qed.

Lemma hexdigit_lower (x : Z) :
  0 <= x < 16 -> vocabulary.isLowerHex (sha256.hexdigit x) = true.
Proof.
  intros Hx.
  assert (H : x = 0 \/ x = 1 \/ x = 2 \/ x = 3 \/ x = 4 \/ x = 5 \/ x = 6 \/ x = 7 \/
              x = 8 \/ x = 9 \/ x = 10 \/ x = 11 \/ x = 12 \/ x = 13 \/ x = 14 \/ x = 15)
    by lia.
  repeat (destruct H as [->|H]; [reflexivity|]). now subst x.
Qed.

(** The short identifier of the catalog is always eight lower-case
    hexadecimal digits, whatever the name and the modification time. *)
Theorem GenerateShortID_eight_hex_digits (name : string) (modTime : Z) :
  length (bytes (utils.GenerateShortID name modTime)) = 8%nat /\
  forallb vocabulary.isLowerHex (bytes (utils.GenerateShortID name modTime)) = true.
Proof.
  unfold utils.GenerateShortID, sha256.EncodeToString. cbv zeta.
  rewrite bytes_of_bytes.
  pose proof (Sum256_length (utils.shortIDData name modTime)) as Hlen.
  pose proof (Sum256_range (utils.shortIDData name modTime)) as Hrange.
  destruct (sha256.Sum256 (utils.shortIDData name modTime)) as [|b0 [|b1 [|b2 [|b3 rest]]]];
    try discriminate.
  inversion Hrange as [|? ? H0 Hr0]; subst. inversion Hr0 as [|? ? H1 Hr1]; subst.
  inversion Hr1 as [|? ? H2 Hr2]; subst. inversion Hr2 as [|? ? H3 _]; subst.
  split; [reflexivity|]. simpl.
  rewrite !hexdigit_lower; [reflexivity | ..];
    first [apply Z.mod_pos_bound; lia
          | split; [apply Z.div_pos | apply Z.div_lt_upper_bound]; lia].
Qed.

(** ** Remote names by version *)

(** With versioning on, two versions never share a remote path, and no
    version takes the path of the single overwriting name. *)
Theorem versioned_remote_paths_distinct (o : remote.Options) (v1 v2 : Z) :
  remote.HasVersioning o = true ->
  (remote.RemotePathFor o (remote.GetRemoteFileName o v1) =
   remote.RemotePathFor o (remote.GetRemoteFileName o v2) -> v1 = v2) /\
  remote.GetRemoteFileName o v1 <> config.Name (remote.Database o) ++ remote.ext o.
Proof.
  intros Hv. unfold remote.GetRemoteFileName. rewrite Hv. split.
  - intros E.
    assert (E' : config.Name (remote.Database o) ++ "-v" ++ itoa v1 ++ remote.ext o =
                 config.Name (remote.Database o) ++ "-v" ++ itoa v2 ++ remote.ext o).
    { unfold remote.RemotePathFor in E. destruct (String.eqb (remote.Path o) ""); [exact E|].
      apply (f_equal bytes) in E. rewrite !(bytes_app (remote.Path o)) in E.
      apply app_inv_head in E. rewrite !(bytes_app "/") in E. apply app_inv_head in E.
      now apply bytes_inj. }
    apply (f_equal bytes) in E'. rewrite !bytes_app in E'.
    do 2 apply app_inv_head in E'. apply app_inv_tail in E'.
    apply itoa_inj. now apply bytes_inj.
  - intros E. apply (f_equal bytes) in E. rewrite !bytes_app in E.
    apply app_inv_head in E. apply (f_equal (@length ascii)) in E.
    rewrite !length_app in E. simpl in E. lia.
Qed.

Lemma versioned_remote_paths_distinct_witness :
  (remote.RemotePathFor
     {| remote.Name := "s3"; remote.Type_ := "s3"; remote.Path := "bucket/db";
        remote.MaxVersions := 3; remote.Database := scenario.database;
        remote.EncryptionKey := "" |} "app-v1.sql.gz" =
   remote.RemotePathFor
     {| remote.Name := "s3"; remote.Type_ := "s3"; remote.Path := "bucket/db";
        remote.MaxVersions := 3; remote.Database := scenario.database;
        remote.EncryptionKey := "" |} "app-v2.sql.gz" -> 1 = 2) /\
  "app-v1.sql.gz" <> "app" ++ ".sql.gz".
Proof.
  exact (versioned_remote_paths_distinct
           {| remote.Name := "s3"; remote.Type_ := "s3"; remote.Path := "bucket/db";
              remote.MaxVersions := 3; remote.Database := scenario.database;
              remote.EncryptionKey := "" |} 1 2 eq_refl).
Defined.

(** ** What validation guarantees to the producer *)

Lemma Run_panics_negative {rt : retention.Runtime} (o : retention.Options) (now : Z)
    (fs : os.FS) :
  retention.Run o now fs = Panicked ->
  exists N, config.MaxBackups (retention.Retention o) = Some N /\ N < 0.
Proof.
  unfold retention.Run. destruct (negb _); [discriminate|].
  destruct (retention.findBackups o fs) as [candidates|]; [|discriminate].
  destruct (retention.Len candidates =? 0); [discriminate|].
  destruct (config.MaxBackups (retention.Retention o)) as [N|].
  - unfold retention.cleanByCount.
    destruct (Z.ltb_spec (retention.Len candidates) N); [discriminate|]. cbv zeta.
    destruct (Z.ltb_spec (retention.Len candidates - N) 0); simpl orb.
    { intros _. exists N. unfold retention.Len in *. split; [reflexivity | lia]. }
    destruct (Z.ltb_spec (retention.Len candidates) (retention.Len candidates - N)).
    { intros _. exists N. split; [reflexivity | lia]. }
    destruct (retention.removeEach _ _ _). discriminate.
  - destruct (config.RetentionDays (retention.Retention o)); [|discriminate].
    destruct (retention.cleanByDays _ _ _ _). discriminate.
Qed.

Section validated.

Context {codec : backup.Codec} {rt : retention.Runtime}.

Variable stamp : Z -> string.

(** A local backup configuration that passes validation has no [..] in its
    directory, only schedules of the form HH:MM, at most one retention
    policy, and a policy value of at least one; the producer built from it
    always returns: the slice expression of [cleanByCount] cannot panic. *)
Theorem validated_config_backup_returns (cfg : config.Config) :
  config.validateLocalBackup (config.LocalBackup cfg) = None ->
  let lb := config.LocalBackup cfg in
  Contains (config.Dir lb) ".." = false /\
  Forall (fun s => config.isValidTimeFormat s = true) (config.Schedule lb) /\
  (config.RetentionDays (config.Retention lb) = None \/
   config.MaxBackups (config.Retention lb) = None) /\
  (forall d, config.RetentionDays (config.Retention lb) = Some d -> 1 <= d) /\
  (forall n, config.MaxBackups (config.Retention lb) = Some n -> 1 <= n) /\
  forall x now fs, exists out,
    backup.Run (backup.WithConfig stamp cfg) x now fs = Returned out.
Proof.
  intros Hvalid lb. fold lb in Hvalid.
  unfold config.validateLocalBackup, config.check in Hvalid.
  destruct (String.eqb _ ""); [discriminate|].
  destruct (Contains (config.Dir lb) "..") eqn:Edots; [discriminate|].
  destruct (List.find _ (config.Schedule lb)) eqn:Efind; [discriminate|].
  simpl in Hvalid.
  unfold config.HasRetentionDays, config.HasMaxBackups in Hvalid.
  assert (Hdays : forall d, config.RetentionDays (config.Retention lb) = Some d -> 1 <= d).
  { intros d Ed. rewrite Ed in Hvalid.
    destruct (bool_decide (Some d <> None) && _); [discriminate|].
    destruct (Z.ltb_spec d 1); [discriminate | assumption]. }
  assert (Hmax : forall n, config.MaxBackups (config.Retention lb) = Some n -> 1 <= n).
  { intros n En. rewrite En in Hvalid.
    destruct (_ && bool_decide (Some n <> None)); [discriminate|].
    destruct (config.RetentionDays (config.Retention lb)) as [d|].
    - destruct (d <? 1); [discriminate|].
      destruct (Z.ltb_spec n 1); [discriminate | assumption].
    - destruct (Z.ltb_spec n 1); [discriminate | assumption]. }
  split; [reflexivity|]. split; [|split; [|split; [exact Hdays|split; [exact Hmax|]]]].
  - apply Forall_forall. intros s Hs.
    destruct (config.isValidTimeFormat s) eqn:Es; [reflexivity|].
    apply list_elem_of_In in Hs.
    eapply find_none in Efind; [|exact Hs]. now rewrite Es in Efind.
  - destruct (config.RetentionDays (config.Retention lb)) as [d|]; [|now left].
    destruct (config.MaxBackups (config.Retention lb)) as [n|]; [|now right].
    rewrite !bool_decide_eq_true_2 in Hvalid by discriminate. discriminate.
  - intros x now fs.
    destruct (backup.Run (backup.WithConfig stamp cfg) x now fs) as [out|] eqn:Erun;
      [eauto|].
    exfalso. unfold backup.Run in Erun.
    destruct (os.MkdirAll _ _ _); [|discriminate].
    destruct (backup.executePgDump _ _ _ _ _) as [[[e|] fs2] started]; [discriminate|].
    destruct (os.Stat _ _); [|discriminate].
    destruct (_ =? 0); [discriminate|].
    destruct (backup.HasRetention _); [|discriminate].
    destruct (retention.Run _ _ _) as [[[e r] fs3]|] eqn:Eret; [discriminate|].
    apply Run_panics_negative in Eret as (N & EN & HN). simpl in EN.
    apply Hmax in EN. lia.
Qed.

End validated.

Lemma validated_config_backup_returns_witness :
  exists out,
    backup.Run (codec := scenario.codec) (rt := scenario.utc)
      (backup.WithConfig itoa
         {| config.Timezone := "UTC"; config.Database := scenario.database;
            config.LocalBackup :=
              {| config.Dir := "/backups"; config.Schedule := ["02:00"];
                 config.Retention := scenario.keepLast 3; config.Enabled := true |};
            config.EncryptionKey := ""; config.RunOnStartup := true |})
      (scenario.dumpOk (bytes "data")) (6 * scenario.day) scenario.five
    = Returned out.
Proof.
  exact (proj2 (proj2 (proj2 (proj2 (proj2
    (validated_config_backup_returns (codec := scenario.codec) (rt := scenario.utc) itoa
       {| config.Timezone := "UTC"; config.Database := scenario.database;
          config.LocalBackup :=
            {| config.Dir := "/backups"; config.Schedule := ["02:00"];
               config.Retention := scenario.keepLast 3; config.Enabled := true |};
          config.EncryptionKey := ""; config.RunOnStartup := true |} eq_refl)))))
    (scenario.dumpOk (bytes "data")) (6 * scenario.day) scenario.five).
Defined.

(** ** Schedules *)

Lemma between_digit (lo hi : nat) (c : ascii) :
  (lo <= hi)%nat -> (hi <= 9)%nat ->
  config.between (vocabulary.digit lo) (vocabulary.digit hi) c = true ->
  exists d, (lo <= d <= hi)%nat /\ c = vocabulary.digit d.
Proof.
  intros Hlh Hhi. unfold config.between, vocabulary.digit.
  rewrite !nat_ascii_embedding by lia.
  intros H. apply andb_true_iff in H as [H1 H2].
  apply Nat.leb_le in H1, H2.
  exists (nat_of_ascii c - 48)%nat. split; [lia|].
  replace (48 + (nat_of_ascii c - 48))%nat with (nat_of_ascii c) by lia.
  now rewrite ascii_nat_embedding.
Qed.

Lemma clocks_valid :
  forallb (fun h => forallb (fun m => config.isValidTimeFormat (vocabulary.clock h m))
                            (seq 0 60)) (seq 0 24) = true.
Proof. vm_compute. reflexivity. Qed.

(** The schedules validation accepts are exactly the 1440 times of day
    written with two digits for the hour, a colon and two digits for the
    minute. *)
Theorem isValidTimeFormat_times_of_day (timeStr : string) :
  config.isValidTimeFormat timeStr = true <->
  exists h m, (h < 24)%nat /\ (m < 60)%nat /\ timeStr = vocabulary.clock h m.
Proof.
  split.
  - unfold config.isValidTimeFormat.
    destruct (bytes timeStr) as [|h1 [|h2 [|c [|m1 [|m2 [|]]]]]] eqn:Eb; try discriminate.
    intros H. apply andb_true_iff in H as [H Hm2]. apply andb_true_iff in H as [H Hm1].
    apply andb_true_iff in H as [Hh Hc].
    apply (between_digit 0 5) in Hm1 as (d3 & Hd3 & ->); [|lia..].
    apply (between_digit 0 9) in Hm2 as (d4 & Hd4 & ->); [|lia..].
    apply Ascii.eqb_eq in Hc. subst c.
    assert (Hh' : exists d1 d2, (10 * d1 + d2 < 24)%nat /\ (d2 <= 9)%nat /\
                    h1 = vocabulary.digit d1 /\ h2 = vocabulary.digit d2).
    { apply orb_true_iff in Hh as [Hh|Hh]; apply andb_true_iff in Hh as [Ha Hb].
      - apply (between_digit 0 1) in Ha as (d1 & Hd1 & ->); [|lia..].
        apply (between_digit 0 9) in Hb as (d2 & Hd2 & ->); [|lia..].
        exists d1, d2. repeat split; lia.
      - apply Ascii.eqb_eq in Ha. subst h1.
        apply (between_digit 0 3) in Hb as (d2 & Hd2 & ->); [|lia..].
        exists 2%nat, d2. repeat split; lia. }
    destruct Hh' as (d1 & d2 & Hlt & Hd2 & -> & ->).
    exists (10 * d1 + d2)%nat, (10 * d3 + d4)%nat.
    split; [exact Hlt|]. split; [lia|].
    apply bytes_inj. rewrite Eb. unfold vocabulary.clock. rewrite bytes_of_bytes.
    replace ((10 * d1 + d2) / 10)%nat with d1
      by (apply Nat.div_unique with d2; lia).
    replace ((10 * d1 + d2) mod 10)%nat with d2
      by (apply Nat.mod_unique with d1; lia).
    replace ((10 * d3 + d4) / 10)%nat with d3
      by (apply Nat.div_unique with d4; lia).
    replace ((10 * d3 + d4) mod 10)%nat with d4
      by (apply Nat.mod_unique with d3; lia).
    reflexivity.
  - intros (h & m & Hh & Hm & ->).
    pose proof clocks_valid as Hall. rewrite forallb_forall in Hall.
    specialize (Hall h). rewrite forallb_forall in Hall.
    apply Hall; apply in_seq; lia.
Qed.

(** ** Dumps that could not be started *)

Section unstarted.

Context {codec : backup.Codec} {rt : retention.Runtime}.

(** When [Run] fails before the dump process runs, it has returned without
    removing the file it created: after a failure of the encryption layer
    the file is there and empty, after a failure of the stderr pipe or of
    the start of the process it holds the framing the deferred [Close]
    calls write.  The error of [NewEncryptor] is never the cause: the key
    it is given is not empty.  [Run] panics only in its retention step. *)
Theorem unstarted_dump_leaves_file (o : backup.Options) (x : backup.Dump) (now : Z)
    (fs : os.FS) :
  match backup.Run o x now fs with
  | Returned out =>
      forall e, backup.ret out = backup.Fail (backup.ErrPgDump e) ->
        e <> backup.ErrEncryptor /\
        (e <> backup.ErrWait -> backup.dumpStarted out = false) /\
        (e = backup.ErrAgeWriter \/ e = backup.ErrStderrPipe \/ e = backup.ErrStart ->
           exists info,
             backup.files out !! backup.outputFile o now = Some info /\
             os.IsDir info = false /\
             (e = backup.ErrAgeWriter -> os.Size info = 0) /\
             (e <> backup.ErrAgeWriter -> 10 <= os.Size info))
  | Panicked => backup.HasRetention o = true
  end.
Proof.
  unfold backup.Run.
  destruct (os.MkdirAll fs (backup.OutputDir o) now) as [fs1|]; [|intros e; discriminate].
  set (p := backup.outputFile o now).
  destruct (backup.executePgDump o x now fs1 p) as [[err fs2] started] eqn:Ed.
  destruct err as [err|].
  2:{ destruct (os.Stat fs2 p); [|intros e; discriminate].
      destruct (_ =? 0); [intros e; discriminate|].
      destruct (backup.HasRetention o); [|intros e; discriminate].
      destruct (retention.Run _ _ _) as [[[e r] fs3]|]; [intros e'; discriminate|].
      reflexivity. }
  intros e [= <-]. simpl.
  unfold backup.executePgDump in Ed.
  destruct (os.Create fs1 p now) as [fs1'|] eqn:Ec.
  2:{ injection Ed as <- <- <-. split; [discriminate|]. split; [reflexivity|].
      intros [?|[?|?]]; discriminate. }
  apply Create_Some in Ec as [Hp ->].
  set (created := <[p:=_]> fs1) in Ed.
  assert (H1 : created !! p = Some {| os.IsDir := false; os.Size := 0; os.ModTime := now;
                                       os.Immutable := false |})
    by apply lookup_insert_eq.
  assert (Hdump : forall fsw info,
            fsw !! p = Some info -> os.IsDir info = false -> 0 <= os.Size info ->
            backup.dumpInto o x now fsw p = (Some err, fs2, started) ->
            err <> backup.ErrEncryptor /\ err <> backup.ErrAgeWriter /\
            (err <> backup.ErrWait -> started = false) /\
            (err = backup.ErrStderrPipe \/ err = backup.ErrStart ->
               exists info', fs2 !! p = Some info' /\ os.IsDir info' = false /\
                             10 <= os.Size info')).
  { intros fsw info Hi Hdir Hsize. unfold backup.dumpInto.
    destruct (closeWriters_present o fsw p [] now info Hi Hsize) as (info' & Hi' & Hd' & Hs').
    rewrite Hdir in Hd'.
    destruct (negb (backup.pipe_ok x)).
    { intros [= <- <- <-]. repeat split; try discriminate. eauto. }
    destruct (negb (backup.start_ok x)).
    { intros [= <- <- <-]. repeat split; try discriminate. eauto. }
    destruct (_ || _); intros [= <- <- <-]; repeat split; try discriminate;
      try contradiction; intros [?|?]; discriminate. }
  unfold backup.openWriters in Ed.
  destruct (backup.IsEncryptEnabled o) eqn:Eenc.
  - unfold backup.IsEncryptEnabled in Eenc. apply negb_true_iff in Eenc.
    rewrite Eenc in Ed.
    destruct (negb (backup.age_ok x)).
    + injection Ed as <- <- <-. split; [discriminate|]. split; [reflexivity|].
      intros _. eexists. split; [exact H1|]. split; [reflexivity|].
      split; [reflexivity | congruence].
    + assert (Hw : os.Write created p (Z.of_nat backup.age_header_len) now !! p =
                     Some {| os.IsDir := false;
                             os.Size := 0 + Z.of_nat backup.age_header_len;
                             os.ModTime := now; os.Immutable := false |}).
      { unfold os.Write. rewrite H1. apply lookup_insert_eq. }
      destruct (Hdump _ _ Hw eq_refl ltac:(simpl; lia) Ed) as (Hne & Hna & Hs & Hf).
      split; [exact Hne|]. split; [exact Hs|].
      intros [?|Hcase]; [contradiction|].
      destruct (Hf Hcase) as (info' & ? & ? & ?). exists info'.
      split; [assumption|]. split; [assumption|]. split; [contradiction | auto].
  - destruct (Hdump _ _ H1 eq_refl ltac:(simpl; lia) Ed) as (Hne & Hna & Hs & Hf).
    split; [exact Hne|]. split; [exact Hs|].
    intros [?|Hcase]; [contradiction|].
    destruct (Hf Hcase) as (info' & ? & ? & ?). exists info'.
    split; [assumption|]. split; [assumption|]. split; [contradiction | auto].
Qed.

End unstarted.

(** ** The running-job counter *)

Section fire_balance.

Context {codec : backup.Codec} {rt : retention.Runtime}.


End fire_balance.

(** ** Waiting for the restore lock *)

Lemma LockForRestore_free (f : flock.Flock) (later : list bool) :
  flock.l f = false -> flock.openable f = true ->
  match FileLock.LockForRestore f later with
  | Some (failed, f', slept) =>
      failed = false /\
      f' = {| flock.l := true; flock.heldElsewhere := false; flock.openable := true |} /\
      (flock.heldElsewhere f :: later) !! slept = Some false /\
      Forall (fun held => held = true) (take slept (flock.heldElsewhere f :: later))
  | None => Forall (fun held => held = true) (flock.heldElsewhere f :: later)
  end.
Proof.
  revert f. induction later as [|held later IH]; intros [l h op] Hl Hop;
    simpl in Hl, Hop; subst l op; destruct h.
  - simpl. repeat constructor.
  - simpl. repeat split; constructor.
  - specialize (IH {| flock.l := false; flock.heldElsewhere := held;
                      flock.openable := true |} eq_refl eq_refl).
    cbn [FileLock.LockForRestore flock.TryLock flock.l flock.openable
         flock.heldElsewhere negb].
    destruct (FileLock.LockForRestore _ later) as [[[failed f'] slept]|].
    + destruct IH as (-> & -> & Hat & Hbefore).
      repeat split; [exact Hat|]. simpl. constructor; [reflexivity | exact Hbefore].
    + simpl in IH. now constructor.
  - simpl. repeat split; constructor.
Qed.

(** [LockForRestore] on a lock file that can be opened returns no error:
    it takes the lock at the first attempt at which nobody else holds it,
    after as many seconds of sleep as attempts have failed, and is still
    waiting while every attempt finds the lock held.  When the lock file
    cannot be opened it returns the error at once.  The lock it took is
    released by [UnlockForRestore], after which a probe finds no restore
    running. *)
Theorem LockForRestore_takes_first_free_attempt (f : flock.Flock) (later : list bool) :
  flock.l f = false ->
  (flock.openable f = false -> FileLock.LockForRestore f later = Some (true, f, 0%nat)) /\
  (flock.openable f = true ->
     match FileLock.LockForRestore f later with
     | Some (failed, f', slept) =>
         failed = false /\ flock.l f' = true /\ flock.heldElsewhere f' = false /\
         (flock.heldElsewhere f :: later) !! slept = Some false /\
         Forall (fun held => held = true) (take slept (flock.heldElsewhere f :: later)) /\
         flock.held (lock.UnlockForRestore f') = false /\
         (lock.IsRestoreRunning (lock.UnlockForRestore f')).1 = false
     | None => Forall (fun held => held = true) (flock.heldElsewhere f :: later)
     end).
Proof.
  intros Hl. split.
  - intros Hop. destruct f as [l h op]. simpl in *. subst l op.
    destruct later; reflexivity.
  - intros Hop. pose proof (LockForRestore_free f later Hl Hop) as H.
    destruct (FileLock.LockForRestore f later) as [[[failed f'] slept]|]; [|exact H].
    destruct H as (-> & -> & Hat & Hbefore).
    repeat split; auto.
Qed.

(** The lock is held elsewhere for two seconds and free at the third
    attempt. *)
Lemma LockForRestore_takes_first_free_attempt_witness :
  match FileLock.LockForRestore
          {| flock.l := false; flock.heldElsewhere := true; flock.openable := true |}
          [true; false; true] with
  | Some (failed, f', slept) =>
      failed = false /\ flock.l f' = true /\ flock.heldElsewhere f' = false /\
      [true; true; false; true] !! slept = Some false /\
      Forall (fun held => held = true) (take slept [true; true; false; true]) /\
      flock.held (lock.UnlockForRestore f') = false /\
      (lock.IsRestoreRunning (lock.UnlockForRestore f')).1 = false
  | None => Forall (fun held => held = true) [true; true; false; true]
  end.
Proof.
  exact (proj2 (LockForRestore_takes_first_free_attempt
                  {| flock.l := false; flock.heldElsewhere := true;
                     flock.openable := true |} [true; false; true] eq_refl) eq_refl).
Defined.

(** ** The environment of a remote provider *)

Section provider_env.

Variable ToUpper : string -> string.

Lemma CleanupEnv_lookup (o : remote.Options) (keys : list string) (env : RemoteEnv.Env)
    (name : string) :
  RemoteEnv.CleanupEnv ToUpper o keys env !! name =
    if bool_decide (name ∈ RemoteEnv.variables ToUpper o keys) then None else env !! name.
Proof.
  unfold RemoteEnv.CleanupEnv, RemoteEnv.variables. cbv zeta.
  set (prefix := RemoteEnv.EnvPrefix ToUpper o).
  assert (Hfold : forall ks e,
            fold_left (fun env k => RemoteEnv.Unsetenv env (prefix ++ ToUpper k)) ks e !! name =
            if bool_decide (name ∈ (fun k => prefix ++ ToUpper k) <$> ks) then None
            else e !! name).
  { induction ks as [|k ks IH]; intros e; simpl.
    - first [reflexivity | case_bool_decide as Hin; [inversion Hin | reflexivity]].
    - rewrite IH. unfold RemoteEnv.Unsetenv.
      destruct (decide (name = prefix ++ ToUpper k)) as [->|Hne].
      + rewrite lookup_delete_eq.
        rewrite (bool_decide_eq_true_2 (_ ∈ _ :: _)) by now left.
        now destruct (bool_decide _).
      + rewrite lookup_delete_ne by congruence.
        repeat case_bool_decide; try reflexivity; set_solver. }
  rewrite Hfold. unfold RemoteEnv.Unsetenv.
  destruct (decide (name = prefix ++ "TYPE")) as [->|Hne].
  - rewrite lookup_delete_eq.
    rewrite (bool_decide_eq_true_2 (_ ∈ _ :: _)) by now left.
    now destruct (bool_decide _).
  - rewrite lookup_delete_ne by congruence.
    repeat case_bool_decide; try reflexivity; set_solver.
Qed.

Lemma Setenv_Some (env env' : RemoteEnv.Env) (key value : string) :
  RemoteEnv.Setenv env key value = Some env' -> env' = <[key := value]> env.
Proof. unfold RemoteEnv.Setenv. destruct (_ || _); congruence. Qed.

Lemma prefixed_inj (p a b : string) : p ++ a = p ++ b -> a = b.
Proof.
  intros E. apply (f_equal bytes) in E. rewrite !bytes_app in E.
  apply app_inv_head in E. now apply bytes_inj.
Qed.

Lemma setEach_result (o : remote.Options) (keys : list string)
    (entries : list (string * string)) :
  forall (env : RemoteEnv.Env),
  match RemoteEnv.setEach ToUpper o entries keys env with
  | (Some err, env') =>
      (forall name, name ∈ RemoteEnv.variables ToUpper o keys -> env' !! name = None) /\
      (forall name,
         name ∉ RemoteEnv.variables ToUpper o keys ->
         name ∉ (fun k => RemoteEnv.EnvPrefix ToUpper o ++ ToUpper k) <$> entries.*1 ->
         env' !! name = env !! name)
  | (None, env') =>
      (forall name,
         name ∉ (fun k => RemoteEnv.EnvPrefix ToUpper o ++ ToUpper k) <$> entries.*1 ->
         env' !! name = env !! name) /\
      (forall before k v after,
         entries = (before ++ (k, v) :: after)%list ->
         Forall (fun e => ToUpper e.1 <> ToUpper k) after ->
         env' !! (RemoteEnv.EnvPrefix ToUpper o ++ ToUpper k) = Some v)
  end.
Proof.
  induction entries as [|[k v] rest IH]; intros env.
  - simpl. split; [reflexivity|]. intros [|? ?] k v after E; discriminate.
  - cbn [RemoteEnv.setEach].
    destruct (RemoteEnv.Setenv env (RemoteEnv.EnvPrefix ToUpper o ++ ToUpper k) v)
      as [env1|] eqn:Es.
    + apply Setenv_Some in Es. subst env1.
      specialize (IH (<[RemoteEnv.EnvPrefix ToUpper o ++ ToUpper k := v]> env)).
      destruct (RemoteEnv.setEach ToUpper o rest keys _) as [[err|] env'].
      * destruct IH as [Hvars Hother]. split; [exact Hvars|].
        intros name Hn1 Hn2. simpl in Hn2. rewrite Hother by set_solver.
        apply lookup_insert_ne. set_solver.
      * destruct IH as [Hother Hset]. split.
        -- intros name Hname. simpl in Hname. rewrite Hother by set_solver.
           apply lookup_insert_ne. set_solver.
        -- intros before k0 v0 after E Hafter. destruct before as [|b before].
           ++ injection E as <- <- <-.
              destruct (decide (RemoteEnv.EnvPrefix ToUpper o ++ ToUpper k ∈
                          (fun k => RemoteEnv.EnvPrefix ToUpper o ++ ToUpper k) <$> rest.*1))
                as [Hin|Hnin].
              ** exfalso. apply list_elem_of_fmap in Hin as (k' & Ek & Hin).
                 apply list_elem_of_fmap in Hin as (e & -> & Hin).
                 rewrite Forall_forall in Hafter. apply (Hafter e Hin).
                 symmetry. now apply prefixed_inj in Ek.
              ** rewrite Hother by exact Hnin. apply lookup_insert_eq.
           ++ injection E as _ ->. eapply Hset; [reflexivity | exact Hafter].
    + split; intros name Hn; rewrite CleanupEnv_lookup.
      * now rewrite bool_decide_eq_true_2.
      * intros _. now rewrite bool_decide_eq_false_2.
Qed.

(** [SetupEnv] is all or nothing.  When it returns an error, none of the
    variables of the provider is set, whatever the order in which the two
    loops visit the configuration.  When it returns no error, each
    configuration value that is the last one written under its name is in
    the environment, and so is the type unless a configuration key is
    written under the same name.  In both cases the variables of other
    names are left as they were. *)
Theorem SetupEnv_all_or_nothing (o : remote.Options) (entries : list (string * string))
    (keys : list string) (env : RemoteEnv.Env) :
  keys ≡ₚ entries.*1 ->
  let prefix := RemoteEnv.EnvPrefix ToUpper o in
  match RemoteEnv.SetupEnv ToUpper o entries keys env with
  | (Some err, env') =>
      (forall name, name ∈ RemoteEnv.variables ToUpper o keys -> env' !! name = None) /\
      (forall name, name ∉ RemoteEnv.variables ToUpper o keys -> env' !! name = env !! name)
  | (None, env') =>
      (forall name, name ∉ RemoteEnv.variables ToUpper o keys -> env' !! name = env !! name) /\
      (Forall (fun e => ToUpper e.1 <> "TYPE") entries ->
       env' !! (prefix ++ "TYPE") = Some (remote.Type_ o)) /\
      (forall before k v after,
         entries = (before ++ (k, v) :: after)%list ->
         Forall (fun e => ToUpper e.1 <> ToUpper k) after ->
         env' !! (prefix ++ ToUpper k) = Some v) /\
      RemoteEnv.CleanupEnv ToUpper o keys env' = RemoteEnv.CleanupEnv ToUpper o keys env
  end.
Proof.
  intros Hperm prefix. unfold RemoteEnv.SetupEnv. fold prefix.
  assert (Hvars : forall name,
            name ∈ (fun k => prefix ++ ToUpper k) <$> entries.*1 ->
            name ∈ RemoteEnv.variables ToUpper o keys).
  { intros name Hin. unfold RemoteEnv.variables. fold prefix. right.
    now rewrite Hperm. }
  destruct (RemoteEnv.Setenv env (prefix ++ "TYPE") (remote.Type_ o)) as [env1|] eqn:Es.
  - apply Setenv_Some in Es. subst env1.
    pose proof (setEach_result o keys entries (<[prefix ++ "TYPE" := remote.Type_ o]> env))
      as Hloop.
    destruct (RemoteEnv.setEach ToUpper o entries keys _) as [[err|] env'].
    + destruct Hloop as [Hin Hout]. split; [exact Hin|].
      intros name Hnin. rewrite Hout; [|exact Hnin|intros Hn; apply Hnin, Hvars, Hn].
      apply lookup_insert_ne. intros <-. apply Hnin. now left.
    + destruct Hloop as [Hother Hset].
      assert (Hrest : forall name, name ∉ RemoteEnv.variables ToUpper o keys ->
                        env' !! name = env !! name).
      { intros name Hnin. rewrite Hother by (intros Hin; apply Hnin, Hvars, Hin).
        apply lookup_insert_ne. intros <-. apply Hnin. now left. }
      split; [exact Hrest|]. split; [|split; [exact Hset|]].
      * intros Hno. rewrite Hother; [apply lookup_insert_eq|].
        intros Hin. apply list_elem_of_fmap in Hin as (k' & Ek & Hin).
        apply list_elem_of_fmap in Hin as (e & -> & Hin).
        rewrite Forall_forall in Hno. apply (Hno e Hin).
        symmetry. now apply prefixed_inj in Ek.
      * apply map_eq. intros name. rewrite !CleanupEnv_lookup.
        case_bool_decide; [reflexivity|]. now apply Hrest.
  - split.
    + intros name Hin. rewrite CleanupEnv_lookup. now rewrite bool_decide_eq_true_2.
    + intros name Hnin. rewrite CleanupEnv_lookup. now rewrite bool_decide_eq_false_2.
Qed.

End provider_env.

(** A provider with one configuration value, in an empty environment. *)
Lemma SetupEnv_all_or_nothing_witness :
  let o := {| remote.Name := "S3"; remote.Type_ := "s3"; remote.Path := "bucket";
              remote.MaxVersions := 0; remote.Database := scenario.database;
              remote.EncryptionKey := "" |} in
  let entries := [("REGION", "eu-west-1")] in
  let keys := ["REGION"] in
  let ToUpper := fun s : string => s in
  let prefix := RemoteEnv.EnvPrefix ToUpper o in
  match RemoteEnv.SetupEnv ToUpper o entries keys ∅ with
  | (Some err, env') =>
      (forall name, name ∈ RemoteEnv.variables ToUpper o keys -> env' !! name = None) /\
      (forall name, name ∉ RemoteEnv.variables ToUpper o keys ->
         env' !! name = (∅ : RemoteEnv.Env) !! name)
  | (None, env') =>
      (forall name, name ∉ RemoteEnv.variables ToUpper o keys ->
         env' !! name = (∅ : RemoteEnv.Env) !! name) /\
      (Forall (fun e => ToUpper e.1 <> "TYPE") entries ->
       env' !! (prefix ++ "TYPE") = Some (remote.Type_ o)) /\
      (forall before k v after,
         entries = (before ++ (k, v) :: after)%list ->
         Forall (fun e => ToUpper e.1 <> ToUpper k) after ->
         env' !! (prefix ++ ToUpper k) = Some v) /\
      RemoteEnv.CleanupEnv ToUpper o keys env' = RemoteEnv.CleanupEnv ToUpper o keys ∅
  end.
Proof.
  intros o entries keys ToUpper.
  exact (SetupEnv_all_or_nothing ToUpper o entries keys ∅ (Permutation_refl keys)).
Defined.

(** A probe made through the value that took the restore lock answers that
    no restore is running and releases the lock: [TryLock] on a value that
    already holds the lock succeeds at once, and the probe unlocks after a
    successful attempt. *)
Theorem probe_after_LockForRestore_releases (f f' : flock.Flock) (later : list bool)
    (slept : nat) :
  flock.l f = false ->
  FileLock.LockForRestore f later = Some (false, f', slept) ->
  flock.l f' = true /\
  lock.IsRestoreRunning f' = (false, lock.UnlockForRestore f') /\
  flock.held (lock.IsRestoreRunning f').2 = false.
Proof.
  intros Hl Hlock.
  destruct (flock.openable f) eqn:Hop.
  - pose proof (LockForRestore_free f later Hl Hop) as H. rewrite Hlock in H.
    destruct H as (_ & -> & _). repeat split.
  - destruct f as [l h op]. simpl in *. subst l op. destruct later; discriminate.
Qed.

Lemma probe_after_LockForRestore_releases_witness :
  flock.l {| flock.l := true; flock.heldElsewhere := false; flock.openable := true |} = true /\
  lock.IsRestoreRunning
    {| flock.l := true; flock.heldElsewhere := false; flock.openable := true |} =
    (false, lock.UnlockForRestore
              {| flock.l := true; flock.heldElsewhere := false; flock.openable := true |}) /\
  flock.held (lock.IsRestoreRunning
                {| flock.l := true; flock.heldElsewhere := false;
                   flock.openable := true |}).2 = false.
Proof.
  exact (probe_after_LockForRestore_releases
           {| flock.l := false; flock.heldElsewhere := true; flock.openable := true |}
           {| flock.l := true; flock.heldElsewhere := false; flock.openable := true |}
           [false] 1 eq_refl eq_refl).
Defined.

(** ** Sizes for the log *)

Lemma scale_spec (B : Z) (fuel : nat) :
  forall n div exp,
  1 <= n -> 0 < div -> div * n <= B -> B < div * (n + 1) -> B < 2 ^ 63 ->
  (Z.to_nat n < fuel)%nat ->
  exists k, 0 <= k /\
    format.scale fuel n div exp = Some (div * 1024 ^ k, exp + k) /\
    div * 1024 ^ k <= B < div * 1024 ^ k * 1024.
Proof.
  induction fuel as [|fuel IH]; intros n div exp Hn Hdiv Hlo Hhi HB Hfuel; [lia|].
  simpl. unfold format.unit_.
  destruct (Z.leb_spec 1024 n) as [Hbig|Hsmall].
  - assert (Hq : 1024 * (n / 1024) <= n < 1024 * (n / 1024) + 1024).
    { pose proof (Z.div_mod n 1024 ltac:(lia)).
      pose proof (Z.mod_pos_bound n 1024 ltac:(lia)). lia. }
    assert (Hq1 : 1 <= n / 1024) by (apply Z.div_le_lower_bound; lia).
    assert (Hw : format.wrap64 (div * 1024) = div * 1024).
    { unfold format.wrap64. rewrite Z.mod_small; nia. }
    rewrite Hw.
    destruct (IH (n / 1024) (div * 1024) (exp + 1)) as (k & Hk & Hs & Hb);
      try nia.
    exists (k + 1). split; [lia|].
    rewrite Z.pow_add_r by lia. rewrite Hs. split.
    + f_equal. f_equal; lia.
    + replace (div * (1024 ^ k * 1024 ^ 1)) with (div * 1024 * 1024 ^ k) by lia. exact Hb.
  - exists 0. rewrite Z.pow_0_r. split; [lia|]. split.
    + f_equal. f_equal; lia.
    + nia.
Qed.

Section size_layout.

Variable quotient : Z -> Z -> string.

(** [FormatBytes] returns for every [int64]: below 1024 the number with
    the unit [B]; from 1024 on the quotient by a power of 1024, the largest
    one not above the number, with the letter of that power.  The index
    into ["KMGTPE"] is never out of range and the multiplication of the
    loop never overflows. *)
Theorem FormatBytes_returns (b : Z) :
  - 2 ^ 63 <= b < 2 ^ 63 ->
  (b < 1024 -> format.FormatBytes quotient b = Some (Returned (itoa b ++ " B"))) /\
  (1024 <= b ->
   exists exp c,
     0 <= exp <= 5 /\
     bytes "KMGTPE" !! Z.to_nat exp = Some c /\
     1024 ^ (exp + 1) <= b < 1024 ^ (exp + 2) /\
     format.FormatBytes quotient b =
       Some (Returned (quotient b (1024 ^ (exp + 1)) ++ " " ++ String c "iB"))).
Proof.
  intros Hb. unfold format.FormatBytes, format.unit_. split.
  - intros Hlt. destruct (Z.ltb_spec b 1024); [reflexivity | lia].
  - intros Hge. destruct (Z.ltb_spec b 1024); [lia|].
    assert (Hq : 1024 * (b / 1024) <= b < 1024 * (b / 1024) + 1024).
    { pose proof (Z.div_mod b 1024 ltac:(lia)).
      pose proof (Z.mod_pos_bound b 1024 ltac:(lia)). lia. }
    assert (Hq1 : 1 <= b / 1024) by (apply Z.div_le_lower_bound; lia).
    destruct (scale_spec b (S (Z.to_nat (b / 1024))) (b / 1024) 1024 0)
      as (k & Hk & Hs & Hlo & Hhi); try lia.
    rewrite Z.add_0_l in Hs. rewrite Hs.
    assert (Hk5 : k <= 5).
    { destruct (Z.le_gt_cases k 5) as [|Hk6]; [assumption|].
      assert (1024 ^ 6 <= 1024 ^ k) by (apply Z.pow_le_mono_r; lia).
      assert (1024 ^ 6 = 2 ^ 60) by reflexivity. lia. }
    destruct (Z.ltb_spec k 0); [lia|].
    assert (Hpow : 1024 * 1024 ^ k = 1024 ^ (k + 1))
      by (rewrite Z.pow_add_r by lia; lia).
    assert (Hpow2 : 1024 * 1024 ^ k * 1024 = 1024 ^ (k + 2))
      by (rewrite Z.pow_add_r by lia; lia).
    assert (Hc : exists c, bytes "KMGTPE" !! Z.to_nat k = Some c).
    { assert (Hcase : k = 0 \/ k = 1 \/ k = 2 \/ k = 3 \/ k = 4 \/ k = 5) by lia.
      destruct Hcase as [->|[->|[->|[->|[->| ->]]]]]; eexists; reflexivity. }
    destruct Hc as [c Hc]. exists k, c. rewrite Hc, Hpow.
    split; [lia|]. split; [reflexivity|]. split; [lia | reflexivity].
Qed.

End size_layout.

Lemma FormatBytes_returns_witness :
  format.FormatBytes (fun b d => itoa (b / d)) 1000 = Some (Returned ("1000" ++ " B")).
Proof.
  exact (proj1 (FormatBytes_returns (fun b d => itoa (b / d)) 1000 ltac:(lia)) ltac:(lia)).
Defined.

(** ** The pattern of the backups of a database *)

Lemma scanChunk_star (c : ascii) (l rest : list ascii) :
  Forall (fun c => vocabulary.plainByte c = true) (c :: l) ->
  filepath.scanChunk ("*"%char :: c :: l ++ "*"%char :: rest) =
    (true, c :: l, "*"%char :: rest).
Proof.
  intros Hplain. unfold filepath.scanChunk.
  inversion Hplain as [|? ? Hc Hl]; subst.
  destruct (plainByte_cases c Hc) as (_ & _ & _ & Es & _).
  assert (Hs : filepath.stripStars ("*"%char :: c :: l ++ "*"%char :: rest) =
               (true, c :: l ++ "*"%char :: rest)).
  { simpl. now rewrite Es. }
  rewrite Hs.
  change (c :: (l ++ "*"%char :: rest))%list with ((c :: l) ++ "*"%char :: rest)%list.
  now rewrite scanUntilStar_plain.
Qed.

Lemma matchChunk_plain (chunk s : list ascii) :
  Forall (fun c => vocabulary.plainByte c = true) chunk ->
  filepath.matchChunk chunk s = Some (vocabulary.stripPrefix chunk s).
Proof.
  intros Hplain. unfold filepath.matchChunk.
  now rewrite (matchChunkLoop_plain _ Hplain) by lia.
Qed.

Lemma MatchLoop_last_star (fuel : nat) (t : list ascii) :
  filepath.MatchLoop (S fuel) ["*"%char] t =
    Some (negb (bool_decide (filepath.Separator ∈ t))).
Proof. reflexivity. Qed.

Lemma checkRest_last_star (fuel : nat) : filepath.checkRest fuel ["*"%char] = Some false.
Proof. destruct fuel as [|[|fuel]]; reflexivity. Qed.

Lemma MatchLoop_unfold (fuel : nat) (p : ascii) (pattern name : list ascii) :
  filepath.MatchLoop (S fuel) (p :: pattern) name =
    let '(star, chunk, rest) := filepath.scanChunk (p :: pattern) in
    if star && bool_decide (chunk = []) then
      Some (negb (bool_decide (filepath.Separator ∈ name)))
    else
      match filepath.matchChunk chunk name with
      | None => None
      | Some (Some t) =>
          if bool_decide (t = []) || negb (bool_decide (rest = []))
          then filepath.MatchLoop fuel rest t
          else if star then vocabulary.skipFrom fuel chunk rest name
               else filepath.checkRest fuel rest
      | Some None =>
          if star then vocabulary.skipFrom fuel chunk rest name
          else filepath.checkRest fuel rest
      end.
Proof. reflexivity. Qed.

Lemma skipFrom_cons (fuel : nat) (chunk rest : list ascii) (c : ascii) (name' : list ascii) :
  vocabulary.skipFrom fuel chunk rest (c :: name') =
    if Ascii.eqb c filepath.Separator then filepath.checkRest fuel rest
    else
      match filepath.matchChunk chunk name' with
      | None => None
      | Some (Some t) =>
          if bool_decide (rest = []) && negb (bool_decide (t = []))
          then vocabulary.skipFrom fuel chunk rest name'
          else filepath.MatchLoop fuel rest t
      | Some None => vocabulary.skipFrom fuel chunk rest name'
      end.
Proof. reflexivity. Qed.

Lemma skipFrom_plain (fuel : nat) (chunk name : list ascii) :
  Forall (fun c => vocabulary.plainByte c = true) chunk ->
  chunk <> [] ->
  vocabulary.skipFrom (S fuel) chunk ["*"%char] name =
    match name with
    | [] => Some false
    | x :: name' =>
        if Ascii.eqb x filepath.Separator then Some false
        else
          match vocabulary.afterFirst chunk name' with
          | Some t => Some (negb (bool_decide (filepath.Separator ∈ t)))
          | None => Some false
          end
    end.
Proof.
  intros Hplain Hne. induction name as [|x name' IH].
  - change (filepath.checkRest (S fuel) ["*"%char] = Some false).
    apply checkRest_last_star.
  - rewrite skipFrom_cons, checkRest_last_star.
    destruct (Ascii.eqb x filepath.Separator); [reflexivity|].
    rewrite (matchChunk_plain _ _ Hplain).
    rewrite (bool_decide_eq_false_2 (["*"%char] = [])) by discriminate. cbn [andb].
    destruct name' as [|y name''].
    + cbn [vocabulary.afterFirst].
      destruct (vocabulary.stripPrefix chunk []) as [t|] eqn:Es.
      * apply MatchLoop_last_star.
      * exact IH.
    + cbn [vocabulary.afterFirst].
      destruct (vocabulary.stripPrefix chunk (y :: name'')) as [t|] eqn:Es.
      * apply MatchLoop_last_star.
      * rewrite IH. now destruct (Ascii.eqb y filepath.Separator).
Qed.

Lemma MatchLoop_star_chunk (fuel : nat) (c : ascii) (l name : list ascii) :
  Forall (fun c => vocabulary.plainByte c = true) (c :: l) ->
  filepath.MatchLoop (S (S fuel)) ("*"%char :: c :: l ++ ["*"%char]) name =
    match vocabulary.afterFirst (c :: l) name with
    | Some t => Some (negb (bool_decide (filepath.Separator ∈ t)))
    | None => Some false
    end.
Proof.
  intros Hplain.
  rewrite MatchLoop_unfold, (scanChunk_star c l [] Hplain).
  rewrite (bool_decide_eq_false_2 (c :: l = [])) by discriminate. cbn [andb].
  rewrite (bool_decide_eq_false_2 (["*"%char] = [])) by discriminate.
  rewrite (matchChunk_plain _ _ Hplain). cbn [negb].
  rewrite skipFrom_plain by (assumption || discriminate).
  destruct name as [|x name'].
  - cbn [vocabulary.afterFirst].
    destruct (vocabulary.stripPrefix (c :: l) []) as [t|]; [|reflexivity].
    rewrite orb_true_r. apply MatchLoop_last_star.
  - cbn [vocabulary.afterFirst].
    destruct (vocabulary.stripPrefix (c :: l) (x :: name')) as [t|];
      [|now destruct (Ascii.eqb x filepath.Separator)].
    rewrite orb_true_r. apply MatchLoop_last_star.
Qed.

Lemma checkRest_star_chunk (fuel : nat) (c : ascii) (l : list ascii) :
  Forall (fun c => vocabulary.plainByte c = true) (c :: l) ->
  filepath.checkRest fuel ("*"%char :: c :: l ++ ["*"%char]) = Some false.
Proof.
  intros Hplain. destruct fuel as [|fuel]; [reflexivity|].
  cbn [filepath.checkRest]. rewrite (scanChunk_star c l [] Hplain).
  rewrite (matchChunk_plain _ _ Hplain). apply checkRest_last_star.
Qed.

(** [Match] on a pattern made of literal bytes, a star, literal bytes and
    a star: it never reports a malformed pattern, and it answers by the
    first occurrence of the second literal. *)
Lemma Match_two_stars (lit1 lit2 name : string) :
  Forall (fun c => vocabulary.plainByte c = true) (bytes lit1) -> lit1 <> "" ->
  Forall (fun c => vocabulary.plainByte c = true) (bytes lit2) -> lit2 <> "" ->
  filepath.Match (lit1 ++ "*" ++ lit2 ++ "*") name =
    Some (vocabulary.twoStars (bytes lit1) (bytes lit2) (bytes name)).
Proof.
  intros Hp1 Hn1 Hp2 Hn2. unfold filepath.Match, vocabulary.twoStars.
  rewrite !bytes_app. change (bytes "*") with ["*"%char].
  destruct (bytes lit1) as [|c1 l1] eqn:E1.
  { exfalso. apply Hn1, bytes_inj. now rewrite E1. }
  destruct (bytes lit2) as [|c2 l2] eqn:E2.
  { exfalso. apply Hn2, bytes_inj. now rewrite E2. }
  assert (Hfuel : exists f,
            length ((c1 :: l1) ++ ["*"%char] ++ (c2 :: l2) ++ ["*"%char]) = S (S f)).
  { rewrite length_app. simpl. eexists. rewrite Nat.add_succ_r. reflexivity. }
  destruct Hfuel as [f ->].
  change ((c1 :: l1) ++ ["*"%char] ++ (c2 :: l2) ++ ["*"%char])%list
    with (c1 :: (l1 ++ "*"%char :: (c2 :: l2 ++ ["*"%char])))%list.
  rewrite MatchLoop_unfold, (scanChunk_plain c1 l1 _ Hp1). cbn [andb].
  rewrite (matchChunk_plain _ _ Hp1).
  destruct (vocabulary.stripPrefix (c1 :: l1) (bytes name)) as [t|].
  - rewrite (bool_decide_eq_false_2 (_ :: _ = [])) by discriminate.
    cbn [negb]. rewrite orb_true_r.
    rewrite (MatchLoop_star_chunk _ c2 l2 t Hp2).
    now destruct (vocabulary.afterFirst (c2 :: l2) t).
  - apply (checkRest_star_chunk _ c2 l2 Hp2).
Qed.

Lemma stripPrefix_app (chunk b : list ascii) :
  vocabulary.stripPrefix chunk (chunk ++ b) = Some b.
Proof. now apply stripPrefix_Some. Qed.

Lemma afterFirst_found (chunk a b : list ascii) :
  Forall (fun c => Ascii.eqb c filepath.Separator = false) a ->
  exists u, vocabulary.afterFirst chunk (a ++ chunk ++ b) = Some u /\
            u `suffix_of` (a ++ chunk ++ b)%list.
Proof.
  induction 1 as [|x a Hx _ IH].
  - simpl app. exists b. split; [|now apply suffix_app_r].
    destruct (chunk ++ b)%list eqn:E; simpl; rewrite <- ?E; now rewrite stripPrefix_app.
  - change ((x :: a) ++ chunk ++ b)%list with (x :: (a ++ chunk ++ b))%list.
    cbn [vocabulary.afterFirst].
    destruct (vocabulary.stripPrefix chunk (x :: a ++ chunk ++ b)) as [t|] eqn:Es.
    + exists t. split; [reflexivity|]. apply stripPrefix_Some in Es. rewrite Es.
      now apply suffix_app_r.
    + rewrite Hx. destruct IH as (u & Hu & Hsuf). exists u. split; [exact Hu|].
      now apply suffix_cons_r.
Qed.

Lemma twoStars_complete (lit1 lit2 a b : list ascii) :
  Forall (fun c => Ascii.eqb c filepath.Separator = false) (a ++ lit2 ++ b) ->
  vocabulary.twoStars lit1 lit2 (lit1 ++ a ++ lit2 ++ b) = true.
Proof.
  intros Hsep. unfold vocabulary.twoStars. rewrite stripPrefix_app.
  destruct (afterFirst_found lit2 a b) as (u & -> & Hsuf).
  { now apply Forall_app in Hsep as [? _]. }
  apply negb_true_iff, bool_decide_eq_false_2. intros Hin.
  destruct Hsuf as [k Hk]. rewrite Hk in Hsep. apply Forall_app in Hsep as [_ Hu].
  rewrite Forall_forall in Hu. specialize (Hu _ Hin). discriminate.
Qed.

(** ** Directory scans are complete *)

Lemma childName_child (dir : PathName) (name : string) :
  os.childName dir (filepath.child dir name) = Some name.
Proof.
  unfold os.childName, filepath.child. simpl. rewrite last_snoc.
  now rewrite bool_decide_eq_true_2.
Qed.

Lemma entries_complete (fs : os.FS) (dir : PathName) (name : string) (info : os.FileInfo) :
  fs !! filepath.child dir name = Some info -> (name, info) ∈ os.entries fs dir.
Proof.
  intros Hlook. unfold os.entries. rewrite merge_sort_Permutation.
  apply list_elem_of_omap. exists (filepath.child dir name, info). split.
  - now apply elem_of_map_to_list.
  - simpl. now rewrite childName_child.
Qed.

Lemma glob_fold_total (dir : PathName) (pattern : string)
    (l : list (string * os.FileInfo)) :
  (forall name, exists b, filepath.Match pattern name = Some b) ->
  exists ms,
    foldr (fun e acc =>
             m ← filepath.Match pattern e.1;
             rest ← acc;
             Some (if (m : bool) then filepath.child dir e.1 :: rest else rest))
          (Some []) l = Some ms /\
    forall p, p ∈ ms <->
      exists e, e ∈ l /\ p = filepath.child dir e.1 /\
                filepath.Match pattern e.1 = Some true.
Proof.
  intros Htotal. induction l as [|e l (ms & Hms & Hin)]; simpl.
  - exists []. split; [reflexivity|]. intros p. split; [intros H; inversion H|].
    intros (e & H & _). inversion H.
  - rewrite Hms. destruct (Htotal e.1) as [b Hb]. rewrite Hb. simpl.
    eexists. split; [reflexivity|]. intros p. destruct b.
    + rewrite elem_of_cons, Hin. split.
      * intros [->|(e' & ? & ? & ?)]; [exists e | exists e'];
          (split; [set_solver | auto]).
      * intros (e' & He' & -> & Hm). apply elem_of_cons in He' as [->|He'];
          [now left | right; eauto].
    + rewrite Hin. split.
      * intros (e' & ? & ? & ?). exists e'. split; [set_solver | auto].
      * intros (e' & He' & -> & Hm). apply elem_of_cons in He' as [->|He'];
          [congruence | eauto].
Qed.

(** With a pattern that is never malformed, the scan of a directory
    returns exactly its entries whose name matches. *)
Lemma glob_total (fs : os.FS) (dir : PathName) (pattern : string) :
  (forall name, exists b, filepath.Match pattern name = Some b) ->
  exists ms,
    glob.glob fs dir pattern = Some ms /\
    forall p, p ∈ ms <->
      os.isDirectory fs dir = true /\
      exists name info, p = filepath.child dir name /\ fs !! p = Some info /\
                        filepath.Match pattern name = Some true.
Proof.
  intros Htotal. unfold glob.glob. destruct (os.isDirectory fs dir).
  - destruct (glob_fold_total dir pattern (os.entries fs dir) Htotal) as (ms & Hms & Hin).
    exists ms. split; [exact Hms|]. intros p. rewrite Hin. split.
    + intros (e & He & -> & Hm). split; [reflexivity|]. exists e.1, e.2.
      split; [reflexivity|]. split; [|exact Hm]. now apply entries_lookup.
    + intros (_ & name & info & -> & Hlook & Hm). exists (name, info).
      split; [|auto]. now apply entries_complete.
  - exists []. split; [reflexivity|]. intros p. split; [intros H; inversion H|].
    intros [? _]. discriminate.
Qed.

Lemma Glob_plain_dir_eq (fs : os.FS) (d : PathName) (file : string) :
  glob.hasMetaElems d.2 = false ->
  filepath.hasMeta file = true ->
  glob.Glob fs (filepath.child d file) =
    if forallb (fun e => bool_decide (is_Some (filepath.Match e ""))) (d.2 ++ [file])
    then glob.glob fs d file
    else None.
Proof.
  intros Hd Hf. unfold glob.Glob. unfold filepath.child at 1. cbn [fst snd].
  destruct (forallb _ _); [|reflexivity].
  unfold filepath.child. cbn [fst snd]. rewrite rev_unit, globRev_cons.
  assert (Hrev : glob.hasMetaElems (rev d.2) = false).
  { unfold glob.hasMetaElems in *. apply not_true_iff_false. intros H.
    apply existsb_exists in H as (e & He & Hm). apply in_rev in He.
    apply not_true_iff_false in Hd. apply Hd. apply existsb_exists. eauto. }
  assert (Hall : glob.hasMetaElems (file :: rev d.2) = true).
  { unfold glob.hasMetaElems. simpl. now rewrite Hf. }
  rewrite Hall, Hrev. simpl negb. cbv iota. rewrite rev_involutive.
  destruct d as [rooted elems]. simpl.
  destruct (glob.glob fs (rooted, elems) file) as [ms0|]; simpl; [|reflexivity].
  now rewrite app_nil_r.
Qed.

Lemma Clean_no_meta (path : string) :
  filepath.hasMeta path = false -> glob.hasMetaElems (filepath.Clean path).2 = false.
Proof.
  intros Hdir. unfold glob.hasMetaElems. apply not_true_iff_false. intros H.
  apply existsb_exists in H as (e & He & Hm).
  pose proof (Clean_Forall (fun c => filepath.isMeta c = false) path) as Hclean.
  assert (Hbytes : Forall (fun c => filepath.isMeta c = false) (bytes path)).
  { apply Forall_forall. intros c Hc. apply not_true_iff_false. intros Hmc.
    apply not_true_iff_false in Hdir. apply Hdir. apply existsb_exists.
    exists c. split; [now apply list_elem_of_In | exact Hmc]. }
  specialize (Hclean Hbytes). rewrite Forall_forall in Hclean.
  apply list_elem_of_In in He. specialize (Hclean e He).
  unfold filepath.hasMeta in Hm. apply existsb_exists in Hm as (c & Hc & Hmc).
  rewrite Forall_forall in Hclean. apply list_elem_of_In in Hc.
  rewrite (Hclean c Hc) in Hmc. discriminate.
Qed.

Lemma backup_pattern_Match (db name : string) :
  config.isValidPostgresName db = true ->
  filepath.Match (db ++ "-*.sql.gz*") name =
    Some (vocabulary.twoStars (bytes (db ++ "-")) (bytes ".sql.gz") (bytes name)).
Proof.
  intros Hvalid. destruct (validName_bytes _ Hvalid) as (c & rest & Eb & Hchars).
  replace (db ++ "-*.sql.gz*") with ((db ++ "-") ++ "*" ++ ".sql.gz" ++ "*")
    by now rewrite append_assoc.
  apply Match_two_stars.
  - rewrite bytes_app. apply Forall_app. split.
    + rewrite Eb. eapply Forall_impl; [exact Hchars|].
      intros x Hx. now apply nameChar_plain.
    + vm_compute. repeat constructor.
  - intros E. apply (f_equal bytes) in E. rewrite bytes_app, Eb in E. discriminate.
  - vm_compute. repeat constructor.
  - discriminate.
Qed.

Lemma statAll_present (fs : os.FS) (ms : list PathName) :
  (forall p, p ∈ ms -> is_Some (os.Stat fs p)) ->
  retention.Path <$> retention.statAll fs ms = ms.
Proof.
  induction ms as [|p ms IH]; intros Hall; simpl; [reflexivity|].
  destruct (Hall p ltac:(now left)) as [info Hi]. rewrite Hi. simpl. f_equal.
  apply IH. intros q Hq. apply Hall. now right.
Qed.

Lemma Stat_child (fs : os.FS) (d : PathName) (name : string) :
  os.Stat fs (filepath.child d name) = fs !! filepath.child d name.
Proof.
  apply Stat_lookup. unfold filepath.child. simpl. now destruct d.2.
Qed.

Section plain_directory.

Context {rt : retention.Runtime} {contract : vocabulary.SortContract rt}.

(** The candidates of [findBackups] in a directory whose name has no magic
    character, for a validated database name: the entries of the directory
    whose name matches the pattern; whether candidates are returned does
    not depend on the store. *)
Lemma findBackups_plain (o : retention.Options) (fs : os.FS)
    (candidates : retention.BackupFiles) :
  filepath.hasMeta (retention.OutputDir o) = false ->
  config.isValidPostgresName (retention.DatabaseName o) = true ->
  retention.findBackups o fs = Some candidates ->
  (forall fs2, exists c2, retention.findBackups o fs2 = Some c2) /\
  forall p, p ∈ retention.Path <$> candidates <->
    os.isDirectory fs (filepath.Clean (retention.OutputDir o)) = true /\
    exists name info,
      p = filepath.child (filepath.Clean (retention.OutputDir o)) name /\
      fs !! p = Some info /\
      filepath.Match (retention.DatabaseName o ++ "-*.sql.gz*") name = Some true.
Proof.
  intros Hdir Hvalid. unfold retention.findBackups.
  destruct (pattern_plain o Hvalid) as (Hpat & Hmeta & _ & _). rewrite Hpat.
  assert (Htotal : forall name, exists b,
            filepath.Match (retention.DatabaseName o ++ "-*.sql.gz*") name = Some b).
  { intros name. rewrite (backup_pattern_Match _ _ Hvalid). eauto. }
  assert (Hglob : forall fs0,
            glob.Glob fs0 (filepath.child (filepath.Clean (retention.OutputDir o))
                             (retention.DatabaseName o ++ "-*.sql.gz*")) =
            if forallb (fun e => bool_decide (is_Some (filepath.Match e "")))
                 ((filepath.Clean (retention.OutputDir o)).2 ++
                  [retention.DatabaseName o ++ "-*.sql.gz*"])
            then glob.glob fs0 (filepath.Clean (retention.OutputDir o))
                   (retention.DatabaseName o ++ "-*.sql.gz*")
            else None).
  { intros fs0. apply Glob_plain_dir_eq; [now apply Clean_no_meta | exact Hmeta]. }
  rewrite Hglob. destruct (forallb _ _) eqn:Ewf; [|discriminate].
  destruct (glob_total fs (filepath.Clean (retention.OutputDir o)) _ Htotal)
    as (ms & Hms & Hin).
  rewrite Hms. intros [= <-]. split.
  - intros fs2. rewrite Hglob.
    destruct (glob_total fs2 (filepath.Clean (retention.OutputDir o)) _ Htotal)
      as (ms2 & Hms2 & _).
    rewrite Hms2. eauto.
  - intros p. rewrite (vocabulary.sort_permutation _).
    rewrite statAll_present; [apply Hin|].
    intros q Hq. apply Hin in Hq as (_ & name & info & -> & Hlook & _).
    rewrite Stat_child. eauto.
Qed.

End plain_directory.

Lemma without_lookup (fs fs' : os.FS) (gone : list PathName) (p : PathName)
    (info : os.FileInfo) :
  vocabulary.without fs gone fs' -> fs' !! p = Some info ->
  (p ∉ gone) /\ fs !! p = Some info.
Proof.
  intros Hw Hp. rewrite (Hw p) in Hp. case_bool_decide; [discriminate | auto].
Qed.

Lemma without_isDirectory (fs fs' : os.FS) (gone : list PathName) (d : PathName) :
  vocabulary.without fs gone fs' ->
  os.isDirectory fs' d = true -> os.isDirectory fs d = true.
Proof.
  intros Hw. unfold os.isDirectory, os.Stat. destruct d.2; [auto|].
  destruct (fs' !! d) as [info|] eqn:E; [|discriminate].
  apply (without_lookup _ _ _ _ _ Hw) in E as [_ ->]. auto.
Qed.

Section run_again.

Context {rt : retention.Runtime} {contract : vocabulary.SortContract rt}.

(** A retention run whose deletions succeed is idempotent.  In a directory
    whose name has no magic character, for a validated database name and a
    maximum count that is not negative, when [os.Remove] succeeds on every
    candidate: a second run on the store the first run left, at the same
    time, removes nothing and leaves the store as it is. *)
Theorem Run_again_removes_nothing (o : retention.Options) (now : Z) (fs fs' : os.FS)
    (err : option retention.Error) (removed : retention.BackupFiles) :
  filepath.hasMeta (retention.OutputDir o) = false ->
  config.isValidPostgresName (retention.DatabaseName o) = true ->
  (forall N, config.MaxBackups (retention.Retention o) = Some N -> 0 <= N) ->
  (forall candidates, retention.findBackups o fs = Some candidates ->
     forall b, b ∈ candidates -> os.Remove fs (retention.Path b) <> None) ->
  retention.Run o now fs = Returned (err, removed, fs') ->
  retention.Run o now fs' = Returned (err, [], fs').
Proof.
  intros Hdir Hvalid HN Hreg Hrun.
  destruct (retention.HasRetention o) eqn:Ehas.
  2:{ unfold retention.Run in *. rewrite Ehas in *. simpl in *. congruence. }
  destruct (retention.findBackups o fs) as [candidates|] eqn:Hfind.
  2:{ unfold retention.Run in Hrun. rewrite Ehas, Hfind in Hrun. simpl in Hrun.
      injection Hrun as <- <- <-. unfold retention.Run. now rewrite Ehas, Hfind. }
  specialize (Hreg candidates eq_refl).
  destruct (findBackups_plain o fs candidates Hdir Hvalid Hfind) as [Hany Hc].
  destruct (findBackups_candidates _ _ _ Hfind) as (Hnd & _ & Hinfo).
  set (d := filepath.Clean (retention.OutputDir o)) in *.
  (* once the first run is known to be the deletion loop on [selected] *)
  assert (Hloop : forall selected,
            selected `sublist_of` candidates ->
            retention.removeEach fs selected [] = (removed, fs') ->
            removed = selected /\
            vocabulary.without fs (retention.Path <$> selected) fs' /\
            exists candidates',
              retention.findBackups o fs' = Some candidates' /\
              NoDup (retention.Path <$> candidates') /\
              forall b', b' ∈ candidates' ->
                exists b, b ∈ candidates /\ retention.Path b = retention.Path b' /\
                          retention.ModTime b = retention.ModTime b' /\
                          (b ∉ selected)).
  { intros selected Hsub Eloop.
    assert (Hnds : NoDup (retention.Path <$> selected)).
    { eapply sublist_NoDup; [exact Hnd|]. now apply fmap_sublist. }
    assert (Hflat : forall a b, a ∈ selected -> b ∈ selected ->
              os.childName (retention.Path a) (retention.Path b) = None).
    { intros a b Ha Hb.
      apply (findBackups_flat _ _ _ Hfind); eapply elem_of_sublist; eauto. }
    destruct (removeEach_selected _ _ _ _ Hnds Hflat Eloop) as (_ & Hw & _ & Hall).
    assert (Hsel : removed = selected).
    { apply Hall. intros b Hb. apply Hreg.
      eapply elem_of_sublist; [exact Hb | exact Hsub]. }
    subst removed. split; [reflexivity|]. split; [exact Hw|].
    destruct (Hany fs') as [candidates' Hfind'].
    exists candidates'. split; [exact Hfind'|].
    destruct (findBackups_plain o fs' candidates' Hdir Hvalid Hfind') as [_ Hc'].
    destruct (findBackups_candidates _ _ _ Hfind') as (Hnd' & _ & Hinfo').
    split; [exact Hnd'|].
    intros b' Hb'.
    assert (Hp : retention.Path b' ∈ retention.Path <$> candidates')
      by now apply list_elem_of_fmap_2.
    apply Hc' in Hp as (Hisdir & name & info & Hname & Hlook & Hmatch).
    destruct (without_lookup _ _ _ _ _ Hw Hlook) as [Hgone Hlook0].
    assert (Hp0 : retention.Path b' ∈ retention.Path <$> candidates).
    { apply Hc. split; [eapply without_isDirectory; eassumption|].
      exists name, info. auto. }
    apply list_elem_of_fmap in Hp0 as (b & Hpath & Hb).
    exists b. split; [exact Hb|]. split; [now symmetry|]. split.
    - destruct (Hinfo b Hb) as (i0 & Hs0 & Hm0 & _).
      destruct (Hinfo' b' Hb') as (i1 & Hs1 & Hm1 & _).
      rewrite <- Hpath, Hname, Stat_child, <- Hname in Hs0.
      rewrite Hname, Stat_child, <- Hname in Hs1. congruence.
    - intros Hin. apply Hgone. rewrite Hpath. now apply list_elem_of_fmap_2. }
  destruct (config.MaxBackups (retention.Retention o)) as [N|] eqn:Emax.
  - specialize (HN N eq_refl).
    rewrite (Run_keep_last_N o now fs N candidates Emax HN Hfind) in Hrun.
    cbv zeta in Hrun.
    destruct (retention.removeEach fs _ []) as [r f] eqn:Eloop.
    simpl in Hrun. injection Hrun as <- <- <-.
    destruct (Hloop _ (sublist_take _ _) Eloop)
      as (Hsel & Hw & candidates' & Hfind' & Hnd' & Hfrom).
    rewrite (Run_keep_last_N o now f N candidates' Emax HN Hfind'). cbv zeta.
    assert (Hlen : retention.Len candidates' <= N).
    { set (k := Z.to_nat (retention.Len candidates - N)) in *.
      assert (Hsubset : forall p, p ∈ retention.Path <$> candidates' ->
                          p ∈ retention.Path <$> drop k candidates).
      { intros p Hp. apply list_elem_of_fmap in Hp as (b' & -> & Hb').
        destruct (Hfrom b' Hb') as (b & Hb & Hpath & _ & Hnot).
        rewrite <- Hpath. apply list_elem_of_fmap_2.
        rewrite <- (take_drop k candidates) in Hb.
        apply elem_of_app in Hb as [Hb|Hb]; [contradiction | exact Hb]. }
      assert (Hle : (length (retention.Path <$> candidates') <=
                     length (retention.Path <$> drop k candidates))%nat).
      { apply submseteq_length, NoDup_submseteq; [exact Hnd' | exact Hsubset]. }
      rewrite !length_fmap, length_drop in Hle.
      unfold retention.Len in *. lia. }
    replace (Z.to_nat (retention.Len candidates' - N)) with 0%nat by lia.
    now rewrite take_0.
  - destruct (config.RetentionDays (retention.Retention o)) as [D|] eqn:Edays.
    2:{ unfold retention.HasRetention, config.HasMaxBackups, config.HasRetentionDays in Ehas.
        rewrite Emax, Edays in Ehas. simpl in Ehas.
        rewrite ?bool_decide_eq_false_2 in Ehas by congruence. discriminate. }
    rewrite (Run_keep_younger o now fs D candidates Emax Edays Hfind) in Hrun.
    cbv zeta in Hrun.
    destruct (retention.removeEach fs _ []) as [r f] eqn:Eloop.
    simpl in Hrun. injection Hrun as <- <- <-.
    assert (Hsubc : forall l : retention.BackupFiles,
              List.filter (fun b => retention.Before (retention.ModTime b)
                                      (retention.cutoff now D)) l `sublist_of` l).
    { induction l as [|c l IH]; simpl; [constructor|].
      destruct (retention.Before _ _); [now constructor | now apply sublist_cons]. }
    destruct (Hloop _ (Hsubc candidates) Eloop)
      as (Hsel & Hw & candidates' & Hfind' & Hnd' & Hfrom).
    rewrite (Run_keep_younger o now f D candidates' Emax Edays Hfind'). cbv zeta.
    assert (Hnone : List.filter (fun b => retention.Before (retention.ModTime b)
                                            (retention.cutoff now D)) candidates' = []).
    { destruct (List.filter _ candidates') as [|b' l'] eqn:Ef; [reflexivity|].
      exfalso.
      assert (Hb' : In b' (List.filter (fun b => retention.Before (retention.ModTime b)
                                                   (retention.cutoff now D)) candidates'))
        by (rewrite Ef; now left).
      apply filter_In in Hb' as [Hb' Hold]. apply list_elem_of_In in Hb'.
      destruct (Hfrom b' Hb') as (b & Hb & _ & Htime & Hnot).
      apply Hnot. apply list_elem_of_In, filter_In. split.
      - now apply list_elem_of_In.
      - now rewrite Htime. }
    now rewrite Hnone.
Qed.

End run_again.

(** Five backups and N = 3, run twice on day 6. *)
Lemma Run_again_removes_nothing_witness :
  exists err removed fs',
    retention.Run (rt := scenario.utc) (scenario.engine (scenario.keepLast 3))
      (6 * scenario.day) scenario.five = Returned (err, removed, fs') /\
    retention.Run (rt := scenario.utc) (scenario.engine (scenario.keepLast 3))
      (6 * scenario.day) fs' = Returned (err, [], fs').
Proof.
  destruct (retention.Run (rt := scenario.utc) (scenario.engine (scenario.keepLast 3))
              (6 * scenario.day) scenario.five) as [[[err removed] fs']|] eqn:E.
  - exists err, removed, fs'. split; [reflexivity|].
    apply (Run_again_removes_nothing (rt := scenario.utc) (contract := utc_contract)
             (scenario.engine (scenario.keepLast 3)) (6 * scenario.day) scenario.five fs'
             err removed eq_refl eq_refl).
    + intros N [= <-]. lia.
    + intros candidates Hc. vm_compute in Hc. injection Hc as <-.
      intros b Hb.
      repeat (apply elem_of_cons in Hb as [->|Hb]; [remove_succeeds|]).
      inversion Hb.
    + exact E.
  - apply Run_panics_negative in E as (N & [= <-] & HN). lia.
Defined.

(** ** From the producer to the retention engine and the catalog *)

Lemma mkdirs_spec (rooted : bool) (now : Z) (todo : list string) :
  forall (fs fs' : os.FS) (made : list string),
  os.mkdirs fs rooted made todo now = Some fs' ->
  fs ⊆ fs' /\
  (todo <> [] ->
   exists info, fs' !! (rooted, (made ++ todo)%list) = Some info /\ os.IsDir info = true).
Proof.
  induction todo as [|e todo IH]; intros fs fs' made; simpl.
  - intros [= <-]. split; [reflexivity | congruence].
  - destruct (fs !! (rooted, (made ++ [e])%list)) as [info|] eqn:E.
    + destruct (os.IsDir info) eqn:Hd; [|discriminate].
      intros Hm. destruct (IH _ _ _ Hm) as [Hsub Hlast]. split; [exact Hsub|].
      intros _. destruct todo as [|e' todo].
      * simpl in Hm. injection Hm as <-. eauto.
      * rewrite <- app_assoc in Hlast. apply Hlast. discriminate.
    + intros Hm. destruct (IH _ _ _ Hm) as [Hsub Hlast]. split.
      * etransitivity; [|exact Hsub]. now apply insert_subseteq.
      * intros _. destruct todo as [|e' todo].
        -- simpl in Hm. injection Hm as <-. rewrite lookup_insert_eq. eauto.
        -- rewrite <- app_assoc in Hlast. apply Hlast. discriminate.
Qed.

(** After [os.MkdirAll] the directory is there and what was in the store
    still is. *)
Lemma MkdirAll_isDirectory (fs fs' : os.FS) (path : string) (now : Z) :
  os.MkdirAll fs path now = Some fs' ->
  fs ⊆ fs' /\ path <> "" /\ os.isDirectory fs' (filepath.Clean path) = true.
Proof.
  unfold os.MkdirAll. destruct (String.eqb_spec path ""); [discriminate|].
  intros Hm. destruct (mkdirs_spec _ _ _ _ _ _ Hm) as [Hsub Hlast].
  split; [exact Hsub|]. split; [assumption|].
  unfold os.isDirectory, os.Stat.
  destruct (filepath.Clean path) as [rooted elems]. simpl in *.
  destruct elems as [|e elems]; [reflexivity|].
  destruct Hlast as (info & -> & Hd); [discriminate | exact Hd].
Qed.

Section producer_other.

Context {codec : backup.Codec} {rt : retention.Runtime}.

(** [executePgDump] touches the output file only. *)
Lemma executePgDump_other (o : backup.Options) (x : backup.Dump) (now : Z)
    (fs fs' : os.FS) (p q : PathName) (err : option backup.DumpError) (started : bool) :
  backup.executePgDump o x now fs p = (err, fs', started) ->
  q <> p -> fs' !! q = fs !! q.
Proof.
  intros Hd Hq.
  assert (Hwrite : forall f n t, os.Write f p n t !! q = f !! q).
  { intros f n t. unfold os.Write. destruct (f !! p); [|reflexivity].
    now apply lookup_insert_ne. }
  assert (Hremove : forall f, default f (os.Remove f p) !! q = f !! q).
  { intros f. destruct (os.Remove f p) as [f'|] eqn:Er; [|reflexivity].
    apply Remove_Some in Er as [-> _]. simpl. now apply lookup_delete_ne. }
  assert (Hclose : forall f data t, backup.closeWriters o f p data t !! q = f !! q).
  { intros f data t. unfold backup.closeWriters. apply Hwrite. }
  assert (Hinto : forall f, backup.dumpInto o x now f p = (err, fs', started) ->
                            fs' !! q = f !! q).
  { intros f. unfold backup.dumpInto.
    destruct (negb (backup.pipe_ok x)); [intros [= <- <- <-]; apply Hclose|].
    destruct (negb (backup.start_ok x)); [intros [= <- <- <-]; apply Hclose|].
    destruct (_ || _); intros [= <- <- <-]; rewrite Hclose; [apply Hremove | reflexivity]. }
  unfold backup.executePgDump in Hd.
  destruct (os.Create fs p now) as [fs1|] eqn:Ec; [|now injection Hd as <- <- <-].
  apply Create_Some in Ec as [_ ->].
  unfold backup.openWriters in Hd. destruct (backup.IsEncryptEnabled o).
  - destruct (String.eqb _ "");
      [injection Hd as <- <- <-; now apply lookup_insert_ne|].
    destruct (negb (backup.age_ok x));
      [injection Hd as <- <- <-; now apply lookup_insert_ne|].
    rewrite (Hinto _ Hd), Hwrite. now apply lookup_insert_ne.
  - rewrite (Hinto _ Hd). now apply lookup_insert_ne.
Qed.

End producer_other.

Lemma child_neq (d : PathName) (name : string) : filepath.child d name <> d.
Proof.
  destruct d as [r l]. unfold filepath.child. simpl. intros [= E].
  apply (f_equal (@length string)) in E. rewrite length_app in E. simpl in E. lia.
Qed.

(** The names [WithConfig] generates, with the suffix of an encrypted
    backup or without, are names of one path element, match the pattern of
    the retention engine and pass the filter of the catalog. *)
Lemma produced_name (db stamp : string) (encrypted : bool) :
  config.isValidPostgresName db = true ->
  Forall (fun c => Ascii.eqb c filepath.Separator = false) (bytes stamp) ->
  let generated := db ++ "-" ++ stamp ++ ".sql.gz" in
  let filename := if encrypted then generated ++ ".age" else generated in
  Forall (fun c => Ascii.eqb c filepath.Separator = false) (bytes filename) /\
  filename <> "" /\ filename <> "." /\ filename <> ".." /\
  filepath.Match (db ++ "-*.sql.gz*") filename = Some true /\
  utils.IsFileBackup filename = true /\
  HasSuffix filename ".age" = encrypted.
Proof.
  intros Hvalid Hstamp generated filename.
  destruct (validName_bytes _ Hvalid) as (c & rest & Eb & Hchars).
  assert (Hdb : Forall (fun c => Ascii.eqb c filepath.Separator = false) (bytes db)).
  { rewrite Eb. eapply Forall_impl; [exact Hchars|]. intros y Hy. now apply nameChar_plain. }
  assert (Hc : Ascii.eqb c "." = false).
  { inversion Hchars; subst. now apply nameChar_plain. }
  assert (Hshape : bytes filename =
            (bytes (db ++ "-") ++ bytes stamp ++ bytes ".sql.gz" ++
             bytes (if encrypted then ".age" else ""))%list).
  { unfold filename, generated. destruct encrypted; rewrite !bytes_app;
      rewrite <- ?app_assoc; simpl; rewrite ?app_nil_r; reflexivity. }
  assert (Htail : Forall (fun c => Ascii.eqb c filepath.Separator = false)
                    (bytes stamp ++ bytes ".sql.gz" ++
                     bytes (if encrypted then ".age" else ""))%list).
  { apply Forall_app. split; [exact Hstamp|]. destruct encrypted; vm_compute;
      repeat constructor. }
  assert (Hhead : exists tl, bytes filename = c :: tl /\ tl <> [] /\
                             (tl = ["."%char] -> False)).
  { rewrite Hshape, bytes_app, Eb. simpl. eexists. split; [reflexivity|].
    split; [destruct rest; discriminate|].
    destruct rest as [|r0 rest]; simpl.
    - destruct (bytes stamp); discriminate.
    - intros [= _ E]. destruct rest; discriminate. }
  destruct Hhead as (tl & Etl & Hne & Hdot).
  split; [|split; [|split; [|split; [|split; [|split]]]]].
  - rewrite Hshape. apply Forall_app. split; [|exact Htail].
    rewrite bytes_app. apply Forall_app. split; [exact Hdb|]. repeat constructor.
  - intros E. rewrite E in Etl. discriminate.
  - intros E. rewrite E in Etl. injection Etl as <- <-. congruence.
  - intros E. rewrite E in Etl. injection Etl as <- <-. discriminate.
  - rewrite (backup_pattern_Match _ _ Hvalid). f_equal. rewrite Hshape.
    now apply twoStars_complete.
  - unfold utils.IsFileBackup, filename, generated. destruct encrypted.
    + now rewrite HasSuffix_app.
    + replace (db ++ "-" ++ stamp ++ ".sql.gz") with ((db ++ "-" ++ stamp ++ ".sql") ++ ".gz")
        by (rewrite !append_assoc; reflexivity).
      rewrite HasSuffix_app. now rewrite andb_false_r.
  - unfold filename, generated. destruct encrypted.
    + apply HasSuffix_app.
    + replace (db ++ "-" ++ stamp ++ ".sql.gz") with ((db ++ "-" ++ stamp) ++ ".sql.gz")
        by (rewrite !append_assoc; reflexivity).
      apply HasSuffix_age_gz.
Qed.

Section written_backup.

Context {codec : backup.Codec} {rt : retention.Runtime}
        {contract : vocabulary.SortContract rt}.

Variable stamp : Z -> string.
Variable FormatTime : Z -> string.

(** What a successful run of the producer configured by [WithConfig] has
    written, in a directory whose name has no magic character. *)
Lemma Run_ok_written (cfg : config.Config) (x : backup.Dump) (now : Z) (fs : os.FS)
    (out : backup.Outcome) (f : PathName) :
  let o := backup.WithConfig stamp cfg in
  let d := filepath.Clean (config.Dir (config.LocalBackup cfg)) in
  let generated := config.Name (config.Database cfg) ++ "-" ++ stamp now ++ ".sql.gz" in
  let filename := if backup.IsEncryptEnabled o then generated ++ ".age" else generated in
  filepath.hasMeta (config.Dir (config.LocalBackup cfg)) = false ->
  config.isValidPostgresName (config.Name (config.Database cfg)) = true ->
  Forall (fun c => Ascii.eqb c filepath.Separator = false) (bytes (stamp now)) ->
  backup.Run o x now fs = Returned out ->
  backup.ret out = backup.Ok f ->
  f = filepath.child d filename /\
  config.Dir (config.LocalBackup cfg) <> "" /\
  os.isDirectory (backup.files out) d = true /\
  ((f ∉ retention.Path <$> backup.pruned out) ->
   exists info, backup.files out !! f = Some info /\ os.IsDir info = false /\
                10 <= os.Size info).
Proof.
  intros o d generated filename Hdir Hvalid Hstamp Hrun Hok.
  destruct (produced_name _ _ (backup.IsEncryptEnabled o) Hvalid Hstamp)
    as (Hsep & Hn0 & Hn1 & Hn2 & _).
  fold generated in Hsep, Hn0, Hn1, Hn2. fold filename in Hsep, Hn0, Hn1, Hn2.
  assert (Hp : backup.outputFile o now = filepath.child d filename).
  { unfold backup.outputFile. cbv zeta.
    change (backup.GenerateFileName o now) with generated.
    fold filename. now apply Join_child. }
  unfold backup.Run in Hrun. rewrite Hp in Hrun.
  change (backup.OutputDir o) with (config.Dir (config.LocalBackup cfg)) in Hrun.
  destruct (os.MkdirAll fs (config.Dir (config.LocalBackup cfg)) now) as [fs1|] eqn:Em.
  2:{ injection Hrun as <-. discriminate. }
  apply MkdirAll_isDirectory in Em as (_ & Hne & Hd1). fold d in Hd1.
  destruct (backup.executePgDump o x now fs1 (filepath.child d filename))
    as [[err fs2] started] eqn:Ed.
  destruct err as [e|]; [injection Hrun as <-; discriminate|].
  destruct (executePgDump_result _ _ _ _ _ _ _ _ Ed) as (_ & _ & info & Hi & Hfile & Hsize).
  assert (Hd2 : os.isDirectory fs2 d = true).
  { unfold os.isDirectory, os.Stat in *. destruct d.2 eqn:E2; [reflexivity|].
    rewrite (executePgDump_other _ _ _ _ _ _ d _ _ Ed); [exact Hd1|].
    intros E. symmetry in E. now apply child_neq in E. }
  rewrite Stat_child, Hi in Hrun.
  destruct (Z.eqb_spec (os.Size info) 0); [lia|].
  destruct (backup.HasRetention o).
  - pose proof (Run_removes_candidates (backup.createRetention o)
                  (now + backup.elapsed x) fs2) as Hscope.
    destruct (retention.Run _ _ _) as [[[e removed] fs3]|]; [|discriminate].
    injection Hrun as <-. simpl in *. injection Hok as <-.
    destruct Hscope as [Hw Hcand].
    assert (Hchildren : forall p, p ∈ retention.Path <$> removed ->
                          exists name, p = filepath.child d name).
    { intros p Hin. apply list_elem_of_fmap in Hin as (b & -> & Hb).
      destruct (Hcand b Hb) as (candidates & Hfind & Hbc).
      destruct (findBackups_plain (backup.createRetention o) fs2 candidates Hdir Hvalid
                  Hfind) as [_ Hc].
      assert (Hpc : retention.Path b ∈ retention.Path <$> candidates)
        by now apply list_elem_of_fmap_2.
      apply Hc in Hpc as (_ & name & _ & Hname & _). eauto. }
    split; [reflexivity|]. split; [exact Hne|]. split.
    + unfold os.isDirectory, os.Stat in *. destruct d.2 eqn:E2; [reflexivity|].
      rewrite (Hw d). rewrite bool_decide_eq_false_2; [exact Hd2|].
      intros Hin. apply Hchildren in Hin as [name Hname].
      symmetry in Hname. now apply child_neq in Hname.
    + intros Hnot. exists info. rewrite (Hw _).
      rewrite bool_decide_eq_false_2 by exact Hnot. auto.
  - injection Hrun as <-. simpl in *. injection Hok as <-.
    split; [reflexivity|]. split; [exact Hne|]. split; [exact Hd2|]. eauto.
Qed.

(** The producer and the retention engine agree: in a directory whose
    name has no magic character, the file a successful run has written,
    unless the retention step of the same run has removed it, is a
    candidate of the retention engine on the store the run leaves. *)
Theorem written_backup_is_candidate (cfg : config.Config) (x : backup.Dump) (now : Z)
    (fs : os.FS) (out : backup.Outcome) (f : PathName)
    (candidates : retention.BackupFiles) :
  let o := backup.WithConfig stamp cfg in
  filepath.hasMeta (config.Dir (config.LocalBackup cfg)) = false ->
  config.isValidPostgresName (config.Name (config.Database cfg)) = true ->
  Forall (fun c => Ascii.eqb c filepath.Separator = false) (bytes (stamp now)) ->
  backup.Run o x now fs = Returned out ->
  backup.ret out = backup.Ok f ->
  (f ∉ retention.Path <$> backup.pruned out) ->
  retention.findBackups (backup.createRetention o) (backup.files out) = Some candidates ->
  exists b, b ∈ candidates /\ retention.Path b = f /\ 10 <= retention.Size b.
Proof.
  intros o Hdir Hvalid Hstamp Hrun Hok Hkept Hfind.
  destruct (Run_ok_written cfg x now fs out f Hdir Hvalid Hstamp Hrun Hok)
    as (Hf & _ & Hd & Hfile).
  destruct (Hfile Hkept) as (info & Hi & _ & Hsize).
  destruct (produced_name _ _ (backup.IsEncryptEnabled o) Hvalid Hstamp)
    as (_ & _ & _ & _ & Hmatch & _).
  destruct (findBackups_plain (backup.createRetention o) (backup.files out) candidates
              Hdir Hvalid Hfind) as [_ Hc].
  assert (Hin : f ∈ retention.Path <$> candidates).
  { apply Hc. split; [exact Hd|]. eexists _, info. split; [exact Hf|].
    split; [exact Hi | exact Hmatch]. }
  apply list_elem_of_fmap in Hin as (b & Hb & Hbc). exists b.
  split; [exact Hbc|]. split; [now symmetry|].
  destruct (findBackups_candidates _ _ _ Hfind) as (_ & _ & Hinfo).
  destruct (Hinfo b Hbc) as (i & Hs & _ & Hsz).
  rewrite <- Hb, Hf, Stat_child, <- Hf, Hi in Hs. injection Hs as <-. lia.
Qed.

(** The producer and the catalog agree: the file a successful run has
    written, unless the retention step of the same run has removed it, is
    in the local listing of the backup directory, under its name, with its
    size, and marked encrypted exactly when an encryption key is set. *)
Theorem written_backup_is_listed (cfg : config.Config) (x : backup.Dump) (now : Z)
    (fs : os.FS) (out : backup.Outcome) (f : PathName) :
  let o := backup.WithConfig stamp cfg in
  filepath.hasMeta (config.Dir (config.LocalBackup cfg)) = false ->
  config.isValidPostgresName (config.Name (config.Database cfg)) = true ->
  Forall (fun c => Ascii.eqb c filepath.Separator = false) (bytes (stamp now)) ->
  backup.Run o x now fs = Returned out ->
  backup.ret out = backup.Ok f ->
  (f ∉ retention.Path <$> backup.pruned out) ->
  exists files b,
    catalog.listLocal FormatTime (backup.files out) (config.Dir (config.LocalBackup cfg))
      = Some files /\
    b ∈ files /\
    catalog.Name b = filepath.Base f /\
    10 <= catalog.Size b /\
    catalog.Encrypted b = backup.IsEncryptEnabled o.
Proof.
  intros o Hdir Hvalid Hstamp Hrun Hok Hkept.
  destruct (Run_ok_written cfg x now fs out f Hdir Hvalid Hstamp Hrun Hok)
    as (Hf & Hne & Hd & Hfile).
  destruct (Hfile Hkept) as (info & Hi & Hreg & Hsize).
  destruct (produced_name _ _ (backup.IsEncryptEnabled o) Hvalid Hstamp)
    as (_ & _ & _ & _ & _ & Hbackup & Hage).
  set (filename := if backup.IsEncryptEnabled o then _ else _) in *.
  unfold catalog.listLocal, os.ReadDir.
  rewrite (proj2 (String.eqb_neq _ _) Hne), Hd.
  eexists _, {| catalog.ShortID := utils.GenerateShortID filename (os.ModTime info);
                catalog.Name := filename; catalog.Size := os.Size info;
                catalog.ModTime := FormatTime (os.ModTime info);
                catalog.Encrypted := HasSuffix filename ".age" |}.
  split; [reflexivity|]. split; [|split; [|split; [exact Hsize | exact Hage]]].
  - apply list_elem_of_omap.
    exists {| os.Name := filename; os.EntryIsDir := os.IsDir info; os.Info := info |}.
    split.
    + apply list_elem_of_fmap. exists (filename, info). split; [reflexivity|].
      apply entries_complete. rewrite Hf in Hi. exact Hi.
    + unfold catalog.localEntry. simpl. now rewrite Hreg, Hbackup.
  - simpl. rewrite Hf. unfold filepath.Base, filepath.child. simpl.
    now rewrite last_snoc.
Qed.

End written_backup.

Lemma backup_Run_panics_negative {codec : backup.Codec} {rt : retention.Runtime}
    (o : backup.Options) (x : backup.Dump) (now : Z) (fs : os.FS) :
  backup.Run o x now fs = Panicked ->
  exists N, config.MaxBackups (backup.Retention o) = Some N /\ N < 0.
Proof.
  unfold backup.Run.
  destruct (os.MkdirAll _ _ _); [|discriminate].
  destruct (backup.executePgDump _ _ _ _ _) as [[[e|] fs2] started]; [discriminate|].
  destruct (os.Stat _ _); [|discriminate].
  destruct (_ =? 0); [discriminate|].
  destruct (backup.HasRetention _); [|discriminate].
  destruct (retention.Run _ _ _) as [[[e r] fs3]|] eqn:Eret; [discriminate|].
  intros _. now apply Run_panics_negative in Eret.
Qed.

(** The daemon's producer on the store of five backups, on day 6. *)
Lemma written_backup_is_candidate_witness :
  exists out f candidates b,
    backup.Run (codec := scenario.codec) (rt := scenario.utc)
      (backup.WithConfig itoa scenario.daemonConfig) (scenario.dumpOk (bytes "data"))
      (6 * scenario.day) scenario.five = Returned out /\
    backup.ret out = backup.Ok f /\
    retention.findBackups (rt := scenario.utc)
      (backup.createRetention (backup.WithConfig itoa scenario.daemonConfig))
      (backup.files out) = Some candidates /\
    b ∈ candidates /\ retention.Path b = f /\ 10 <= retention.Size b.
Proof.
  pose (run := backup.Run (codec := scenario.codec) (rt := scenario.utc)
                 (backup.WithConfig itoa scenario.daemonConfig)
                 (scenario.dumpOk (bytes "data")) (6 * scenario.day) scenario.five).
  assert (Hret : match run with
                 | Returned o => Some (backup.ret o)
                 | Panicked => None
                 end = Some (backup.Ok (true, ["backups"; "app-518400000000000.sql.gz"])))
    by (vm_compute; reflexivity).
  assert (Hpruned : match run with
                    | Returned o => Some (retention.Path <$> backup.pruned o)
                    | Panicked => None
                    end = Some [(true, ["backups"; "app-0001.sql.gz"]);
                                (true, ["backups"; "app-0002.sql.gz"]);
                                (true, ["backups"; "app-0003.sql.gz"])])
    by (vm_compute; reflexivity).
  assert (Hfind : match run with
                  | Returned o =>
                      bool_decide (is_Some (retention.findBackups (rt := scenario.utc)
                        (backup.createRetention (backup.WithConfig itoa scenario.daemonConfig))
                        (backup.files o)))
                  | Panicked => false
                  end = true)
    by (vm_compute; reflexivity).
  destruct run as [out|] eqn:E; [|discriminate].
  injection Hret as Hret. injection Hpruned as Hpruned.
  apply bool_decide_eq_true in Hfind as [candidates Hfind].
  assert (Hstamp : Forall (fun c => Ascii.eqb c filepath.Separator = false)
                     (bytes (itoa (6 * scenario.day))))
    by (vm_compute; repeat constructor).
  assert (Hkept : (true, ["backups"; "app-518400000000000.sql.gz"])
                    ∉ retention.Path <$> backup.pruned out).
  { rewrite Hpruned. intros Hin.
    repeat (apply elem_of_cons in Hin as [Hin|Hin]; [discriminate|]). inversion Hin. }
  destruct (written_backup_is_candidate (codec := scenario.codec) (rt := scenario.utc)
              (contract := utc_contract) itoa scenario.daemonConfig
              (scenario.dumpOk (bytes "data")) (6 * scenario.day) scenario.five out
              (true, ["backups"; "app-518400000000000.sql.gz"]) candidates
              eq_refl eq_refl Hstamp E Hret Hkept Hfind)
    as (b & Hb & Hpath & Hsize).
  exists out, (true, ["backups"; "app-518400000000000.sql.gz"]), candidates, b.
  split; [exact E|]. split; [exact Hret|]. split; [exact Hfind|]. auto.
Defined.

Lemma written_backup_is_listed_witness :
  exists out f files b,
    backup.Run (codec := scenario.codec) (rt := scenario.utc)
      (backup.WithConfig itoa scenario.daemonConfig) (scenario.dumpOk (bytes "data"))
      (6 * scenario.day) scenario.five = Returned out /\
    backup.ret out = backup.Ok f /\
    catalog.listLocal scenario.formatTime (backup.files out) "/backups" = Some files /\
    b ∈ files /\ catalog.Name b = filepath.Base f /\ catalog.Encrypted b = false.
Proof.
  pose (run := backup.Run (codec := scenario.codec) (rt := scenario.utc)
                 (backup.WithConfig itoa scenario.daemonConfig)
                 (scenario.dumpOk (bytes "data")) (6 * scenario.day) scenario.five).
  assert (Hret : match run with
                 | Returned o => Some (backup.ret o)
                 | Panicked => None
                 end = Some (backup.Ok (true, ["backups"; "app-518400000000000.sql.gz"])))
    by (vm_compute; reflexivity).
  assert (Hpruned : match run with
                    | Returned o => Some (retention.Path <$> backup.pruned o)
                    | Panicked => None
                    end = Some [(true, ["backups"; "app-0001.sql.gz"]);
                                (true, ["backups"; "app-0002.sql.gz"]);
                                (true, ["backups"; "app-0003.sql.gz"])])
    by (vm_compute; reflexivity).
  destruct run as [out|] eqn:E; [|discriminate].
  injection Hret as Hret. injection Hpruned as Hpruned.
  assert (Hstamp : Forall (fun c => Ascii.eqb c filepath.Separator = false)
                     (bytes (itoa (6 * scenario.day))))
    by (vm_compute; repeat constructor).
  assert (Hkept : (true, ["backups"; "app-518400000000000.sql.gz"])
                    ∉ retention.Path <$> backup.pruned out).
  { rewrite Hpruned. intros Hin.
    repeat (apply elem_of_cons in Hin as [Hin|Hin]; [discriminate|]). inversion Hin. }
  destruct (written_backup_is_listed (codec := scenario.codec) (rt := scenario.utc)
              (contract := utc_contract) itoa scenario.formatTime scenario.daemonConfig
              (scenario.dumpOk (bytes "data")) (6 * scenario.day) scenario.five out
              (true, ["backups"; "app-518400000000000.sql.gz"])
              eq_refl eq_refl Hstamp E Hret Hkept)
    as (files & b & Hl & Hb & Hname & _ & Henc).
  exists out, (true, ["backups"; "app-518400000000000.sql.gz"]), files, b.
  split; [exact E|]. split; [exact Hret|]. split; [exact Hl|]. auto.
Defined.

(** ** The candidates of the retention engine, by name *)



Section candidates_by_name.

Context {rt : retention.Runtime} {contract : vocabulary.SortContract rt}.


End candidates_by_name.


(** ** The producer on concrete dumps *)


(** A dump that writes nothing and exits with status zero. *)
Lemma empty_file_error_unreachable_witness :
  exists out,
    backup.Run (codec := scenario.codec) (rt := scenario.utc)
      (scenario.producer scenario.noRetention) (scenario.dumpOk []) 1000
      scenario.listed = Returned out /\
    backup.ret out <> backup.Fail backup.ErrEmptyFile.
Proof.
  destruct (backup.Run (codec := scenario.codec) (rt := scenario.utc)
              (scenario.producer scenario.noRetention) (scenario.dumpOk []) 1000
              scenario.listed) as [out|] eqn:E.
  - exists out. split; [reflexivity|].
    exact (empty_file_error_unreachable (codec := scenario.codec) (rt := scenario.utc)
             (scenario.producer scenario.noRetention) (scenario.dumpOk []) 1000
             scenario.listed out E).
  - apply backup_Run_panics_negative in E as (N & HN & _). discriminate.
Defined.

(** ** The backup just written survives the retention step *)

Lemma mkdirs_frame (rooted : bool) (now : Z) (todo : list string) :
  forall (fs fs' : os.FS) (made : list string) (q : PathName),
  os.mkdirs fs rooted made todo now = Some fs' ->
  (length made + length todo < length q.2)%nat ->
  fs' !! q = fs !! q.
Proof.
  induction todo as [|e todo IH]; intros fs fs' made q; simpl.
  - now intros [= <-].
  - destruct (fs !! (rooted, (made ++ [e])%list)) as [info|] eqn:E.
    + destruct (os.IsDir info); [|discriminate].
      intros Hm Hlen. apply (IH _ _ _ _ Hm). rewrite length_app. simpl. lia.
    + intros Hm Hlen. rewrite (IH _ _ _ _ Hm) by (rewrite length_app; simpl; lia).
      apply lookup_insert_ne. intros Eq. subst q. simpl in Hlen.
      rewrite length_app in Hlen. simpl in Hlen. lia.
Qed.

Lemma MkdirAll_children (fs fs' : os.FS) (path name : string) (now : Z) :
  os.MkdirAll fs path now = Some fs' ->
  fs' !! filepath.child (filepath.Clean path) name =
  fs !! filepath.child (filepath.Clean path) name.
Proof.
  unfold os.MkdirAll. destruct (String.eqb path ""); [discriminate|].
  intros Hm. apply (mkdirs_frame _ _ _ _ _ _ _ Hm).
  unfold filepath.child. simpl. rewrite length_app. simpl. lia.
Qed.

Section producer_time.

Context {codec : backup.Codec} {rt : retention.Runtime}.

(** The file of a dump that succeeded was last written when the process
    ended. *)
Lemma executePgDump_modtime (o : backup.Options) (x : backup.Dump) (now : Z)
    (fs fs' : os.FS) (p : PathName) (started : bool) :
  backup.executePgDump o x now fs p = (None, fs', started) ->
  exists info, fs' !! p = Some info /\ os.ModTime info = now + backup.elapsed x.
Proof.
  unfold backup.executePgDump.
  destruct (os.Create fs p now) as [fs1|] eqn:Ec; [|discriminate].
  apply Create_Some in Ec as [_ ->].
  assert (Hinto : forall f info, f !! p = Some info ->
            backup.dumpInto o x now f p = (None, fs', started) ->
            exists info', fs' !! p = Some info' /\
                          os.ModTime info' = now + backup.elapsed x).
  { intros f info Hi. unfold backup.dumpInto.
    destruct (negb (backup.pipe_ok x)); [discriminate|].
    destruct (negb (backup.start_ok x)); [discriminate|].
    destruct (_ || _); [discriminate|].
    intros [= <- _]. unfold backup.closeWriters.
    erewrite Write_present by exact Hi. eauto. }
  unfold backup.openWriters. destruct (backup.IsEncryptEnabled o).
  - destruct (String.eqb _ ""); [discriminate|].
    destruct (negb (backup.age_ok x)); [discriminate|].
    eapply Hinto. erewrite Write_present by apply lookup_insert_eq. reflexivity.
  - eapply Hinto. apply lookup_insert_eq.
Qed.

End producer_time.

Section survives.

Context {codec : backup.Codec} {rt : retention.Runtime}
        {contract : vocabulary.SortContract rt}.

Variable stamp : Z -> string.

(** A successful run never prunes the file it has just written: with a
    maximum count of at least one when the entries already in the backup
    directory were last written before the dump ended, and with a number
    of days whose cutoff is not after the end of the dump.  The file is
    then on disk when [Run] returns its path. *)
Theorem written_backup_survives_retention (cfg : config.Config) (x : backup.Dump)
    (now : Z) (fs : os.FS) (out : backup.Outcome) (f : PathName) :
  let o := backup.WithConfig stamp cfg in
  let d := filepath.Clean (config.Dir (config.LocalBackup cfg)) in
  let ended := now + backup.elapsed x in
  filepath.hasMeta (config.Dir (config.LocalBackup cfg)) = false ->
  config.isValidPostgresName (config.Name (config.Database cfg)) = true ->
  Forall (fun c => Ascii.eqb c filepath.Separator = false) (bytes (stamp now)) ->
  (forall N, config.MaxBackups (backup.Retention o) = Some N ->
     1 <= N /\
     forall name info, fs !! filepath.child d name = Some info -> os.ModTime info < ended) ->
  (forall D, config.MaxBackups (backup.Retention o) = None ->
     config.RetentionDays (backup.Retention o) = Some D ->
     retention.cutoff ended D <= ended) ->
  backup.Run o x now fs = Returned out ->
  backup.ret out = backup.Ok f ->
  (f ∉ retention.Path <$> backup.pruned out) /\
  exists info, backup.files out !! f = Some info /\ os.IsDir info = false /\
               10 <= os.Size info /\ os.ModTime info = ended.
Proof.
  intros o d ended Hdir Hvalid Hstamp Hcount Hdays Hrun Hok.
  destruct (produced_name _ _ (backup.IsEncryptEnabled o) Hvalid Hstamp)
    as (Hsep & Hn0 & Hn1 & Hn2 & _).
  set (filename := if backup.IsEncryptEnabled o then _ else _) in *.
  assert (Hp : backup.outputFile o now = filepath.child d filename).
  { unfold backup.outputFile. cbv zeta. now apply Join_child. }
  unfold backup.Run in Hrun. rewrite Hp in Hrun.
  change (backup.OutputDir o) with (config.Dir (config.LocalBackup cfg)) in Hrun.
  destruct (os.MkdirAll fs (config.Dir (config.LocalBackup cfg)) now) as [fs1|] eqn:Em.
  2:{ injection Hrun as <-. discriminate. }
  destruct (backup.executePgDump o x now fs1 (filepath.child d filename))
    as [[err fs2] started] eqn:Ed.
  destruct err as [e|]; [injection Hrun as <-; discriminate|].
  destruct (executePgDump_result _ _ _ _ _ _ _ _ Ed) as (_ & _ & info & Hi & Hfile & Hsize).
  destruct (executePgDump_modtime _ _ _ _ _ _ _ Ed) as (info' & Hi' & Htime).
  rewrite Hi in Hi'. injection Hi' as <-. fold ended in Htime.
  rewrite Stat_child, Hi in Hrun.
  destruct (Z.eqb_spec (os.Size info) 0); [lia|].
  destruct (backup.HasRetention o).
  2:{ injection Hrun as <-. simpl in *. injection Hok as <-.
      split; [intros Hin; inversion Hin | eauto 6]. }
  destruct (retention.Run (backup.createRetention o) (now + backup.elapsed x) fs2)
    as [[[e removed] fs3]|] eqn:Eret; [|discriminate].
  fold ended in Eret.
  injection Hrun as <-. simpl in *. injection Hok as <-.
  pose proof (Run_removes_candidates (backup.createRetention o) ended fs2) as Hscope.
  rewrite Eret in Hscope. destruct Hscope as [Hw Hcand].
  assert (Hkept : filepath.child d filename ∉ retention.Path <$> removed).
  { intros Hin. apply list_elem_of_fmap in Hin as (b & Hpath & Hb).
    destruct (Hcand b Hb) as (candidates & Hfind & Hbc).
    destruct (findBackups_candidates _ _ _ Hfind) as (Hnd & Hsorted & Hinfo).
    destruct (findBackups_plain (backup.createRetention o) fs2 candidates Hdir Hvalid Hfind)
      as [_ Hc].
    assert (Hbtime : retention.ModTime b = ended).
    { destruct (Hinfo b Hbc) as (i & Hs & Hm & _).
      rewrite <- Hpath, Stat_child, Hi in Hs. injection Hs as <-. congruence. }
    destruct (config.MaxBackups (config.Retention (config.LocalBackup cfg))) as [N|] eqn:Emax.
    - destruct (Hcount N eq_refl) as [HN Holder].
      rewrite (Run_keep_last_N (backup.createRetention o) ended fs2 N candidates
                 Emax ltac:(lia) Hfind) in Eret.
      cbv zeta in Eret.
      set (k := Z.to_nat (retention.Len candidates - N)) in *.
      destruct (retention.removeEach fs2 (take k candidates) []) as [r f3] eqn:Eloop.
      simpl in Eret. injection Eret as _ <- <-.
      assert (Hnds : NoDup (retention.Path <$> take k candidates)).
      { rewrite fmap_take. eapply sublist_NoDup; [exact Hnd | apply sublist_take]. }
      destruct (removeEach_frame _ _ _ _ Hnds Eloop) as (Hsub & _).
      assert (Hbk : b ∈ take k candidates)
        by (eapply elem_of_sublist; [exact Hb | exact Hsub]).
      assert (Hlen : (k < length candidates)%nat).
      { unfold k, retention.Len.
        assert (0 < length candidates)%nat
          by (destruct candidates; [inversion Hbc | simpl; lia]).
        lia. }
      destruct (drop k candidates) as [|c rest] eqn:Edrop.
      { apply (f_equal (@length _)) in Edrop. rewrite length_drop in Edrop.
        simpl in Edrop. lia. }
      assert (Hcd : c ∈ drop k candidates) by (rewrite Edrop; now left).
      assert (Hcc : c ∈ candidates).
      { rewrite <- (take_drop k candidates). apply elem_of_app. now right. }
      pose proof (take_drop_order candidates k b c Hsorted Hbk Hcd) as Hle.
      pose proof (take_drop_disjoint candidates k c r Hnd Hsub Hcd) as Hdis.
      assert (Hcp : retention.Path c ∈ retention.Path <$> candidates)
        by now apply list_elem_of_fmap_2.
      apply Hc in Hcp as (_ & name & ic & Hname & Hlook & _).
      assert (Hne : retention.Path c <> filepath.child d filename).
      { intros E. apply Hdis. rewrite E, Hpath. now apply list_elem_of_fmap_2. }
      destruct (Hinfo c Hcc) as (i & Hs & Hm & _).
      rewrite Hname, Stat_child, <- Hname, Hlook in Hs. injection Hs as <-.
      rewrite (executePgDump_other _ _ _ _ _ _ (retention.Path c) _ _ Ed Hne) in Hlook.
      rewrite Hname, (MkdirAll_children _ _ _ _ _ Em) in Hlook.
      specialize (Holder _ _ Hlook). lia.
    - destruct (config.RetentionDays (config.Retention (config.LocalBackup cfg)))
        as [D|] eqn:Eday.
      + specialize (Hdays D eq_refl eq_refl).
        rewrite (Run_keep_younger (backup.createRetention o) ended fs2 D candidates
                   Emax Eday Hfind) in Eret.
        cbv zeta in Eret.
        destruct (retention.removeEach fs2 _ []) as [r f3] eqn:Eloop.
        simpl in Eret. injection Eret as _ <- <-.
        assert (Hsubc : List.filter (fun b => retention.Before (retention.ModTime b)
                                               (retention.cutoff ended D)) candidates
                          `sublist_of` candidates).
        { clear. induction candidates as [|c l IH]; simpl; [constructor|].
          destruct (retention.Before _ _); [now constructor | now apply sublist_cons]. }
        assert (Hnds : NoDup (retention.Path <$>
                  List.filter (fun b => retention.Before (retention.ModTime b)
                                          (retention.cutoff ended D)) candidates)).
        { eapply sublist_NoDup; [exact Hnd|]. now apply fmap_sublist. }
        destruct (removeEach_frame _ _ _ _ Hnds Eloop) as (Hsub & _).
        assert (Hbf : In b (List.filter (fun b => retention.Before (retention.ModTime b)
                                                   (retention.cutoff ended D)) candidates)).
        { apply list_elem_of_In. eapply elem_of_sublist; [exact Hb | exact Hsub]. }
        apply filter_In in Hbf as [_ Hold]. unfold retention.Before in Hold.
        apply Z.ltb_lt in Hold. lia.
      + unfold retention.Run, retention.HasRetention, config.HasMaxBackups,
          config.HasRetentionDays in Eret.
        simpl in Eret. rewrite Emax, Eday in Eret. simpl in Eret.
        injection Eret as _ <- _. inversion Hb. }
  split; [exact Hkept|].
  exists info. rewrite (Hw _). rewrite bool_decide_eq_false_2 by exact Hkept. auto.
Qed.

End survives.

(** The daemon's producer on the store of five backups, on day 6. *)
Lemma written_backup_survives_retention_witness :
  exists out f,
    backup.Run (codec := scenario.codec) (rt := scenario.utc)
      (backup.WithConfig itoa scenario.daemonConfig) (scenario.dumpOk (bytes "data"))
      (6 * scenario.day) scenario.five = Returned out /\
    backup.ret out = backup.Ok f /\
    (f ∉ retention.Path <$> backup.pruned out) /\
    exists info, backup.files out !! f = Some info /\ os.IsDir info = false /\
                 10 <= os.Size info /\
                 os.ModTime info = 6 * scenario.day + 5 * scenario.second.
Proof.
  pose (run := backup.Run (codec := scenario.codec) (rt := scenario.utc)
                 (backup.WithConfig itoa scenario.daemonConfig)
                 (scenario.dumpOk (bytes "data")) (6 * scenario.day) scenario.five).
  assert (Hret : match run with
                 | Returned o => Some (backup.ret o)
                 | Panicked => None
                 end = Some (backup.Ok (true, ["backups"; "app-518400000000000.sql.gz"])))
    by (vm_compute; reflexivity).
  destruct run as [out|] eqn:E; [|discriminate].
  injection Hret as Hret.
  assert (Hstamp : Forall (fun c => Ascii.eqb c filepath.Separator = false)
                     (bytes (itoa (6 * scenario.day))))
    by (vm_compute; repeat constructor).
  assert (Hold : forall (p : PathName) info,
                   scenario.five !! p = Some info ->
                   os.ModTime info < 6 * scenario.day + 5 * scenario.second).
  { intros p info Hlook. unfold scenario.five in Hlook.
    apply elem_of_list_to_map_2 in Hlook.
    repeat (apply elem_of_cons in Hlook as [Hlook|Hlook];
            [apply (f_equal snd) in Hlook; simpl in Hlook; subst info;
             vm_compute; reflexivity|]).
    inversion Hlook. }
  exists out, (true, ["backups"; "app-518400000000000.sql.gz"]).
  split; [exact E|]. split; [exact Hret|].
  apply (written_backup_survives_retention (codec := scenario.codec) (rt := scenario.utc)
           (contract := utc_contract) itoa scenario.daemonConfig
           (scenario.dumpOk (bytes "data")) (6 * scenario.day) scenario.five out
           (true, ["backups"; "app-518400000000000.sql.gz"]) eq_refl eq_refl Hstamp).
  - intros N [= <-]. split; [lia|]. intros name info Hlook. exact (Hold _ _ Hlook).
  - intros D [=].
  - exact E.
  - exact Hret.
Defined.
